(** * Salary simulator: withholding engine and reverse solver

    A shallow embedding of [CalculateNetSalaryService]
    (irs-withholding.service.ts) and [SalaryReverseService]
    (salary-reverse.service.ts), with the properties of the specification
    proved or refuted on it; and of the calculations of the component
    that calls them ([SimulatorComponent]) and of the input mask
    ([CurrencyMaskDirective]), with further properties of the code.

    Numbers.  A JavaScript [number] is modelled by the type [JS.number]: an
    exact rational, or one of NaN, +Infinity, -Infinity.  Finite arithmetic
    is exact (no binary64 rounding, no overflow) and there is one zero,
    which behaves as +0.  Everything the code does with NaN and the
    infinities (comparisons that are false on NaN, [Number.isFinite],
    [Math.max], division by zero) follows IEEE 754 / ECMAScript.

    Errors.  Every [throw new Error(...)] of the source is a constructor of
    [error]; a function that can throw returns a [result]. *)

From Stdlib Require Import ZArith QArith Qcanon Qround Qreduction Qminmax Qabs.
From Stdlib Require Import Qpower.
From Stdlib Require Import Bool List String Ascii Lia Lqa.
From Stdlib Require Import Permutation Sorted.
From Stdlib Require PrimFloat SpecFloat FloatOps.
From Equations Require Import Equations.
Import ListNotations.

(** ** JavaScript numbers *)

Module JS.

Inductive number : Type :=
| Fin (q : Qc)
| PosInf
| NegInf
| NaN.

Definition Qc_leb (a b : Qc) : bool := Qle_bool a b.
Definition Qc_ltb (a b : Qc) : bool := negb (Qle_bool b a).
Definition Qc_eqb (a b : Qc) : bool := Qeq_bool a b.

(** Literals: [num q] is the number written [q] in the source. *)
Definition num (q : Q) : number := Fin (Q2Qc q).
Definition ofZ (z : Z) : number := Fin (Q2Qc (inject_Z z)).

Definition neg (x : number) : number :=
  match x with
  | Fin q => Fin (- q)
  | PosInf => NegInf
  | NegInf => PosInf
  | NaN => NaN
  end.

Definition add (x y : number) : number :=
  match x, y with
  | NaN, _ | _, NaN => NaN
  | Fin a, Fin b => Fin (a + b)
  | PosInf, NegInf | NegInf, PosInf => NaN
  | PosInf, _ | _, PosInf => PosInf
  | NegInf, _ | _, NegInf => NegInf
  end.

Definition sub (x y : number) : number := add x (neg y).

(** The infinity with the sign of [s], NaN when [s] is zero. *)
Definition signedInf (s : Qc) : number :=
  match (s ?= 0)%Qc with
  | Eq => NaN
  | Gt => PosInf
  | Lt => NegInf
  end.

Definition mul (x y : number) : number :=
  match x, y with
  | NaN, _ | _, NaN => NaN
  | Fin a, Fin b => Fin (a * b)
  | Fin a, PosInf | PosInf, Fin a => signedInf a
  | Fin a, NegInf | NegInf, Fin a => signedInf (- a)
  | PosInf, PosInf | NegInf, NegInf => PosInf
  | PosInf, NegInf | NegInf, PosInf => NegInf
  end.

Definition div (x y : number) : number :=
  match x, y with
  | NaN, _ | _, NaN => NaN
  | Fin a, Fin b => if Qc_eqb b 0 then signedInf a else Fin (a / b)
  | Fin _, PosInf | Fin _, NegInf => Fin 0
  | PosInf, Fin b => if Qc_ltb b 0 then NegInf else PosInf
  | NegInf, Fin b => if Qc_ltb b 0 then PosInf else NegInf
  | _, _ => NaN
  end.

(** [x <= y] and [x < y]: false as soon as one side is NaN. *)
Definition leb (x y : number) : bool :=
  match x, y with
  | NaN, _ | _, NaN => false
  | Fin a, Fin b => Qc_leb a b
  | NegInf, _ | _, PosInf => true
  | _, _ => false
  end.

Definition ltb (x y : number) : bool :=
  match x, y with
  | NaN, _ | _, NaN => false
  | Fin a, Fin b => Qc_ltb a b
  | PosInf, _ | _, NegInf => false
  | _, _ => true
  end.

(** [Math.max(x, y)] *)
Definition max (x y : number) : number :=
  match x, y with
  | NaN, _ | _, NaN => NaN
  | _, _ => if ltb x y then y else x
  end.

(** [Math.round(x)]: the nearest integer, ties towards +Infinity. *)
Definition round (x : number) : number :=
  match x with
  | Fin q => ofZ (Qfloor (this q + (1 # 2)))
  | _ => x
  end.

(** [Number.isFinite(x)] and [Number.isInteger(x)] *)
Definition isFinite (x : number) : bool :=
  match x with Fin _ => true | _ => false end.

Definition isInteger (x : number) : bool :=
  match x with
  | Fin q => Pos.eqb (Qden q) 1
  | _ => false
  end.

(** [Number.EPSILON] = 2^-52 *)
Definition EPSILON : number := num (1 # 4503599627370496).

(** [x ?? d] for an optional field. *)
Definition orElse {A} (x : option A) (d : A) : A :=
  match x with Some a => a | None => d end.

(** A string is its sequence of UTF-16 code units. *)
Definition jsstring : Type := list N.

Definition utf16 (s : string) : jsstring :=
  List.map N_of_ascii (list_ascii_of_string s).

End JS.

Import JS.

Declare Scope js_scope.
Delimit Scope js_scope with js.
Bind Scope js_scope with number.
Infix "+" := add : js_scope.
Infix "-" := sub : js_scope.
Infix "*" := mul : js_scope.
Infix "/" := div : js_scope.
Infix "<=?" := leb : js_scope.
Infix "<?" := ltb : js_scope.
Notation "x ?? d" := (orElse x d) (at level 45, left associativity) : js_scope.

(** ** The withholding service: [CalculateNetSalaryService] *)

Module Irs.

Inductive LocationPT : Type := continente | madeira | acores.

Inductive MaritalStatus : Type :=
| single
| married_one_holder
| married_two_holders.

(** One constructor for each [throw] of the withholding service that the
    types allow, in the order of the source:
    'IRS dataset not set. ...', 'grossSalary must be a positive number.',
    'dependents must be an integer >= 0.', 'Location "..." not supported
    ...', 'Table "..." not found in dataset.', 'No matching band found (and
    no "over" band).', 'Unsupported deduction formula expression: ...' and
    'Invalid numbers in deduction formula: ...'. *)
Inductive error : Type :=
| DatasetNotSet
| GrossSalaryNotPositive
| DependentsNotNatural
| LocationNotSupported (l : LocationPT)
| TableNotFound (tableId : string)
| NoMatchingBand
| UnsupportedFormula (expression : jsstring)
| InvalidFormulaNumbers (expression : jsstring).

Inductive result (A : Type) : Type :=
| Ok (a : A)
| Err (e : error).
Arguments Ok {A} a.
Arguments Err {A} e.

Definition bind {A B} (r : result A) (k : A -> result B) : result B :=
  match r with
  | Ok a => k a
  | Err e => Err e
  end.

Notation "x <- r ;; k" := (bind r (fun x => k))
  (at level 61, r at next level, right associativity).

(** The errors the specification calls validation errors. *)
Definition isValidationError (e : error) : bool :=
  match e with
  | GrossSalaryNotPositive | DependentsNotNatural
  | LocationNotSupported _ => true
  | _ => false
  end.

(** *** Data model *)

(** [Deduction = number | { type: 'formula'; expression: string }].  The
    type has no third case, so the last [throw] of [resolveDeduction]
    ('Invalid deduction field.') has no constructor in [error]. *)
Inductive Deduction : Type :=
| DNumber (n : number)
| DFormula (expression : jsstring).

(** [Band].  The fields [effectiveRateAtLimit] and [notes] are never read
    by the calculation and are left out. *)
Record Band : Type := {
  upTo : option number;
  over : option number;
  rate : number;
  deduction : Deduction;
  additionalPerDependent : option number
}.

Inductive AssumesDependents : Type := Dep0 | Dep0Plus | Dep1Plus.

Record RateTable : Type := {
  id : string;
  name : string;
  audience : string;
  hasDisabilityTable : bool;
  assumesDependents : AssumesDependents;
  bands : list Band
}.

(** [IrsDataset]; its [meta] block is never read and is left out. *)
Record IrsDataset : Type := {
  tables : list RateTable
}.

Record IrsInput : Type := {
  grossSalary : number;
  maritalStatus : MaritalStatus;
  location : LocationPT;
  dependents : number;
  hasDisability : option bool;
  socialSecurityRate : option number
}.

Record IrsResult : Type := {
  tableId : string;
  band : Band;
  resRate : number;
  resDeduction : number;
  resAdditionalPerDependent : number;
  irsWithheld : number;
  socialSecurity : number;
  netSalary : number
}.

Local Open Scope js_scope.

(** *** The service's functions *)

(** [round2(n) = Math.round((n + Number.EPSILON) * 100) / 100] *)
Definition round2 (n : number) : number :=
  round ((n + EPSILON) * ofZ 100) / ofZ 100.

Definition pickTableId (maritalStatus : MaritalStatus) (dependents : number)
    (hasDisability : bool) : string :=
  if hasDisability then
    match maritalStatus with
    | married_one_holder => "VII"%string
    | married_two_holders =>
        if ofZ 1 <=? dependents then "VI"%string else "IV"%string
    | single => if ofZ 1 <=? dependents then "V"%string else "IV"%string
    end
  else
    match maritalStatus with
    | married_one_holder => "III"%string
    | _ => if ofZ 1 <=? dependents then "II"%string else "I"%string
    end.

(** [Array.prototype.sort(cmp)] is stable and puts [a] after [b] when
    [cmp(a, b) > 0]; a NaN returned by the comparator counts as 0. *)
Fixpoint insertBy {A} (cmp : A -> A -> number) (x : A) (l : list A) : list A :=
  match l with
  | [] => [x]
  | y :: l' => if ofZ 0 <? cmp x y then y :: insertBy cmp x l' else x :: l
  end.

Definition sortBy {A} (cmp : A -> A -> number) (l : list A) : list A :=
  fold_right (insertBy cmp) [] l.

(** The comparator of [pickBand]:
    [(a.upTo ?? Infinity) - (b.upTo ?? Infinity)]. *)
Definition compareUpTo (a b : Band) : number :=
  let au := upTo a ?? PosInf in
  let bu := upTo b ?? PosInf in
  au - bu.

(** [typeof b.upTo === 'number' && grossSalary <= b.upTo] *)
Definition bandCovers (grossSalary : number) (b : Band) : bool :=
  match upTo b with
  | Some u => grossSalary <=? u
  | None => false
  end.

(** [typeof b.over === 'number'] *)
Definition hasOver (b : Band) : bool :=
  match over b with Some _ => true | None => false end.

Definition pickBand (bands : list Band) (grossSalary : number) : result Band :=
  let sorted := sortBy compareUpTo bands in
  match find (bandCovers grossSalary) sorted with
  | Some b => Ok b
  | None =>
      match find hasOver sorted with
      | Some overBand => Ok overBand
      | None => Err NoMatchingBand
      end
  end.

(** *** Deduction formulas *)

(** The class [\s] of ECMAScript regular expressions: white space and line
    terminators. *)
Definition isWhitespace (c : N) : bool :=
  (N.leb 9 c && N.leb c 13)          (* TAB LF VT FF CR *)
  || N.eqb c 32 || N.eqb c 160       (* SP, NBSP *)
  || N.eqb c 5760                    (* U+1680 *)
  || (N.leb 8192 c && N.leb c 8202)  (* U+2000 .. U+200A *)
  || N.eqb c 8232 || N.eqb c 8233    (* U+2028, U+2029 *)
  || N.eqb c 8239 || N.eqb c 8287    (* U+202F, U+205F *)
  || N.eqb c 12288 || N.eqb c 65279. (* U+3000, U+FEFF *)

(** [expression.replace(/\s+/g, '')] *)
Definition removeWhitespace (s : jsstring) : jsstring :=
  filter (fun c => negb (isWhitespace c)) s.

Definition isDigit (c : N) : bool := N.leb 48 c && N.leb c 57.

(** The class [[0-9.]] *)
Definition isDigitOrDot (c : N) : bool := isDigit c || N.eqb c 46.

(** The longest prefix of [s] in a class, and the rest. *)
Fixpoint span (p : N -> bool) (s : jsstring) : jsstring * jsstring :=
  match s with
  | [] => ([], [])
  | c :: s' =>
      if p c then let (a, b) := span p s' in (c :: a, b) else ([], s)
  end.

(** A run [[0-9.]+] at the head of [s]. *)
Definition numberRun (s : jsstring) : option (jsstring * jsstring) :=
  match span isDigitOrDot s with
  | ([], _) => None
  | (run, rest) => Some (run, rest)
  end.

(** One given character at the head of [s]. *)
Definition expect (c : N) (s : jsstring) : option jsstring :=
  match s with
  | x :: s' => if N.eqb x c then Some s' else None
  | [] => None
  end.

(** [R] under the flag [i]: 'R' (82) or 'r' (114). *)
Definition expectR (s : jsstring) : option jsstring :=
  match s with
  | x :: s' => if N.eqb x 82 || N.eqb x 114 then Some s' else None
  | [] => None
  end.

(** [expr.match(/^([0-9.]+)\*([0-9.]+)\*\(([0-9.]+)-R\)$/i)]: the three
    groups, or [None] for no match.  The character after each group is
    outside [[0-9.]], so each group is the longest run at its place and
    the match needs no backtracking.  42 is '*', 40 '(', 45 '-', 41 ')'. *)
Definition matchFormula (expr : jsstring)
    : option (jsstring * jsstring * jsstring) :=
  match numberRun expr with
  | None => None
  | Some (m1, s) =>
  match expect 42 s with
  | None => None
  | Some s =>
  match numberRun s with
  | None => None
  | Some (m2, s) =>
  match expect 42 s with
  | None => None
  | Some s =>
  match expect 40 s with
  | None => None
  | Some s =>
  match numberRun s with
  | None => None
  | Some (m3, s) =>
  match expect 45 s with
  | None => None
  | Some s =>
  match expectR s with
  | None => None
  | Some s =>
  match expect 41 s with
  | Some [] => Some (m1, m2, m3)
  | _ => None
  end end end end end end end end end.

(** The value of a run of decimal digits. *)
Definition digitsValue (ds : jsstring) : Z :=
  fold_left (fun acc c => 10 * acc + (Z.of_N c - 48))%Z ds 0%Z.

(** [Number(s)] for a string [s] of digits and dots: the value of
    [digits], [digits.digits], [digits.] or [.digits]; NaN otherwise. *)
Definition Number (s : jsstring) : number :=
  let (ip, rest) := span isDigit s in
  match rest with
  | [] => match ip with [] => NaN | _ => ofZ (digitsValue ip) end
  | c :: fp =>
      if N.eqb c 46 && forallb isDigit fp
         && negb (Nat.eqb (List.length ip + List.length fp) 0) then
        num (inject_Z (digitsValue ip)
             + inject_Z (digitsValue fp)
               / inject_Z (10 ^ Z.of_nat (List.length fp)))
      else NaN
  end.

Definition resolveDeduction (deduction : Deduction) (R : number) : result number :=
  match deduction with
  | DNumber n => Ok n
  | DFormula expression =>
      let expr := removeWhitespace expression in
      match matchFormula expr with
      | None => Err (UnsupportedFormula expression)
      | Some (m1, m2, m3) =>
          let a := Number m1 in
          let b := Number m2 in
          let c := Number m3 in
          if negb (forallb isFinite [a; b; c]) then
            Err (InvalidFormulaNumbers expression)
          else Ok (a * b * (c - R))
      end
  end.

(** *** calculate *)

(** [data] is the service's [private data?: IrsDataset], [None] until
    [setDataset] is called. *)
Definition calculate (data : option IrsDataset) (input : IrsInput)
    : result IrsResult :=
  match data with
  | None => Err DatasetNotSet
  | Some data =>
      let grossSalary := grossSalary input in
      let maritalStatus := maritalStatus input in
      let location := location input in
      let dependents := dependents input in
      let hasDisability := hasDisability input ?? false in
      let socialSecurityRate := socialSecurityRate input ?? num 0.11 in
      if (grossSalary <=? ofZ 0) || negb (isFinite grossSalary) then
        Err GrossSalaryNotPositive
      else if (dependents <? ofZ 0) || negb (isInteger dependents) then
        Err DependentsNotNatural
      else
        match location with
        | continente =>
            let tableId := pickTableId maritalStatus dependents hasDisability in
            match find (fun t => String.eqb (id t) tableId) (tables data) with
            | None => Err (TableNotFound tableId)
            | Some table =>
                band <- pickBand (bands table) grossSalary ;;
                let rate := rate band in
                let additionalPerDependent :=
                  additionalPerDependent band ?? ofZ 0 in
                deduction <- resolveDeduction (deduction band) grossSalary ;;
                let irsRaw :=
                  grossSalary * rate - deduction
                  - additionalPerDependent * dependents in
                let irsWithheld := round2 (max (ofZ 0) irsRaw) in
                let socialSecurity := round2 (grossSalary * socialSecurityRate) in
                let netSalary :=
                  round2 (grossSalary - irsWithheld - socialSecurity) in
                Ok {| tableId := tableId;
                      band := band;
                      resRate := rate;
                      resDeduction := round2 deduction;
                      resAdditionalPerDependent := round2 additionalPerDependent;
                      irsWithheld := irsWithheld;
                      socialSecurity := socialSecurity;
                      netSalary := netSalary |}
            end
        | _ => Err (LocationNotSupported location)
        end
  end.

End Irs.

Import Irs.
Local Open Scope js_scope.

(** ** The reverse solver: [SalaryReverseService] *)

Module Reverse.

Record ReverseCalculationInput : Type := {
  targetNetSalary : number;
  location : LocationPT;
  maritalStatus : MaritalStatus;
  dependents : number;
  hasDuodecimos : bool;
  mealAllowanceDaily : number;
  mealAllowanceDays : number;
  mealAllowanceMonths : number;
  ihtPercentage : number;
  tsu : number;
  ssRate : number
}.

Record CalculationProposal : Type := {
  flexBenefitsPercentage : number;
  annualCost : number;
  monthlyBaseSalary : number;
  monthlyIHT : number;
  monthlyBenefits : number;
  monthlyMealAllowance : number;
  irs : number;
  socialSecurityMax : number;
  socialSecurityMin : number;
  totalNetMin : number;
  totalNetMax : number
}.

(** The local constants of [calculateOutputs] that its callers of the
    withholding service and its result are built from (source lines
    73-87). *)
Record MonthlyValues : Type := {
  mealAllowance : number;   (* monthlyMealAllowance *)
  toBenefits : number;      (* monthlyValueToBenefits *)
  iht : number;             (* monthlyIHT *)
  baseSalary : number;      (* monthlyBaseSalary *)
  gross : number            (* grossSalary *)
}.

Definition monthlyValues (input : ReverseCalculationInput)
    (annualCost flexPct : number) : MonthlyValues :=
  let monthsToMultiply := if hasDuodecimos input then ofZ 12 else ofZ 14 in
  let annualDailyMealAllowance :=
    mealAllowanceDaily input * mealAllowanceDays input
    * mealAllowanceMonths input in
  let monthlyMealAllowance :=
    mealAllowanceDaily input * mealAllowanceDays input in
  let valueSubjectToTsu := max (ofZ 0) (annualCost - annualDailyMealAllowance) in
  let totalValueAfterTsu := valueSubjectToTsu / (ofZ 1 + tsu input / ofZ 100) in
  let monthlyValueToDistribute := totalValueAfterTsu / monthsToMultiply in
  let monthlyValueToBenefits := (totalValueAfterTsu * flexPct) / ofZ 12 in
  let monthlyValueWithoutBenefits :=
    monthlyValueToDistribute - monthlyValueToBenefits in
  let monthlyIHT :=
    (monthlyValueWithoutBenefits * ihtPercentage input) / ofZ 100 in
  let monthlyBaseSalary := monthlyValueWithoutBenefits - monthlyIHT in
  let grossSalary := monthlyBaseSalary + monthlyIHT in
  {| mealAllowance := monthlyMealAllowance;
     toBenefits := monthlyValueToBenefits;
     iht := monthlyIHT;
     baseSalary := monthlyBaseSalary;
     gross := grossSalary |}.

(** The argument of the three calls of [irsService.calculate]. *)
Definition irsCall (input : ReverseCalculationInput) (g rate : number)
    : IrsInput :=
  {| Irs.grossSalary := g;
     Irs.maritalStatus := maritalStatus input;
     Irs.location := location input;
     Irs.dependents := dependents input;
     Irs.hasDisability := None;
     Irs.socialSecurityRate := Some rate |}.

(** [data] is the dataset held by the injected withholding service. *)
Definition calculateOutputs (data : option IrsDataset)
    (input : ReverseCalculationInput) (annualCost flexPct : number)
    : result CalculationProposal :=
  let v := monthlyValues input annualCost flexPct in
  let grossSalary := gross v in
  let monthlyValueToBenefits := toBenefits v in
  let monthlyMealAllowance := mealAllowance v in
  (* Max case (benefits exempt) *)
  calculationMax <- calculate data (irsCall input grossSalary (ssRate input)) ;;
  let totalNetMax :=
    netSalary calculationMax + monthlyMealAllowance + monthlyValueToBenefits in
  (* Min case (benefits subject to IRS) *)
  calculationMinIRS <-
    calculate data
      (irsCall input (grossSalary + monthlyValueToBenefits) (ofZ 0)) ;;
  ssForMinResult <- calculate data (irsCall input grossSalary (ssRate input)) ;;
  let ssForMin := socialSecurity ssForMinResult in
  let netSalaryMin :=
    (grossSalary + monthlyValueToBenefits) - irsWithheld calculationMinIRS
    - ssForMin in
  let totalNetMin := netSalaryMin + monthlyMealAllowance in
  Ok {| flexBenefitsPercentage := flexPct * ofZ 100;
        annualCost := annualCost;
        monthlyBaseSalary := baseSalary v;
        monthlyIHT := iht v;
        monthlyBenefits := monthlyValueToBenefits;
        monthlyMealAllowance := monthlyMealAllowance;
        irs := irsWithheld calculationMax;
        socialSecurityMax := socialSecurity calculationMax;
        socialSecurityMin := ssForMin;
        totalNetMin := totalNetMin;
        totalNetMax := totalNetMax |}.

(** What is left of a counting loop whose variable is [i], up to [bound]. *)
Definition remaining (bound i : Z) : nat := Z.to_nat (bound - i).
Arguments remaining : simpl never.

(** The loop [for (let i = 0; i < 50; i++)] of [solveForAnnualCost], from
    the state reached before iteration [i].  [mid] is assigned at the top
    of every iteration and read nowhere else, so it is not part of the
    state. *)
Equations? solveLoop (data : option IrsDataset)
    (input : ReverseCalculationInput) (flexPct : number) (i : Z)
    (low high : number) (bestResult : option CalculationProposal)
    : result (option CalculationProposal) by wf (remaining 50 i) lt :=
  solveLoop data input flexPct i low high bestResult with Z_lt_dec i 50 => {
    | left _ =>
        let mid := (low + high) / ofZ 2 in
        match calculateOutputs data input mid flexPct with
        | Err e => Err e
        | Ok result =>
            if totalNetMax result <? targetNetSalary input then
              solveLoop data input flexPct (i + 1) mid high (Some result)
            else
              solveLoop data input flexPct (i + 1) low mid (Some result)
        end
    | right _ => Ok bestResult }.
Proof. all: unfold remaining; lia. Qed.

(** [return bestResult!]: the assertion is erased at run time, so the
    value returned is [bestResult] as the loop left it ([None] is the
    initial [null]). *)
Definition solveForAnnualCost (data : option IrsDataset)
    (input : ReverseCalculationInput) (flexPct : number)
    : result (option CalculationProposal) :=
  solveLoop data input flexPct 0 (ofZ 0) (ofZ 1000000) None.

(** The loop [for (let pct = 0; pct <= 30; pct += 5)] of [getProposals];
    [pct] only takes integer values. *)
Equations? proposalsLoop (data : option IrsDataset)
    (input : ReverseCalculationInput) (pct : Z)
    (proposals : list (option CalculationProposal))
    : result (list (option CalculationProposal))
    by wf (remaining 31 pct) lt :=
  proposalsLoop data input pct proposals with Z_le_dec pct 30 => {
    | left _ =>
        let flexPct := if Z.eqb pct 0 then ofZ 0 else ofZ pct / ofZ 100 in
        match solveForAnnualCost data input flexPct with
        | Err e => Err e
        | Ok proposal =>
            proposalsLoop data input (pct + 5) (proposals ++ [proposal])
        end
    | right _ => Ok proposals }.
Proof. all: unfold remaining; lia. Qed.

Definition getProposals (data : option IrsDataset)
    (input : ReverseCalculationInput)
    : result (list (option CalculationProposal)) :=
  proposalsLoop data input 0 [].

End Reverse.

(** ** The simulator component: [SimulatorComponent]

    The calculations of the component that calls the two services: the
    sweep from an annual cost, the call of the reverse solver, and the
    annual cost that the component computes again for the proposals of
    the solver.  The timers of [calculate] and its loading phrases are not
    part of the model. *)

Module Simulator.

(** [Math.ceil(x)] *)
Definition ceil (x : number) : number :=
  match x with
  | Fin q => ofZ (Qceiling (this q))
  | _ => x
  end.

(** [Number(x.toFixed(2))].  [toFixed(2)] writes the integer [n] for which
    [n / 100] is nearest to [|x|], the larger one of two, with the sign of
    [x]; from 10^21 on, and for NaN and the infinities, it writes the
    number itself, which [Number] reads back. *)
Definition toFixed2 (x : number) : number :=
  match x with
  | Fin q =>
      if Qle_bool (inject_Z (10 ^ 21)) (Qabs (this q)) then x
      else
        let n := Qfloor (Qabs (this q) * (100 # 1) + (1 # 2)) in
        num ((if Qle_bool 0 (this q) then n else (- n)%Z) # 100)
  | _ => x
  end.

(** [Number(x) || 0] for a number [x]: 0 and NaN are the falsy numbers. *)
Definition orZero (x : number) : number :=
  match x with
  | NaN => ofZ 0
  | Fin q => if Qc_eqb q (Q2Qc 0) then ofZ 0 else x
  | _ => x
  end.

Inductive MaritalStatusOption : Type := single | married.

Definition LocationOption : Type := LocationPT.

(** The interface [ProposalData] has the fields of the solver's
    [CalculationProposal], whose values the component uses as such. *)
Definition ProposalData : Type := Reverse.CalculationProposal.

(** The fields of the component that the calculations read. *)
Record SimulatorComponent : Type := {
  annualDailyMealAllowance : number;
  monthlyMealAllowance : number;
  hasDuodecimos : bool;
  IhtPercentage : number;
  annualCost : number;
  targetNetSalary : number;
  maritalStatus : MaritalStatusOption;
  location : LocationOption;
  dependents : number
}.

(** The [readonly] constants of the component. *)
Definition subsRefeicaoDaily : number := num 10.22.
Definition subsRefeicaoDays : number := ofZ 22.
Definition subsRefeicaoMonths : number := ofZ 11.
Definition tsu : number := num 23.75.
Definition segSocialRegimeGeral : number := ofZ 11.
Definition maxFlexBenefitsPercentage : Z := 30.
Definition flexBenefitsStep : Z := 5.

Definition getMonthsMultiplier (c : SimulatorComponent) : number :=
  if hasDuodecimos c then ofZ 12 else ofZ 14.

Definition calculateIHT (c : SimulatorComponent) (monthlyGross : number)
    : number :=
  (monthlyGross * IhtPercentage c) / (ofZ 100 + IhtPercentage c).

Definition calculateMonthlyMealAllowance : number :=
  subsRefeicaoDaily * subsRefeicaoDays.

Definition calculateAnnualMealAllowance : number :=
  subsRefeicaoDaily * subsRefeicaoDays * subsRefeicaoMonths.

Definition roundToCents (value : number) : number :=
  toFixed2 (ceil (value * ofZ 100) / ofZ 100).

Definition calculateAnnualCostToCompany (c : SimulatorComponent)
    (grossSalary valueToBenefits : number) : number :=
  let monthsToMultiply := getMonthsMultiplier c in
  let annualGross := grossSalary * monthsToMultiply in
  let annualBenefits := valueToBenefits * ofZ 12 in
  let tsuFactor := ofZ 1 + tsu / ofZ 100 in
  annualGross * tsuFactor + annualBenefits + annualDailyMealAllowance c.

Definition getMappedMaritalStatus (c : SimulatorComponent) : MaritalStatus :=
  match maritalStatus c with
  | married =>
      match dependents c with
      | Fin q =>
          if Qc_eqb q (Q2Qc (inject_Z 1)) then married_one_holder
          else married_two_holders
      | _ => married_two_holders
      end
  | single => Irs.single
  end.

(** [{ ...proposal, annualCost: correctAnnualCost }] *)
Definition recalculateAnnualCost (c : SimulatorComponent)
    (proposal : ProposalData) : ProposalData :=
  let monthlyGross :=
    Reverse.monthlyBaseSalary proposal + Reverse.monthlyIHT proposal in
  let correctAnnualCost :=
    calculateAnnualCostToCompany c monthlyGross
      (Reverse.monthlyBenefits proposal) in
  {| Reverse.flexBenefitsPercentage := Reverse.flexBenefitsPercentage proposal;
     Reverse.annualCost := correctAnnualCost;
     Reverse.monthlyBaseSalary := Reverse.monthlyBaseSalary proposal;
     Reverse.monthlyIHT := Reverse.monthlyIHT proposal;
     Reverse.monthlyBenefits := Reverse.monthlyBenefits proposal;
     Reverse.monthlyMealAllowance := Reverse.monthlyMealAllowance proposal;
     Reverse.irs := Reverse.irs proposal;
     Reverse.socialSecurityMax := Reverse.socialSecurityMax proposal;
     Reverse.socialSecurityMin := Reverse.socialSecurityMin proposal;
     Reverse.totalNetMin := Reverse.totalNetMin proposal;
     Reverse.totalNetMax := Reverse.totalNetMax proposal |}.

(** The constants of one iteration of the loop of [calculateByAnnualCost]
    (source lines 173-195); [monthsToMultiply], [tsuFactor] and [budget]
    are computed once before the loop, from fields it does not change. *)
Record ForwardValues : Type := {
  normalizedPercentage : number;
  factor : number;
  distributable : number;
  monthlyValueToBenefits : number;
  monthlyGross : number;
  IHT : number;
  valueWithoutIHT : number
}.

Definition forwardValues (c : SimulatorComponent) (percentage : Z)
    : ForwardValues :=
  let monthsToMultiply := getMonthsMultiplier c in
  let tsuFactor := tsu / ofZ 100 in
  let budget := annualCost c - annualDailyMealAllowance c in
  let normalizedPercentage := ofZ percentage / ofZ 100 in
  let factor :=
    (ofZ 1 - normalizedPercentage) * (ofZ 1 + tsuFactor)
    + normalizedPercentage in
  let distributable := budget / factor in
  let annualValueToBenefits := distributable * normalizedPercentage in
  let annualGross := distributable * (ofZ 1 - normalizedPercentage) in
  let monthlyValueToBenefits := annualValueToBenefits / ofZ 12 in
  let monthlyGross := annualGross / monthsToMultiply in
  let IHT := calculateIHT c monthlyGross in
  let valueWithoutIHT := monthlyGross - IHT in
  {| normalizedPercentage := normalizedPercentage;
     factor := factor;
     distributable := distributable;
     monthlyValueToBenefits := monthlyValueToBenefits;
     monthlyGross := monthlyGross;
     IHT := IHT;
     valueWithoutIHT := valueWithoutIHT |}.

(** The argument of the calls of [irsService.calculate]. *)
Definition irsCall (c : SimulatorComponent) (g rate : number) : IrsInput :=
  {| Irs.grossSalary := g;
     Irs.maritalStatus := getMappedMaritalStatus c;
     Irs.location := location c;
     Irs.dependents := orZero (dependents c);
     Irs.hasDisability := None;
     Irs.socialSecurityRate := Some rate |}.

(** One iteration of the loop: the proposal it pushes.  [data] is the
    dataset held by the injected withholding service. *)
Definition proposalAt (data : option IrsDataset) (c : SimulatorComponent)
    (percentage : Z) : result ProposalData :=
  let v := forwardValues c percentage in
  let monthlyGross := monthlyGross v in
  let monthlyValueToBenefits := monthlyValueToBenefits v in
  calculationMax <-
    calculate data (irsCall c monthlyGross (segSocialRegimeGeral / ofZ 100)) ;;
  calculationMin <-
    calculate data
      (irsCall c (monthlyGross + monthlyValueToBenefits) (ofZ 0)) ;;
  ssForMinResult <-
    calculate data (irsCall c monthlyGross (segSocialRegimeGeral / ofZ 100)) ;;
  let ssForMin := socialSecurity ssForMinResult in
  let netSalaryMin :=
    monthlyGross + monthlyValueToBenefits - irsWithheld calculationMin
    - ssForMin in
  let custoAnualParaEmpresa :=
    calculateAnnualCostToCompany c monthlyGross monthlyValueToBenefits in
  Ok {| Reverse.flexBenefitsPercentage := ofZ percentage;
        Reverse.monthlyBaseSalary := roundToCents (valueWithoutIHT v);
        Reverse.monthlyIHT := roundToCents (IHT v);
        Reverse.monthlyBenefits := roundToCents monthlyValueToBenefits;
        Reverse.monthlyMealAllowance := monthlyMealAllowance c;
        Reverse.irs := roundToCents (irsWithheld calculationMax);
        Reverse.socialSecurityMax :=
          roundToCents (socialSecurity calculationMax);
        Reverse.socialSecurityMin := roundToCents ssForMin;
        Reverse.totalNetMax :=
          roundToCents (netSalary calculationMax + monthlyMealAllowance c
                        + monthlyValueToBenefits);
        Reverse.totalNetMin :=
          roundToCents (netSalaryMin + monthlyMealAllowance c);
        Reverse.annualCost := roundToCents custoAnualParaEmpresa |}.

(** The loop [for (let percentage = 0; percentage <=
    this.maxFlexBenefitsPercentage; percentage += this.flexBenefitsStep)]. *)
Equations? annualCostLoop (data : option IrsDataset) (c : SimulatorComponent)
    (percentage : Z) (proposals : list ProposalData)
    : result (list ProposalData)
    by wf (Reverse.remaining 31 percentage) lt :=
  annualCostLoop data c percentage proposals
    with Z_le_dec percentage maxFlexBenefitsPercentage => {
    | left _ =>
        match proposalAt data c percentage with
        | Err e => Err e
        | Ok proposal =>
            annualCostLoop data c (percentage + flexBenefitsStep)
              (proposals ++ [proposal])
        end
    | right _ => Ok proposals }.
Proof.
  all: unfold Reverse.remaining, maxFlexBenefitsPercentage, flexBenefitsStep
         in *; lia.
Qed.

Definition calculateByAnnualCost (data : option IrsDataset)
    (c : SimulatorComponent) : result (list ProposalData) :=
  annualCostLoop data c 0 [].

(** The object that [calculateByNetSalaryTarget] passes to the solver. *)
Definition reverseInput (c : SimulatorComponent)
    : Reverse.ReverseCalculationInput :=
  {| Reverse.targetNetSalary := targetNetSalary c;
     Reverse.location := location c;
     Reverse.maritalStatus := getMappedMaritalStatus c;
     Reverse.dependents := orZero (dependents c);
     Reverse.hasDuodecimos := hasDuodecimos c;
     Reverse.mealAllowanceDaily := subsRefeicaoDaily;
     Reverse.mealAllowanceDays := subsRefeicaoDays;
     Reverse.mealAllowanceMonths := subsRefeicaoMonths;
     Reverse.ihtPercentage := IhtPercentage c;
     Reverse.tsu := tsu;
     Reverse.ssRate := segSocialRegimeGeral / ofZ 100 |}.

Definition calculateByNetSalaryTarget (data : option IrsDataset)
    (c : SimulatorComponent)
    : result (list (option ProposalData)) :=
  Reverse.getProposals data (reverseInput c).

(** The two assignments of [calculate] that come before either path
    (source lines 137-138). *)
Definition withMealAllowances (c : SimulatorComponent) : SimulatorComponent :=
  {| annualDailyMealAllowance := calculateAnnualMealAllowance;
     monthlyMealAllowance := calculateMonthlyMealAllowance;
     hasDuodecimos := hasDuodecimos c;
     IhtPercentage := IhtPercentage c;
     annualCost := annualCost c;
     targetNetSalary := targetNetSalary c;
     maritalStatus := maritalStatus c;
     location := location c;
     dependents := dependents c |}.

End Simulator.

(** ** The simulator component: the rows it shows

    [mapToSimulationResult], which turns a proposal of either path into a
    row of the table.  The variables that its branch on [hasDuodecimos]
    assigns are gathered in a record. *)

Module Display.

Record SimulationResult : Type := {
  flexBenefitsPercentage : number;
  salaryBase : number;
  IHT : number;
  duodecimoSF : number;
  duodecimoSN : number;
  irsSF : number;
  irsSN : number;
  irs : number;
  netSalary : number;
  monthlyValueToBenefits : number;
  monthlyMealAllowance : number;
  totalMax : number;
  totalMin : number;
  salaryBaseAndIHT : number;
  rendimento : number;
  custoAnualParaEmpresa : number
}.

(** The variables that the branch [if (this.hasDuodecimos)] assigns. *)
Record Duodecimos : Type := {
  baseSalary : number;
  iht : number;
  duodecimoSFRaw : number;
  duodecimoSNRaw : number;
  irsSFShown : number;
  irsSNShown : number;
  irsBase : number
}.

Definition mapToSimulationResult (data : option IrsDataset)
    (c : Simulator.SimulatorComponent) (proposal : Simulator.ProposalData)
    : result SimulationResult :=
  let baseSalary := Simulator.toFixed2 (Reverse.monthlyBaseSalary proposal) in
  let iht := Simulator.toFixed2 (Reverse.monthlyIHT proposal) in
  let totalIrs := Simulator.toFixed2 (Reverse.irs proposal) in
  let socialSecurityMax :=
    Simulator.toFixed2 (Reverse.socialSecurityMax proposal) in
  let monthlyBenefits := Simulator.toFixed2 (Reverse.monthlyBenefits proposal) in
  d <- (if Simulator.hasDuodecimos c then
          let baseSalary14 :=
            (Reverse.monthlyBaseSalary proposal * ofZ 12) / ofZ 14 in
          let iht14 := (Reverse.monthlyIHT proposal * ofZ 12) / ofZ 14 in
          calculationBase <-
            calculate data
              (Simulator.irsCall c (baseSalary14 + iht14)
                 (Simulator.segSocialRegimeGeral / ofZ 100)) ;;
          let irsBase := Simulator.toFixed2 (Irs.irsWithheld calculationBase) in
          let irsRemanescente := max (ofZ 0) (totalIrs - irsBase) in
          Ok {| baseSalary := Simulator.toFixed2 baseSalary14;
                iht := Simulator.toFixed2 iht14;
                duodecimoSFRaw := baseSalary14 / ofZ 12;
                duodecimoSNRaw := baseSalary14 / ofZ 12;
                irsSFShown := Simulator.toFixed2 (irsRemanescente / ofZ 2);
                irsSNShown := Simulator.toFixed2 (irsRemanescente / ofZ 2);
                irsBase := irsBase |}
        else
          Ok {| baseSalary := baseSalary;
                iht := iht;
                duodecimoSFRaw := ofZ 0;
                duodecimoSNRaw := ofZ 0;
                irsSFShown := ofZ 0;
                irsSNShown := ofZ 0;
                irsBase := totalIrs |}) ;;
  Ok {| flexBenefitsPercentage := Reverse.flexBenefitsPercentage proposal;
        salaryBase := Display.baseSalary d;
        IHT := Display.iht d;
        duodecimoSF := Simulator.toFixed2 (duodecimoSFRaw d);
        duodecimoSN := Simulator.toFixed2 (duodecimoSNRaw d);
        irsSF := irsSFShown d;
        irsSN := irsSNShown d;
        irs := Display.irsBase d;
        netSalary :=
          Simulator.toFixed2
            (Reverse.monthlyBaseSalary proposal + Reverse.monthlyIHT proposal
             - totalIrs - socialSecurityMax);
        monthlyMealAllowance := Reverse.monthlyMealAllowance proposal;
        monthlyValueToBenefits := monthlyBenefits;
        totalMax := Simulator.toFixed2 (Reverse.totalNetMax proposal);
        totalMin := Simulator.toFixed2 (Reverse.totalNetMin proposal);
        salaryBaseAndIHT := Display.baseSalary d + Display.iht d;
        rendimento := Display.baseSalary d + Display.iht d + monthlyBenefits;
        custoAnualParaEmpresa :=
          Simulator.toFixed2 (Reverse.annualCost proposal) |}.

End Display.

(** ** The currency mask directive: [CurrencyMaskDirective]

    The text of the input element and the value passed to the form, as
    typing leaves them ([onInput] and [formatDisplay]).  Strings are
    sequences of UTF-16 code units; the regular expressions have no flags,
    so [\d] is [[0-9]] and [\w] is [[A-Za-z0-9_]]. *)

Module CurrencyMask.

(** The class [\w] of a regular expression without flags. *)
Definition isWord (c : N) : bool :=
  isDigit c || (N.leb 65 c && N.leb c 90) || (N.leb 97 c && N.leb c 122)
  || N.eqb c 95.

(** [s.split(',')]: the pieces between the commas, at least one. *)
Fixpoint split (sep : N) (s : jsstring) : list jsstring :=
  match s with
  | [] => [[]]
  | c :: r =>
      if N.eqb c sep then [] :: split sep r
      else match split sep r with
           | p :: ps => (c :: p) :: ps
           | [] => [[c]]
           end
  end.

(** The assertion [\B] between two characters, [None] being an end of the
    string: both sides are word characters, or neither is. *)
Definition nonBoundary (prev next : option N) : bool :=
  Bool.eqb (match prev with Some c => isWord c | None => false end)
           (match next with Some c => isWord c | None => false end).

(** The assertion [(?=(\d{3})+(?!\d))] at the head of [s]: the digits that
    start there are a positive multiple of three. *)
Definition lookahead (s : jsstring) : bool :=
  let run := List.length (fst (span isDigit s)) in
  negb (Nat.eqb run 0) && Nat.eqb (run mod 3) 0.

(** [s.replace(/\B(?=(\d{3})+(?!\d))/g, ' ')]: a space at every position
    where both assertions hold; [prev] is the character before [s]. *)
Fixpoint separate (prev : option N) (s : jsstring) : jsstring :=
  match s with
  | [] => if nonBoundary prev None && lookahead [] then [32%N] else []
  | c :: r =>
      (if nonBoundary prev (Some c) && lookahead s then [32%N] else [])
      ++ c :: separate (Some c) r
  end.

Definition formatDisplay (value : jsstring) : jsstring :=
  match value with
  | [] => []
  | _ =>
      let parts := split 44 value in
      let integerPart := filter isDigit (hd [] parts) in
      let decimalPart :=
        match parts with
        | _ :: p1 :: _ => 44%N :: firstn 2 p1
        | _ => []
        end in
      let integerPart := separate None integerPart in
      integerPart ++ decimalPart
  end.

(** [s.replace(',', '.')]: the first comma only. *)
Fixpoint replaceFirstComma (s : jsstring) : jsstring :=
  match s with
  | [] => []
  | c :: r => if N.eqb c 44 then 46%N :: r else c :: replaceFirstComma r
  end.

(** [parseFloat(s)] for a string of digits, dots and commas, as [onInput]
    builds them: the value of the longest prefix [digits], [digits.],
    [digits.digits] or [.digits], NaN when there is none. *)
Definition parseFloat (s : jsstring) : number :=
  let (ip, rest) := span isDigit s in
  match rest with
  | 46%N :: r =>
      let fp := fst (span isDigit r) in
      if Nat.eqb (List.length ip + List.length fp) 0 then NaN
      else num (inject_Z (digitsValue ip)
                + inject_Z (digitsValue fp)
                  / inject_Z (10 ^ Z.of_nat (List.length fp)))
  | _ => match ip with [] => NaN | _ => ofZ (digitsValue ip) end
  end.

(** What [onInput] leaves: the text of the element and [innerValue], the
    value passed to [onChange] ([None] is [null]). *)
Record InputState : Type := {
  elementValue : jsstring;
  innerValue : option number
}.

Definition onInput (value : jsstring) : InputState :=
  let cleanValue := filter (fun c => isDigit c || N.eqb c 44) value in
  let parts := split 44 cleanValue in
  let cleanValue :=
    match parts with
    | p0 :: p1 :: _ :: _ => p0 ++ 44%N :: p1
    | _ => cleanValue
    end in
  let formatted := formatDisplay cleanValue in
  let dotsFixed := replaceFirstComma cleanValue in
  let numericValue :=
    parseFloat (filter (fun c => negb (N.eqb c 44)) dotsFixed) in
  {| elementValue := formatted;
     innerValue := match numericValue with
                   | NaN => None
                   | _ => Some numericValue
                   end |}.

End CurrencyMask.

(** ** Binary64 arithmetic

    The numbers of the code are IEEE 754 binary64 numbers.  [B64] is
    JavaScript's arithmetic on them: each operation is the exact operation
    of [JS] followed by [round64], which rounds to the nearest binary64
    number, a tie going to the even significand, and overflows to an
    infinity.  A binary64 number is a [number] that [round64] leaves
    unchanged; there is one zero, which behaves as +0. *)

Module B64.

Definition pow2 (e : Z) : Q := (2 # 1) ^ e.

(** For [a > 0], the exponent [e] with [2^e <= a < 2^(e+1)]. *)
Definition ilog2 (a : Q) : Z :=
  let e0 := (Z.log2 (Qnum a) - Z.log2 (Zpos (Qden a)))%Z in
  if Qle_bool (pow2 e0) a then e0 else (e0 - 1)%Z.

(** The integer nearest to [x], a tie going to the even one. *)
Definition rne (x : Q) : Z :=
  let f := Qfloor x in
  match (x - inject_Z f ?= 1 # 2)%Q with
  | Lt => f
  | Gt => (f + 1)%Z
  | Eq => if Z.even f then f else (f + 1)%Z
  end.

(** The exponent of the unit in the last place at [a > 0]: 53 significant
    bits, and no exponent below that of the subnormal numbers. *)
Definition exponent (a : Q) : Z := Z.max (ilog2 a - 52) (-1074).

(** The multiple of [2^(exponent a)] nearest to [a > 0]. *)
Definition nearest (a : Q) : Q :=
  let s := exponent a in
  (inject_Z (rne (a / pow2 s)) * pow2 s)%Q.

Definition round64 (x : number) : number :=
  match x with
  | Fin q =>
      match (this q ?= 0)%Q with
      | Eq => x
      | Gt =>
          let v := nearest q in
          if Qle_bool (pow2 1024) v then PosInf else num v
      | Lt =>
          let v := nearest (- q) in
          if Qle_bool (pow2 1024) v then NegInf else num (- v)
      end
  | _ => x
  end.

Definition add (x y : number) : number := round64 (JS.add x y).
Definition sub (x y : number) : number := round64 (JS.sub x y).
Definition mul (x y : number) : number := round64 (JS.mul x y).
Definition div (x y : number) : number := round64 (JS.div x y).

(** A decimal literal of the source, or of a JSON file: the binary64
    number nearest to it. *)
Definition lit (q : Q) : number := round64 (num q).

(** The value of a primitive binary64 number of Rocq, to compare
    [round64] with the hardware operations. *)
Definition ofFloat (f : PrimFloat.float) : number :=
  match FloatOps.Prim2SF f with
  | SpecFloat.S754_zero _ => ofZ 0
  | SpecFloat.S754_infinity false => PosInf
  | SpecFloat.S754_infinity true => NegInf
  | SpecFloat.S754_nan => NaN
  | SpecFloat.S754_finite s m e =>
      num ((if s then -1 else 1) * inject_Z (Zpos m) * pow2 e)
  end.

End B64.

Infix "+!" := B64.add (at level 50, left associativity).
Infix "-!" := B64.sub (at level 50, left associativity).
Infix "*!" := B64.mul (at level 40, left associativity).
Infix "/!" := B64.div (at level 40, left associativity).

(** ** The withholding service on binary64 numbers

    [CalculateNetSalaryService] again, function by function, with the
    arithmetic of [B64] where [Irs] has the exact one.  [Math.round],
    [Math.max], the comparisons and [Number.isFinite] are exact on binary64
    numbers and are those of [JS]; [pickTableId] only compares. *)

Module Irs64.

(** [round2(n) = Math.round((n + Number.EPSILON) * 100) / 100] *)
Definition round2 (n : number) : number :=
  round ((n +! EPSILON) *! ofZ 100) /! ofZ 100.

Definition compareUpTo (a b : Band) : number :=
  let au := upTo a ?? PosInf in
  let bu := upTo b ?? PosInf in
  au -! bu.

Definition pickBand (bands : list Band) (grossSalary : number) : result Band :=
  let sorted := sortBy compareUpTo bands in
  match find (bandCovers grossSalary) sorted with
  | Some b => Ok b
  | None =>
      match find hasOver sorted with
      | Some overBand => Ok overBand
      | None => Err NoMatchingBand
      end
  end.

(** [Number(s)] for a string [s] of digits and dots: the binary64 number
    nearest to the decimal, +Infinity from 2^1024 on. *)
Definition Number (s : jsstring) : number := B64.round64 (Irs.Number s).

Definition resolveDeduction (deduction : Deduction) (R : number) : result number :=
  match deduction with
  | DNumber n => Ok n
  | DFormula expression =>
      let expr := removeWhitespace expression in
      match matchFormula expr with
      | None => Err (UnsupportedFormula expression)
      | Some (m1, m2, m3) =>
          let a := Number m1 in
          let b := Number m2 in
          let c := Number m3 in
          if negb (forallb isFinite [a; b; c]) then
            Err (InvalidFormulaNumbers expression)
          else Ok (a *! b *! (c -! R))
      end
  end.

Definition calculate (data : option IrsDataset) (input : IrsInput)
    : result IrsResult :=
  match data with
  | None => Err DatasetNotSet
  | Some data =>
      let grossSalary := grossSalary input in
      let maritalStatus := maritalStatus input in
      let location := location input in
      let dependents := dependents input in
      let hasDisability := hasDisability input ?? false in
      let socialSecurityRate := socialSecurityRate input ?? B64.lit 0.11 in
      if (grossSalary <=? ofZ 0) || negb (isFinite grossSalary) then
        Err GrossSalaryNotPositive
      else if (dependents <? ofZ 0) || negb (isInteger dependents) then
        Err DependentsNotNatural
      else
        match location with
        | continente =>
            let tableId := pickTableId maritalStatus dependents hasDisability in
            match find (fun t => String.eqb (id t) tableId) (tables data) with
            | None => Err (TableNotFound tableId)
            | Some table =>
                band <- pickBand (bands table) grossSalary ;;
                let rate := rate band in
                let additionalPerDependent :=
                  additionalPerDependent band ?? ofZ 0 in
                deduction <- resolveDeduction (deduction band) grossSalary ;;
                let irsRaw :=
                  grossSalary *! rate -! deduction
                  -! additionalPerDependent *! dependents in
                let irsWithheld := round2 (max (ofZ 0) irsRaw) in
                let socialSecurity := round2 (grossSalary *! socialSecurityRate) in
                let netSalary :=
                  round2 (grossSalary -! irsWithheld -! socialSecurity) in
                Ok {| tableId := tableId;
                      band := band;
                      resRate := rate;
                      resDeduction := round2 deduction;
                      resAdditionalPerDependent := round2 additionalPerDependent;
                      irsWithheld := irsWithheld;
                      socialSecurity := socialSecurity;
                      netSalary := netSalary |}
            end
        | _ => Err (LocationNotSupported location)
        end
  end.

End Irs64.

(** ** Numbers to compare [B64] with the primitive binary64 numbers *)

Module B64Check.

Import PrimInt63 PrimFloat.

Definition ratio (n d : int) : float := of_uint63 n / of_uint63 d.

(** Salaries, rates and constants of the code. *)
Definition samples : list float :=
  [ ratio 11 100; ratio 12345 10; ratio 100 1; ratio 1 4503599627370496;
    ratio 1000000 1; ratio 2 10; ratio 135795 1000; ratio 247324 100;
    ratio 30000 1; ratio 12375 10000; ratio 14 1; ratio 5 100;
    ratio 4015 1000; ratio 1 3 ].

(** Subnormal numbers, and numbers near the overflow threshold:
    [ldshiftexp x e] is [x * 2^(e - 2101)]. *)
Definition extremes : list float :=
  [ ldshiftexp (ratio 1 3) 1061; ldshiftexp (ratio 7 5) 1027;
    ldshiftexp (ratio 5 3) 3124; ratio 3 1 ].

Definition agrees (l : list float) (f : float -> float -> float)
    (g : number -> number -> number) : bool :=
  forallb (fun x =>
    forallb (fun y =>
      match B64.ofFloat (f x y), g (B64.ofFloat x) (B64.ofFloat y) with
      | Fin a, Fin b => Qc_eqb a b
      | PosInf, PosInf | NegInf, NegInf | NaN, NaN => true
      | _, _ => false
      end) l) l.

End B64Check.

(** ** The percentages of the sweep in binary64

    The one place where the sweep depends on floating-point rounding: a
    proposal carries [flexPct * 100] with [flexPct = pct / 100].  Here both
    operations are those of IEEE 754 binary64, as in JavaScript. *)

Module Binary64.

Import PrimFloat.

Definition flexBenefitsPercentage (pct : float) : float :=
  let flexPct := if eqb pct 0 then 0%float else (pct / 100)%float in
  (flexPct * 100)%float.

Definition percentages : list float := [0; 5; 10; 15; 20; 25; 30]%float.

End Binary64.

(** ** The dataset of the service's unit tests *)

Definition simpleBand (u : Q) (r d : Q) : Band :=
  {| upTo := Some (num u); over := None; rate := num r;
     deduction := DNumber (num d); additionalPerDependent := None |}.

Definition band920 : Band := simpleBand 920 0 0.

Definition band1042 : Band :=
  {| upTo := Some (num 1042); over := None; rate := num 0.125;
     deduction := DFormula (utf16 "0.125 * 2.60 * (1273.85 - R)");
     additionalPerDependent := Some (num 21.43) |}.

Definition bandOver1042 : Band :=
  {| upTo := None; over := Some (num 1042); rate := num 0.2;
     deduction := DNumber (num 100); additionalPerDependent := None |}.

Definition mockTable (i n a : string) (d : bool) (dep : AssumesDependents)
    (bs : list Band) : RateTable :=
  {| id := i; name := n; audience := a; hasDisabilityTable := d;
     assumesDependents := dep; bands := bs |}.

Definition mockTableI : RateTable :=
  mockTable "I" "Tabela I" "Single" false Dep0Plus
    [band920; band1042; bandOver1042].

Definition mockDataset : IrsDataset :=
  {| tables :=
       [ mockTableI;
         mockTable "II" "Tabela II" "Single 1+" false Dep1Plus
           [simpleBand 5000 0.1 0];
         mockTable "III" "Tabela III" "Married 1 holder" false Dep0Plus
           [simpleBand 5000 0.1 0];
         mockTable "IV" "Tabela IV" "Disability 0 dependents" true Dep0
           [simpleBand 5000 0.1 0];
         mockTable "V" "Tabela V" "Disability 1+ dependents single" true Dep1Plus
           [simpleBand 5000 0.1 0];
         mockTable "VI" "Tabela VI" "Disability 1+ dependents married 2 holders"
           true Dep1Plus [simpleBand 5000 0.1 0];
         mockTable "VII" "Tabela VII" "Disability married 1 holder" true Dep0Plus
           [simpleBand 5000 0.1 0] ] |}.

Definition irsInput (g : Q) (m : MaritalStatus) (d : Z) : IrsInput :=
  {| grossSalary := num g; maritalStatus := m; location := continente;
     dependents := ofZ d; hasDisability := None; socialSecurityRate := None |}.

Definition reverseTestInput : Reverse.ReverseCalculationInput :=
  {| Reverse.targetNetSalary := num 1500;
     Reverse.location := continente;
     Reverse.maritalStatus := single;
     Reverse.dependents := ofZ 0;
     Reverse.hasDuodecimos := false;
     Reverse.mealAllowanceDaily := num 10;
     Reverse.mealAllowanceDays := num 22;
     Reverse.mealAllowanceMonths := num 11;
     Reverse.ihtPercentage := num 25;
     Reverse.tsu := num 23.75;
     Reverse.ssRate := num 0.11 |}.

(** ** The dataset of the unit tests as the JSON file holds it

    Every number of a dataset read from JSON is the binary64 number
    nearest to its decimal. *)

Definition toBinary64Band (b : Band) : Band :=
  {| upTo := option_map B64.round64 (upTo b);
     over := option_map B64.round64 (over b);
     rate := B64.round64 (rate b);
     deduction :=
       match deduction b with
       | DNumber n => DNumber (B64.round64 n)
       | DFormula e => DFormula e
       end;
     additionalPerDependent :=
       option_map B64.round64 (additionalPerDependent b) |}.

Definition toBinary64Table (t : RateTable) : RateTable :=
  {| id := id t; name := name t; audience := audience t;
     hasDisabilityTable := hasDisabilityTable t;
     assumesDependents := assumesDependents t;
     bands := map toBinary64Band (bands t) |}.

Definition toBinary64 (d : IrsDataset) : IrsDataset :=
  {| tables := map toBinary64Table (tables d) |}.

Definition mockDataset64 : IrsDataset := toBinary64 mockDataset.

Definition irsInput64 (g : Q) (m : MaritalStatus) (d : Z) : IrsInput :=
  {| grossSalary := B64.lit g; maritalStatus := m; location := continente;
     dependents := ofZ d; hasDisability := None; socialSecurityRate := None |}.

(** One table of one band up to 5000 with a rate of 20 % and no
    deduction, and an input with a social-security rate of 20 %. *)
Definition flatDataset : IrsDataset :=
  toBinary64
    {| tables :=
         [mockTable "I" "Tabela I" "Single" false Dep0Plus
            [simpleBand 5000 0.2 0]] |}.

Definition flatInput (g : number) : IrsInput :=
  {| grossSalary := g; maritalStatus := single; location := continente;
     dependents := ofZ 0; hasDisability := None;
     socialSecurityRate := Some (B64.lit 0.2) |}.

(** * Vocabulary of the properties *)

(** ** Vocabulary: table selection *)

(** The mapping in the words of the specification; [withDependents] stands
    for "dependents >= 1". *)
Definition specTableId (m : MaritalStatus) (withDependents disability : bool)
    : string :=
  match disability, m with
  | false, married_one_holder => "III"
  | false, _ => if withDependents then "II" else "I"
  | true, married_one_holder => "VII"
  | true, married_two_holders => if withDependents then "VI" else "IV"
  | true, single => if withDependents then "V" else "IV"
  end%string.

Definition tableIds : list string :=
  ["I"; "II"; "III"; "IV"; "V"; "VI"; "VII"]%string.

(** ** Vocabulary: band selection *)

(** The sorting key of a band: its [upTo], or +Infinity without one. *)
Definition upToKey (b : Band) : number := upTo b ?? PosInf.

Definition upToLe (a b : Band) : Prop := (upToKey a <=? upToKey b) = true.

(** A table as a dataset in JSON gives it: every [upTo] that is present is
    a finite number. *)
Definition finiteUpTo (b : Band) : Prop :=
  match upTo b with
  | Some u => isFinite u = true
  | None => True
  end.

(** "The band's upTo is a finite number >= the gross salary". *)
Definition coversSpec (g : number) (b : Band) : Prop :=
  exists u : Qc, upTo b = Some (Fin u) /\ (g <=? Fin u) = true.

(** [b] is the first element of [l] that satisfies [P]. *)
Definition FirstSuch {A} (P : A -> Prop) (l : list A) (b : A) : Prop :=
  exists l1 l2, l = l1 ++ b :: l2 /\ (forall x, In x l1 -> ~ P x) /\ P b.

(** The six orders in which a table can list the three bands of the
    scenario. *)
Definition scenarioTables : list (list Band) :=
  [ [band920; band1042; bandOver1042]; [band920; bandOver1042; band1042];
    [band1042; band920; bandOver1042]; [band1042; bandOver1042; band920];
    [bandOver1042; band920; band1042]; [bandOver1042; band1042; band920] ].

(** ** Vocabulary: deduction formulas *)

(** What the head of [rest] must be for a run to end there. *)
Definition stopsAt (p : N -> bool) (rest : jsstring) : Prop :=
  match rest with
  | [] => True
  | x :: _ => p x = false
  end.

(** A non-empty run of digits and dots: what a group [([0-9.]+)] matches. *)
Definition isRun (m : jsstring) : Prop :=
  m <> [] /\ forallb isDigitOrDot m = true.

(** The language of the regular expression
    [/^([0-9.]+)\*([0-9.]+)\*\(([0-9.]+)-R\)$/i], with its three groups. *)
Definition MatchesFormula (expr m1 m2 m3 : jsstring) : Prop :=
  isRun m1 /\ isRun m2 /\ isRun m3 /\
  exists r, (r = 82 \/ r = 114)%N /\
    expr = m1 ++ 42%N :: m2 ++ 42%N :: 40%N :: m3 ++ [45; r; 41]%N.

(** The decimal literals [Number] accepts among the runs of digits and
    dots, with their values: [digits], [digits.digits], [digits.] and
    [.digits]. *)
Inductive DecimalLiteral : jsstring -> Qc -> Prop :=
| DecInteger (ip : jsstring) :
    ip <> [] -> forallb isDigit ip = true ->
    DecimalLiteral ip (Q2Qc (inject_Z (digitsValue ip)))
| DecFraction (ip fp : jsstring) :
    forallb isDigit ip = true -> forallb isDigit fp = true ->
    ip ++ fp <> [] ->
    DecimalLiteral (ip ++ 46%N :: fp)
      (Q2Qc (inject_Z (digitsValue ip)
             + inject_Z (digitsValue fp)
               / inject_Z (10 ^ Z.of_nat (List.length fp)))).

(** A decimal literal read as a binary64 number: the binary64 number
    nearest to its value, when that is finite (the value is below the
    overflow threshold, just under 2^1024). *)
Definition FiniteLiteral (m : jsstring) (a : number) : Prop :=
  exists v : Qc,
    DecimalLiteral m v /\ a = B64.round64 (Fin v) /\ isFinite a = true.

(** The grammar of the specification, white space removed: [a*b*(c-R)]
    with [a], [b], [c] decimal literals. *)
Definition SpecFormula (e : jsstring) : Prop :=
  exists a b c va vb vc r,
    DecimalLiteral a va /\ DecimalLiteral b vb /\ DecimalLiteral c vc
    /\ (r = 82 \/ r = 114)%N
    /\ removeWhitespace e
       = a ++ 42%N :: b ++ 42%N :: 40%N :: c ++ [45; r; 41]%N.

(** The coefficient of the gross salary in the raw tax of a band, beside
    its rate, and the constant the deduction takes off: a literal
    deduction [d] adds 0 and takes off [d]; a formula [a*b*(c-R)], whose
    product [a*b] is [A] in binary64, adds [A] and takes off [A * c].
    The amounts are bounded by 100 000 000 and [A] is between 0 and 1. *)
Definition affineDeduction (d : Deduction) (A d0 : Qc) : Prop :=
  match d with
  | DNumber n =>
      n = Fin d0 /\ A = Q2Qc 0
      /\ (- (100000000 # 1) <= this d0)%Q /\ (this d0 <= 100000000 # 1)%Q
  | DFormula e =>
      exists (m1 m2 m3 : jsstring) (a b c : Qc),
        MatchesFormula (removeWhitespace e) m1 m2 m3
        /\ Irs64.Number m1 = Fin a /\ Irs64.Number m2 = Fin b
        /\ Irs64.Number m3 = Fin c
        /\ Fin a *! Fin b = Fin A
        /\ d0 = (A * c)%Qc
        /\ (0 <= this A)%Q /\ (this A <= 1)%Q
        /\ (- (100000000 # 1) <= this c)%Q /\ (this c <= 100000000 # 1)%Q
  end.

(** The rational value of a finite number, 0 for the others. *)
Definition valueOf (x : number) : Qc :=
  match x with
  | Fin q => q
  | _ => Q2Qc 0
  end.

(** ** Vocabulary: rounding and validation *)

(** The number of cents [round2] rounds a finite number to:
    [floor ((q + 2^-52) * 100 + 1/2)]. *)
Definition cents (q : Qc) : Z :=
  Qfloor (this ((q + Q2Qc (1 # 4503599627370496)) * Q2Qc (inject_Z 100))%Qc
          + (1 # 2)).

(** Gross salary finite and > 0, dependents a non-negative integer,
    location 'continente'. *)
Definition validInput (input : IrsInput) : Prop :=
  (isFinite (grossSalary input) = true /\ (ofZ 0 <? grossSalary input) = true)
  /\ (isInteger (dependents input) = true
      /\ (ofZ 0 <=? dependents input) = true)
  /\ location input = continente.

(** Gross salary non-finite or <= 0, or dependents not a non-negative
    integer, or a location other than 'continente'. *)
Definition invalidInput (input : IrsInput) : Prop :=
  (isFinite (grossSalary input) = false \/ (grossSalary input <=? ofZ 0) = true)
  \/ (isInteger (dependents input) = false
      \/ (dependents input <? ofZ 0) = true)
  \/ location input <> continente.

(** What [calculate] does once the dataset is there and the input has
    passed the three checks. *)
Definition withhold (data : IrsDataset) (input : IrsInput) : result IrsResult :=
  let tableId :=
    pickTableId (maritalStatus input) (dependents input)
      (hasDisability input ?? false) in
  match find (fun t => String.eqb (id t) tableId) (tables data) with
  | None => Err (TableNotFound tableId)
  | Some table =>
      band <- pickBand (bands table) (grossSalary input) ;;
      deduction <- resolveDeduction (deduction band) (grossSalary input) ;;
      let apd := additionalPerDependent band ?? ofZ 0 in
      let irsWithheld :=
        round2 (max (ofZ 0)
                  (grossSalary input * rate band - deduction
                   - apd * dependents input)) in
      let socialSecurity :=
        round2 (grossSalary input * (socialSecurityRate input ?? num 0.11)) in
      Ok {| tableId := tableId;
            band := band;
            resRate := rate band;
            resDeduction := round2 deduction;
            resAdditionalPerDependent := round2 apd;
            irsWithheld := irsWithheld;
            socialSecurity := socialSecurity;
            netSalary :=
              round2 (grossSalary input - irsWithheld - socialSecurity) |}
  end.

(** The same input with another gross salary. *)
Definition withGross (input : IrsInput) (g : number) : IrsInput :=
  {| grossSalary := g;
     maritalStatus := maritalStatus input;
     location := location input;
     dependents := dependents input;
     hasDisability := hasDisability input;
     socialSecurityRate := socialSecurityRate input |}.

(** ** Vocabulary: the reverse solver *)

Definition midpoint (bounds : number * number) : number :=
  (fst bounds + snd bounds) / ofZ 2.

(** One iteration in the words of the specification: compute the max net
    salary scenario at the midpoint; raise the lower bound to the midpoint
    when that max net salary is below the target, lower the upper bound to
    it otherwise. *)
Definition narrow (data : option IrsDataset)
    (input : Reverse.ReverseCalculationInput) (flexPct : number)
    (bounds : number * number) : result (number * number) :=
  result <- Reverse.calculateOutputs data input (midpoint bounds) flexPct ;;
  Ok (if Reverse.totalNetMax result <? Reverse.targetNetSalary input
      then (midpoint bounds, snd bounds)
      else (fst bounds, midpoint bounds)).

(** [k] iterations, one after the other. *)
Fixpoint bisect (data : option IrsDataset)
    (input : Reverse.ReverseCalculationInput) (flexPct : number)
    (k : nat) (bounds : number * number) : result (number * number) :=
  match k with
  | O => Ok bounds
  | S k' =>
      bounds' <- narrow data input flexPct bounds ;;
      bisect data input flexPct k' bounds'
  end.

(** [pct == 0 ? 0 : (pct / 100)] *)
Definition flexPctOf (pct : Z) : number :=
  if Z.eqb pct 0 then ofZ 0 else ofZ pct / ofZ 100.

Definition percentages : list Z := [0; 5; 10; 15; 20; 25; 30]%Z.

(** The calls of a list of percentages in turn, the first error ending
    them. *)
Fixpoint solveAll (data : option IrsDataset)
    (input : Reverse.ReverseCalculationInput) (pcts : list Z)
    : result (list (option Reverse.CalculationProposal)) :=
  match pcts with
  | [] => Ok []
  | pct :: rest =>
      proposal <- Reverse.solveForAnnualCost data input (flexPctOf pct) ;;
      proposals <- solveAll data input rest ;;
      Ok (proposal :: proposals)
  end.

(** The decomposition in the words of the specification, [TSU] being the
    rate [tsu / 100]: budget, de-grossing factor, distributable value,
    and from them the monthly benefit, gross, IHT and base salary. *)
Record SpecDecomposition : Type := {
  specBenefit : number;
  specGross : number;
  specIHT : number;
  specBase : number
}.

Definition specDecomposition (input : Reverse.ReverseCalculationInput)
    (c p : number) : SpecDecomposition :=
  let months := if Reverse.hasDuodecimos input then ofZ 12 else ofZ 14 in
  let annualMeal :=
    Reverse.mealAllowanceDaily input * Reverse.mealAllowanceDays input
    * Reverse.mealAllowanceMonths input in
  let budget := c - annualMeal in
  let factor := (ofZ 1 - p) * (ofZ 1 + Reverse.tsu input / ofZ 100) + p in
  let distributable := budget / factor in
  let benefit := distributable * p / ofZ 12 in
  let grossShare := distributable * (ofZ 1 - p) in
  let monthlyGross := grossShare / months in
  let iht :=
    monthlyGross * Reverse.ihtPercentage input
    / (ofZ 100 + Reverse.ihtPercentage input) in
  {| specBenefit := benefit;
     specGross := monthlyGross;
     specIHT := iht;
     specBase := monthlyGross - iht |}.

(** The rational value of a finite number. *)
Definition toQ (n : number) : option Q :=
  match n with
  | Fin q => Some (this q)
  | _ => None
  end.

(** The numeric fields of the input that the decomposition reads are
    finite, and [tsu] is not -100, where [1 + tsu / 100] would be zero. *)
Definition finiteInput (input : Reverse.ReverseCalculationInput) : Prop :=
  isFinite (Reverse.mealAllowanceDaily input) = true
  /\ isFinite (Reverse.mealAllowanceDays input) = true
  /\ isFinite (Reverse.mealAllowanceMonths input) = true
  /\ isFinite (Reverse.ihtPercentage input) = true
  /\ isFinite (Reverse.tsu input) = true
  /\ Reverse.tsu input <> ofZ (-100).

(** [daily * days * months] *)
Definition annualMeal (input : Reverse.ReverseCalculationInput) : number :=
  Reverse.mealAllowanceDaily input * Reverse.mealAllowanceDays input
  * Reverse.mealAllowanceMonths input.

(** The midpoint of the [k]-th iteration of a search that has lowered the
    upper bound every time: 1000000 / 2^k. *)
Definition probe (k : nat) : number :=
  Fin (Q2Qc ((1000000 # 1) / inject_Z (2 ^ Z.of_nat k))).

(** At none of these midpoints is the max net salary of the first search
    (no benefits) below the target. *)
Definition neverBelowTarget (data : option IrsDataset)
    (input : Reverse.ReverseCalculationInput) : bool :=
  forallb
    (fun k =>
       match Reverse.calculateOutputs data input (probe k) (ofZ 0) with
       | Ok r =>
           negb (Reverse.totalNetMax r <? Reverse.targetNetSalary input)
       | Err _ => true
       end)
    (seq 1 50).

(** The input of the unit tests with another target, meal allowance and
    TSU. *)
Definition reverseInputWith (target daily days months tsuPct : number)
    : Reverse.ReverseCalculationInput :=
  {| Reverse.targetNetSalary := target;
     Reverse.location := continente;
     Reverse.maritalStatus := single;
     Reverse.dependents := ofZ 0;
     Reverse.hasDuodecimos := false;
     Reverse.mealAllowanceDaily := daily;
     Reverse.mealAllowanceDays := days;
     Reverse.mealAllowanceMonths := months;
     Reverse.ihtPercentage := num 25;
     Reverse.tsu := tsuPct;
     Reverse.ssRate := num 0.11 |}.

(** A meal allowance of 2^-60 a year, and a target of 0. *)
Definition tinyMealInput : Reverse.ReverseCalculationInput :=
  reverseInputWith (ofZ 0) (num (1 # 1152921504606846976)) (ofZ 1) (ofZ 1)
    (num 23.75).

(** The meal allowance of the unit tests, a target of 0 and a TSU of
    -100 %. *)
Definition noTsuInput : Reverse.ReverseCalculationInput :=
  reverseInputWith (ofZ 0) (num 10) (num 22) (num 11) (ofZ (-100)).

(** ** Vocabulary: further properties of the reverse solver *)

(** The search has probed the candidate [c], and the max net salary there
    was below the target. *)
Definition probedBelow (data : option IrsDataset)
    (input : Reverse.ReverseCalculationInput) (flexPct c : number) : Prop :=
  exists r, Reverse.calculateOutputs data input c flexPct = Ok r
            /\ (Reverse.totalNetMax r <? Reverse.targetNetSalary input) = true.

(** The search has probed [c], and the max net salary there was not below
    the target. *)
Definition probedNotBelow (data : option IrsDataset)
    (input : Reverse.ReverseCalculationInput) (flexPct c : number) : Prop :=
  exists r, Reverse.calculateOutputs data input c flexPct = Ok r
            /\ (Reverse.totalNetMax r <? Reverse.targetNetSalary input) = false.

(** What the bounds of a search keep: the lower bound is 0 or a candidate
    probed below the target, the upper bound is 1000000 or a candidate
    probed not below it. *)
Definition bracket (data : option IrsDataset)
    (input : Reverse.ReverseCalculationInput) (flexPct : number)
    (bounds : number * number) : Prop :=
  (fst bounds = ofZ 0 \/ probedBelow data input flexPct (fst bounds))
  /\ (snd bounds = ofZ 1000000
      \/ probedNotBelow data input flexPct (snd bounds)).

(** The midpoint of the [k]-th iteration of a search that has raised the
    lower bound every time: 1000000 * (1 - 1 / 2^k). *)
Definition probeUp (k : nat) : number :=
  Fin (Q2Qc ((1000000 # 1) - (1000000 # 1) / inject_Z (2 ^ Z.of_nat k))).

(** At every one of these midpoints the scenario is computed and its max
    net salary is below the target. *)
Definition alwaysBelowTarget (data : option IrsDataset)
    (input : Reverse.ReverseCalculationInput) (flexPct : number) : bool :=
  forallb
    (fun k =>
       match Reverse.calculateOutputs data input (probeUp k) flexPct with
       | Ok r => Reverse.totalNetMax r <? Reverse.targetNetSalary input
       | Err _ => false
       end)
    (seq 1 50).

(** The input of the unit tests with a target of 1000000 a month, which no
    annual cost up to 1000000 can pay. *)
Definition unreachableTargetInput : Reverse.ReverseCalculationInput :=
  reverseInputWith (ofZ 1000000) (num 10) (num 22) (num 11) (num 23.75).

(** The input of the unit tests, for Madeira. *)
Definition madeiraInput : Reverse.ReverseCalculationInput :=
  {| Reverse.targetNetSalary := num 1500;
     Reverse.location := madeira;
     Reverse.maritalStatus := single;
     Reverse.dependents := ofZ 0;
     Reverse.hasDuodecimos := false;
     Reverse.mealAllowanceDaily := num 10;
     Reverse.mealAllowanceDays := num 22;
     Reverse.mealAllowanceMonths := num 11;
     Reverse.ihtPercentage := num 25;
     Reverse.tsu := num 23.75;
     Reverse.ssRate := num 0.11 |}.

(** ** Vocabulary: the simulator component *)

(** The component as it is created: the initial values of its fields. *)
Definition defaultComponent : Simulator.SimulatorComponent :=
  {| Simulator.annualDailyMealAllowance := ofZ 0;
     Simulator.monthlyMealAllowance := ofZ 0;
     Simulator.hasDuodecimos := false;
     Simulator.IhtPercentage := ofZ 25;
     Simulator.annualCost := ofZ 30000;
     Simulator.targetNetSalary := ofZ 2000;
     Simulator.maritalStatus := Simulator.single;
     Simulator.location := continente;
     Simulator.dependents := ofZ 0 |}.

(** The share of benefits of a percentage, [percentage / 100], and the
    number of months the gross salary is paid over, as rationals. *)
Definition shareOf (percentage : Z) : Q := inject_Z percentage / (100 # 1).

Definition monthsOf (duodecimos : bool) : Q :=
  if duodecimos then 12 # 1 else 14 # 1.

(** The rate [tsu / 100] of the component, 0.2375, and its annual meal
    allowance 10.22 * 22 * 11 = 2473.24. *)
Definition tsuRate : Q := 2375 # 10000.

Definition annualMealAllowance : Q := 247324 # 100.

(** The iterations of a list of percentages in turn, the first error
    ending them. *)
Fixpoint proposalsAt (data : option IrsDataset)
    (c : Simulator.SimulatorComponent) (pcts : list Z)
    : result (list Simulator.ProposalData) :=
  match pcts with
  | [] => Ok []
  | pct :: rest =>
      proposal <- Simulator.proposalAt data c pct ;;
      proposals <- proposalsAt data c rest ;;
      Ok (proposal :: proposals)
  end.

(** What the annual cost computed again leaves out of the annual cost the
    solver searched over, per unit of benefits paid:
    [months / 12 - 1 / (1 + tsu / 100)], that is 19/99 with duodecimos and
    71/198 without. *)
Definition costCorrection (duodecimos : bool) : Q :=
  (monthsOf duodecimos / (12 # 1) - 1 / (1 + tsuRate))%Q.

(** A married taxpayer with one dependent, and a component whose annual
    cost is below the annual meal allowance. *)
Definition marriedOneDependent : Simulator.SimulatorComponent :=
  {| Simulator.annualDailyMealAllowance := ofZ 0;
     Simulator.monthlyMealAllowance := ofZ 0;
     Simulator.hasDuodecimos := false;
     Simulator.IhtPercentage := ofZ 25;
     Simulator.annualCost := ofZ 30000;
     Simulator.targetNetSalary := ofZ 2000;
     Simulator.maritalStatus := Simulator.married;
     Simulator.location := continente;
     Simulator.dependents := ofZ 1 |}.

Definition lowCostComponent : Simulator.SimulatorComponent :=
  {| Simulator.annualDailyMealAllowance :=
       Simulator.calculateAnnualMealAllowance;
     Simulator.monthlyMealAllowance := Simulator.calculateMonthlyMealAllowance;
     Simulator.hasDuodecimos := false;
     Simulator.IhtPercentage := ofZ 25;
     Simulator.annualCost := ofZ 2000;
     Simulator.targetNetSalary := ofZ 2000;
     Simulator.maritalStatus := Simulator.single;
     Simulator.location := continente;
     Simulator.dependents := ofZ 0 |}.

(** The component as [calculate] runs it, paying in 12 months. *)
Definition duodecimosComponent : Simulator.SimulatorComponent :=
  {| Simulator.annualDailyMealAllowance :=
       Simulator.calculateAnnualMealAllowance;
     Simulator.monthlyMealAllowance := Simulator.calculateMonthlyMealAllowance;
     Simulator.hasDuodecimos := true;
     Simulator.IhtPercentage := ofZ 25;
     Simulator.annualCost := ofZ 30000;
     Simulator.targetNetSalary := ofZ 2000;
     Simulator.maritalStatus := Simulator.single;
     Simulator.location := continente;
     Simulator.dependents := ofZ 0 |}.

(** The component as [calculate] runs it with an annual cost of 500000:
    the first candidate that every search of the solver probes. *)
Definition highCostComponent : Simulator.SimulatorComponent :=
  {| Simulator.annualDailyMealAllowance :=
       Simulator.calculateAnnualMealAllowance;
     Simulator.monthlyMealAllowance := Simulator.calculateMonthlyMealAllowance;
     Simulator.hasDuodecimos := false;
     Simulator.IhtPercentage := ofZ 25;
     Simulator.annualCost := ofZ 500000;
     Simulator.targetNetSalary := ofZ 2000;
     Simulator.maritalStatus := Simulator.single;
     Simulator.location := continente;
     Simulator.dependents := ofZ 0 |}.

(** ** Vocabulary: what a result depends on *)

(** The same input with another social-security rate, or another number
    of dependents. *)
Definition withRate (input : IrsInput) (s : option number) : IrsInput :=
  {| grossSalary := grossSalary input;
     maritalStatus := maritalStatus input;
     location := location input;
     dependents := dependents input;
     hasDisability := hasDisability input;
     socialSecurityRate := s |}.

Definition withDependents (input : IrsInput) (d : number) : IrsInput :=
  {| grossSalary := grossSalary input;
     maritalStatus := maritalStatus input;
     location := location input;
     dependents := d;
     hasDisability := hasDisability input;
     socialSecurityRate := socialSecurityRate input |}.

(** ** Vocabulary: the currency mask *)

(** The grouping in words: a space before every digit that has a multiple
    of three digits from itself to the end, the first digit apart. *)
Fixpoint groupFromRight (atStart : bool) (s : jsstring) : jsstring :=
  match s with
  | [] => []
  | c :: r =>
      (if negb atStart && Nat.eqb (List.length s mod 3) 0 then [32%N] else [])
      ++ c :: groupFromRight false r
  end.

(** * Properties *)

(** ** Rational arithmetic behind [number] *)

Section Rationals.

Lemma this_Q2Qc (q : Q) : this (Q2Qc q) == q.
Proof. apply Qred_correct. Qed.

Lemma this_add (a b : Qc) : this (a + b)%Qc == this a + this b.
Proof. apply Qred_correct. Qed.

Lemma this_mul (a b : Qc) : this (a * b)%Qc == this a * this b.
Proof. apply Qred_correct. Qed.

Lemma this_opp (a : Qc) : this (- a)%Qc == - this a.
Proof. apply Qred_correct. Qed.

Lemma this_sub (a b : Qc) : this (a - b)%Qc == this a - this b.
Proof. unfold Qcminus. rewrite this_add, this_opp. reflexivity. Qed.

Lemma this_inv (a : Qc) : this (/ a)%Qc == / this a.
Proof. apply Qred_correct. Qed.

Lemma this_div (a b : Qc) : this (a / b)%Qc == this a / this b.
Proof. unfold Qcdiv. rewrite this_mul, this_inv. reflexivity. Qed.

Lemma Qc_leb_le (a b : Qc) : Qc_leb a b = true <-> this a <= this b.
Proof. apply Qle_bool_iff. Qed.

Lemma Qc_leb_gt (a b : Qc) : Qc_leb a b = false <-> this b < this a.
Proof.
  unfold Qc_leb. split; intro H.
  - apply Qnot_le_lt. intro L. apply Qle_bool_iff in L. congruence.
  - destruct (Qle_bool a b) eqn:E; [|reflexivity].
    apply Qle_bool_iff in E. exfalso. exact (Qlt_not_le _ _ H E).
Qed.

Lemma Qc_ltb_lt (a b : Qc) : Qc_ltb a b = true <-> this a < this b.
Proof.
  unfold Qc_ltb. rewrite negb_true_iff. apply (Qc_leb_gt b a).
Qed.

Lemma Qc_ltb_ge (a b : Qc) : Qc_ltb a b = false <-> this b <= this a.
Proof.
  unfold Qc_ltb. rewrite negb_false_iff. apply (Qc_leb_le b a).
Qed.

Lemma Qc_eqb_eq (a b : Qc) : Qc_eqb a b = true <-> a = b.
Proof.
  unfold Qc_eqb. rewrite Qeq_bool_iff. split.
  - apply Qc_is_canon.
  - intros ->. reflexivity.
Qed.

Lemma Fin_eq (a b : Qc) : this a == this b -> Fin a = Fin b.
Proof. intro H. f_equal. apply Qc_is_canon. exact H. Qed.

End Rationals.

(** Rewrites the projections of rational operations into operations on
    [Q], where [lra] and [field] apply. *)
Ltac to_Q :=
  repeat (rewrite this_sub || rewrite this_div || rewrite this_add
          || rewrite this_mul || rewrite this_opp || rewrite this_inv
          || rewrite this_Q2Qc).

(** The constants of the source, as literals of [Q]. *)
Ltac q_consts :=
  change (inject_Z 0) with 0%Q in *;
  change (inject_Z 1) with 1%Q in *;
  change (inject_Z 2) with (2 # 1)%Q in *;
  change (inject_Z 12) with (12 # 1)%Q in *;
  change (inject_Z 14) with (14 # 1)%Q in *;
  change (inject_Z 100) with (100 # 1)%Q in *;
  change (inject_Z 1000000) with (1000000 # 1)%Q in *.

Ltac to_Q_in H :=
  repeat (rewrite this_sub in H || rewrite this_div in H
          || rewrite this_add in H || rewrite this_mul in H
          || rewrite this_opp in H || rewrite this_inv in H
          || rewrite this_Q2Qc in H).

(** * Binary64 arithmetic: rounding *)

(** ** Powers of two *)

Section Powers.

Local Open Scope Q_scope.

Lemma pow2_pos (e : Z) : 0 < B64.pow2 e.
Proof. apply Qpower_0_lt. reflexivity. Qed.

Lemma pow2_plus (a b : Z) : B64.pow2 (a + b) == B64.pow2 a * B64.pow2 b.
Proof. apply Qpower_plus. discriminate. Qed.

Lemma pow2_le (a b : Z) : (a <= b)%Z -> B64.pow2 a <= B64.pow2 b.
Proof. intro H. apply Qpower_le_compat_l; [exact H | discriminate]. Qed.

Lemma pow2_succ (a : Z) : B64.pow2 (a + 1) == (2 # 1) * B64.pow2 a.
Proof. rewrite pow2_plus. change (B64.pow2 1) with (2 # 1). ring. Qed.

Lemma pow2_Z (e : Z) : (0 <= e)%Z -> B64.pow2 e == inject_Z (2 ^ e).
Proof. intro H. unfold B64.pow2. rewrite Zpower_Qpower by exact H. reflexivity. Qed.

Lemma pow2_minus (a b : Z) : B64.pow2 (a - b) == B64.pow2 a / B64.pow2 b.
Proof. apply Qpower_minus. discriminate. Qed.

End Powers.

(** ** The nearest integer, ties to even *)

Section NearestInteger.

Local Open Scope Q_scope.

Lemma rne_cases (x : Q) :
  (B64.rne x = Qfloor x /\ x - inject_Z (Qfloor x) <= 1 # 2)
  \/ (B64.rne x = (Qfloor x + 1)%Z /\ 1 # 2 <= x - inject_Z (Qfloor x)).
Proof.
  unfold B64.rne.
  destruct (Qcompare_spec (x - inject_Z (Qfloor x)) (1 # 2)) as [C|C|C].
  - destruct (Z.even (Qfloor x)); [left | right];
      (split; [reflexivity | rewrite C; apply Qle_refl]).
  - left. split; [reflexivity | apply Qlt_le_weak, C].
  - right. split; [reflexivity | apply Qlt_le_weak, C].
Qed.

(** The nearest integer is within a half. *)
Lemma rne_error (x : Q) :
  x - (1 # 2) <= inject_Z (B64.rne x) /\ inject_Z (B64.rne x) <= x + (1 # 2).
Proof.
  pose proof (Qfloor_le x) as L. pose proof (Qlt_floor x) as U.
  rewrite inject_Z_plus in U. change (inject_Z 1) with 1 in U.
  destruct (rne_cases x) as [[-> H] | [-> H]].
  - set (f := inject_Z (Qfloor x)) in *. clearbody f. split; lra.
  - rewrite inject_Z_plus. change (inject_Z 1) with 1.
    set (f := inject_Z (Qfloor x)) in *. clearbody f. split; lra.
Qed.

Lemma rne_integer (z : Z) : B64.rne (inject_Z z) = z.
Proof.
  unfold B64.rne. rewrite Qfloor_Z.
  replace (inject_Z z - inject_Z z ?= 1 # 2) with Lt; [reflexivity|].
  symmetry. apply -> Qlt_alt. set (f := inject_Z z). clearbody f. lra.
Qed.

Lemma rne_monotone (x y : Q) : x <= y -> (B64.rne x <= B64.rne y)%Z.
Proof.
  intro H. pose proof (Qfloor_resp_le _ _ H) as F.
  destruct (Z.eq_dec (Qfloor x) (Qfloor y)) as [E|N].
  - unfold B64.rne. rewrite E.
    destruct (Qcompare_spec (x - inject_Z (Qfloor y)) (1 # 2)) as [Cx|Cx|Cx];
      destruct (Qcompare_spec (y - inject_Z (Qfloor y)) (1 # 2)) as [Cy|Cy|Cy];
      try destruct (Z.even (Qfloor y)); try lia;
      set (f := inject_Z (Qfloor y)) in *; clearbody f; lra.
  - destruct (rne_cases x) as [[-> _] | [-> _]],
             (rne_cases y) as [[-> _] | [-> _]]; lia.
Qed.

Lemma rne_below (x : Q) (n : Z) : x <= inject_Z n -> (B64.rne x <= n)%Z.
Proof. intro H. rewrite <- (rne_integer n). apply rne_monotone, H. Qed.

Lemma rne_above (x : Q) (n : Z) : inject_Z n <= x -> (n <= B64.rne x)%Z.
Proof. intro H. rewrite <- (rne_integer n) at 1. apply rne_monotone, H. Qed.

End NearestInteger.

(** ** The binade of a positive rational *)

Section Binades.

Local Open Scope Q_scope.

Lemma ilog2_spec (a : Q) :
  0 < a -> B64.pow2 (B64.ilog2 a) <= a /\ a < B64.pow2 (B64.ilog2 a + 1).
Proof.
  intro Ha. destruct a as [n d].
  assert (Hn : (0 < n)%Z) by (unfold Qlt in Ha; simpl in Ha; lia).
  destruct (Z.log2_spec n Hn) as [Ln Un].
  destruct (Z.log2_spec (Zpos d) (Pos2Z.is_pos d)) as [Ld Ud].
  pose proof (Z.log2_nonneg n) as Nn. pose proof (Z.log2_nonneg (Zpos d)) as Nd.
  unfold B64.ilog2. cbn [Qnum Qden].
  set (ln := Z.log2 n) in *. set (ld := Z.log2 (Zpos d)) in *.
  rewrite Zle_Qle in Ln, Ld. rewrite Zlt_Qlt in Un, Ud.
  rewrite <- pow2_Z in Ln, Ld by lia.
  rewrite <- pow2_Z in Un, Ud by lia.
  unfold Z.succ in Un, Ud. rewrite pow2_succ in Un, Ud.
  pose proof (pow2_pos ln) as Pn. pose proof (pow2_pos ld) as Pd.
  assert (Dpos : 0 < inject_Z (Zpos d)) by reflexivity.
  assert (E0 : B64.pow2 (ln - ld) == B64.pow2 ln / B64.pow2 ld)
    by apply pow2_minus.
  assert (Equot : n # d == inject_Z n / inject_Z (Zpos d))
    by apply Qmake_Qdiv.
  set (N := inject_Z n) in *. set (D := inject_Z (Zpos d)) in *.
  set (A := B64.pow2 ln) in *. set (B := B64.pow2 ld) in *.
  clearbody N D A B.
  assert (Up : N / D < (2 # 1) * (A / B)).
  { apply Qlt_shift_div_r; [exact Dpos|].
    setoid_replace ((2 # 1) * (A / B) * D) with (((2 # 1) * A) * (D / B))
      by (field; lra).
    assert (1 <= D / B) by (apply Qle_shift_div_l; lra).
    nra. }
  assert (Lo : (A / B) / (2 # 1) < N / D).
  { apply Qlt_shift_div_l; [exact Dpos|].
    setoid_replace (A / B / (2 # 1) * D) with (A * (D / ((2 # 1) * B)))
      by (field; lra).
    assert (D / ((2 # 1) * B) < 1) by (apply Qlt_shift_div_r; lra).
    nra. }
  destruct (Qle_bool (B64.pow2 (ln - ld)) (n # d)) eqn:T.
  - apply Qle_bool_iff in T. split; [exact T|].
    rewrite pow2_succ, E0, Equot. exact Up.
  - assert (T' : n # d < B64.pow2 (ln - ld)).
    { apply Qnot_le_lt. intro C. apply Qle_bool_iff in C. congruence. }
    replace (ln - ld - 1 + 1)%Z with (ln - ld)%Z by lia. split; [|exact T'].
    apply Qlt_le_weak.
    assert (E1 : B64.pow2 (ln - ld - 1) == B64.pow2 (ln - ld) / (2 # 1)).
    { rewrite pow2_minus. reflexivity. }
    rewrite E1, E0, Equot. exact Lo.
Qed.

Lemma ilog2_monotone (a b : Q) :
  0 < a -> a <= b -> (B64.ilog2 a <= B64.ilog2 b)%Z.
Proof.
  intros Ha Hab.
  destruct (ilog2_spec a Ha) as [La Ua].
  destruct (ilog2_spec b) as [Lb Ub]; [lra|].
  destruct (Z_le_gt_dec (B64.ilog2 a) (B64.ilog2 b)) as [C | C]; [exact C|].
  assert (B64.pow2 (B64.ilog2 b + 1) <= B64.pow2 (B64.ilog2 a))
    by (apply pow2_le; lia).
  lra.
Qed.

End Binades.

(** ** The nearest binary64 number of a positive rational *)

Section Nearest.

Local Open Scope Q_scope.

Lemma significand_below (a : Q) :
  0 < a -> a / B64.pow2 (B64.exponent a) < B64.pow2 53.
Proof.
  intro Ha. destruct (ilog2_spec a Ha) as [_ U].
  apply Qlt_shift_div_r; [apply pow2_pos|].
  rewrite <- pow2_plus.
  apply Qlt_le_trans with (1 := U). apply pow2_le. unfold B64.exponent. lia.
Qed.

Lemma significand_normal (a : Q) :
  0 < a -> B64.exponent a = (B64.ilog2 a - 52)%Z ->
  B64.pow2 52 <= a / B64.pow2 (B64.exponent a).
Proof.
  intros Ha E. destruct (ilog2_spec a Ha) as [L _].
  apply Qle_shift_div_l; [apply pow2_pos|].
  rewrite <- pow2_plus, E.
  replace (52 + (B64.ilog2 a - 52))%Z with (B64.ilog2 a) by lia. exact L.
Qed.

Lemma nearest_nonneg (a : Q) : 0 < a -> 0 <= B64.nearest a.
Proof.
  intro Ha. unfold B64.nearest. apply Qmult_le_0_compat.
  - change 0 with (inject_Z 0). rewrite <- Zle_Qle. apply rne_above.
    apply Qle_shift_div_l; [apply pow2_pos|]. change (inject_Z 0) with 0. lra.
  - apply Qlt_le_weak, pow2_pos.
Qed.

Lemma nearest_below_binade (a : Q) :
  0 < a -> B64.nearest a <= B64.pow2 (53 + B64.exponent a).
Proof.
  intro Ha. unfold B64.nearest. rewrite pow2_plus.
  apply Qmult_le_compat_r; [|apply Qlt_le_weak, pow2_pos].
  rewrite (pow2_Z 53) by lia. rewrite <- Zle_Qle. apply rne_below.
  rewrite <- pow2_Z by lia. apply Qlt_le_weak, significand_below, Ha.
Qed.

Lemma nearest_above_binade (a : Q) :
  0 < a -> B64.exponent a = (B64.ilog2 a - 52)%Z ->
  B64.pow2 (52 + B64.exponent a) <= B64.nearest a.
Proof.
  intros Ha E. unfold B64.nearest. rewrite pow2_plus.
  apply Qmult_le_compat_r; [|apply Qlt_le_weak, pow2_pos].
  rewrite (pow2_Z 52) by lia. rewrite <- Zle_Qle. apply rne_above.
  rewrite <- pow2_Z by lia. apply significand_normal; assumption.
Qed.

(** Rounding keeps the order. *)
Lemma nearest_monotone (a b : Q) :
  0 < a -> a <= b -> B64.nearest a <= B64.nearest b.
Proof.
  intros Ha Hab. assert (Hb : 0 < b) by lra.
  pose proof (ilog2_monotone a b Ha Hab) as M.
  destruct (Z.eq_dec (B64.exponent a) (B64.exponent b)) as [E | N].
  - unfold B64.nearest. rewrite E.
    apply Qmult_le_compat_r; [|apply Qlt_le_weak, pow2_pos].
    rewrite <- Zle_Qle. apply rne_monotone.
    apply Qmult_le_compat_r; [exact Hab|].
    apply Qlt_le_weak, Qinv_lt_0_compat, pow2_pos.
  - assert (S : (B64.exponent a < B64.exponent b)%Z)
      by (unfold B64.exponent in *; lia).
    assert (E : B64.exponent b = (B64.ilog2 b - 52)%Z)
      by (unfold B64.exponent in *; lia).
    apply Qle_trans with (1 := nearest_below_binade a Ha).
    apply Qle_trans with (2 := nearest_above_binade b Hb E).
    apply pow2_le. lia.
Qed.

(** The distance to the nearest binary64 number: half a unit in the last
    place. *)
Lemma nearest_half_ulp (a : Q) :
  a - B64.pow2 (B64.exponent a) / (2 # 1) <= B64.nearest a
  /\ B64.nearest a <= a + B64.pow2 (B64.exponent a) / (2 # 1).
Proof.
  unfold B64.nearest. set (s := B64.exponent a).
  pose proof (pow2_pos s) as P.
  destruct (rne_error (a / B64.pow2 s)) as [L U].
  assert (E : a == a / B64.pow2 s * B64.pow2 s) by (field; lra).
  set (k := inject_Z (B64.rne (a / B64.pow2 s))) in *. clearbody k.
  set (x := a / B64.pow2 s) in *. clearbody x.
  set (p := B64.pow2 s) in *. clearbody p.
  rewrite E. split.
  - setoid_replace (x * p - p / (2 # 1)) with ((x - (1 # 2)) * p) by (field; lra).
    apply Qmult_le_compat_r; lra.
  - setoid_replace (x * p + p / (2 # 1)) with ((x + (1 # 2)) * p) by (field; lra).
    apply Qmult_le_compat_r; lra.
Qed.

Lemma half_ulp_bound (a : Q) :
  0 < a ->
  B64.pow2 (B64.exponent a) / (2 # 1)
  <= a * B64.pow2 (-53) + B64.pow2 (-1075).
Proof.
  intro Ha. destruct (ilog2_spec a Ha) as [L _].
  pose proof (pow2_pos (-1075)) as P1. pose proof (pow2_pos (-53)) as P2.
  destruct (Z.max_spec (B64.ilog2 a - 52) (-1074)) as [[C E] | [C E]];
    unfold B64.exponent; rewrite E.
  - assert (E1 : B64.pow2 (-1074) / (2 # 1) == B64.pow2 (-1075)).
    { change (-1074)%Z with (-1075 + 1)%Z. rewrite pow2_succ. field. }
    rewrite E1.
    assert (0 <= a * B64.pow2 (-53)) by (apply Qmult_le_0_compat; lra). lra.
  - assert (E1 : B64.pow2 (B64.ilog2 a - 52) / (2 # 1)
                 == B64.pow2 (B64.ilog2 a) * B64.pow2 (-53)).
    { replace (B64.ilog2 a - 52)%Z with (B64.ilog2 a + (-53) + 1)%Z by lia.
      rewrite pow2_succ, pow2_plus. field. }
    rewrite E1.
    assert (B64.pow2 (B64.ilog2 a) * B64.pow2 (-53) <= a * B64.pow2 (-53))
      by (apply Qmult_le_compat_r; lra).
    lra.
Qed.

(** The relative error of rounding is at most 2^-53, or 2^-1075 among the
    subnormal numbers. *)
Lemma nearest_error (a : Q) :
  0 < a ->
  a - (a * B64.pow2 (-53) + B64.pow2 (-1075)) <= B64.nearest a
  /\ B64.nearest a <= a + (a * B64.pow2 (-53) + B64.pow2 (-1075)).
Proof.
  intro Ha. pose proof (half_ulp_bound a Ha). destruct (nearest_half_ulp a). lra.
Qed.

End Nearest.

(** ** [round64] on numbers *)

Section Round64.

Local Open Scope Q_scope.

Lemma round64_positive (q : Qc) :
  0 < this q ->
  B64.round64 (Fin q)
  = if Qle_bool (B64.pow2 1024) (B64.nearest q) then PosInf
    else num (B64.nearest q).
Proof.
  intro H. unfold B64.round64.
  rewrite (proj1 (Qgt_alt _ _) H). reflexivity.
Qed.

Lemma round64_negative (q : Qc) :
  this q < 0 ->
  B64.round64 (Fin q)
  = if Qle_bool (B64.pow2 1024) (B64.nearest (- q)) then NegInf
    else num (- B64.nearest (- q)).
Proof.
  intro H. unfold B64.round64.
  rewrite (proj1 (Qlt_alt _ _) H). reflexivity.
Qed.

Lemma round64_null (q : Qc) : this q == 0 -> B64.round64 (Fin q) = Fin q.
Proof.
  intro H. unfold B64.round64.
  rewrite (proj1 (Qeq_alt _ _) H). reflexivity.
Qed.

Lemma Qle_bool_gt (a b : Q) : Qle_bool a b = false <-> b < a.
Proof.
  split; intro H.
  - apply Qnot_le_lt. intro L. apply Qle_bool_iff in L. congruence.
  - destruct (Qle_bool a b) eqn:E; [|reflexivity].
    apply Qle_bool_iff in E. exfalso. exact (Qlt_not_le _ _ H E).
Qed.

(** A positive number rounds to +Infinity or to a number that is not
    negative; a negative one to -Infinity or to a number that is not
    positive. *)
Lemma round64_positive_cases (q : Qc) :
  0 < this q ->
  (B64.round64 (Fin q) = PosInf /\ B64.pow2 1024 <= B64.nearest q)
  \/ (exists q' : Qc, B64.round64 (Fin q) = Fin q'
                      /\ this q' == B64.nearest q
                      /\ B64.nearest q < B64.pow2 1024).
Proof.
  intro H. rewrite (round64_positive q H).
  destruct (Qle_bool _ _) eqn:T.
  - left. split; [reflexivity | apply Qle_bool_iff, T].
  - right. exists (Q2Qc (B64.nearest q)).
    split; [reflexivity|]. split; [apply this_Q2Qc | apply Qle_bool_gt, T].
Qed.

Lemma round64_negative_cases (q : Qc) :
  this q < 0 ->
  (B64.round64 (Fin q) = NegInf /\ B64.pow2 1024 <= B64.nearest (- q))
  \/ (exists q' : Qc, B64.round64 (Fin q) = Fin q'
                      /\ this q' == - B64.nearest (- q)
                      /\ B64.nearest (- q) < B64.pow2 1024).
Proof.
  intro H. rewrite (round64_negative q H).
  destruct (Qle_bool _ _) eqn:T.
  - left. split; [reflexivity | apply Qle_bool_iff, T].
  - right. exists (Q2Qc (- B64.nearest (- q))).
    split; [reflexivity|]. split; [apply this_Q2Qc | apply Qle_bool_gt, T].
Qed.

Lemma round64_not_NaN (q : Qc) : B64.round64 (Fin q) <> NaN.
Proof.
  unfold B64.round64.
  destruct (this q ?= 0); try discriminate;
    destruct (Qle_bool _ _); discriminate.
Qed.

(** Rounding keeps the order of two numbers. *)
Lemma round64_monotone (x y : number) :
  (x <=? y) = true -> (B64.round64 x <=? B64.round64 y) = true.
Proof.
  destruct x as [p| | |], y as [q| | |]; try discriminate; try reflexivity.
  - cbn [leb]. rewrite Qc_leb_le. intro H.
    destruct (Q_dec (this p) 0) as [[Np | Pp] | Zp],
             (Q_dec (this q) 0) as [[Nq | Pq] | Zq]; try lra.
    + pose proof (nearest_monotone (- this q) (- this p)) as M.
      destruct (round64_negative_cases p Np) as [[-> _] | (p' & -> & Ep & Bp)];
        [destruct (B64.round64 (Fin q)) eqn:E; try reflexivity;
         destruct (round64_negative_cases q Nq) as [[E' _] | (q' & E' & _)];
         congruence|].
      destruct (round64_negative_cases q Nq) as [[-> Bq] | (q' & -> & Eq & Bq)];
        [exfalso; assert (B64.nearest (- q) <= B64.nearest (- p))
           by (apply M; lra); lra|].
      cbn [leb]. apply Qc_leb_le. rewrite Ep, Eq.
      assert (B64.nearest (- q) <= B64.nearest (- p)) by (apply M; lra). lra.
    + pose proof (nearest_nonneg (this q) Pq) as Nn.
      pose proof (nearest_nonneg (- this p)) as Np'.
      destruct (round64_negative_cases p Np) as [[-> _] | (p' & -> & Ep & Bp)];
        destruct (round64_positive_cases q Pq) as [[-> _] | (q' & -> & Eq & Bq)];
        try reflexivity.
      cbn [leb]. apply Qc_leb_le. rewrite Ep, Eq.
      assert (0 <= B64.nearest (- p)) by (apply Np'; lra). lra.
    + rewrite (round64_null q Zq).
      pose proof (nearest_nonneg (- this p)) as Np'.
      destruct (round64_negative_cases p Np) as [[-> _] | (p' & -> & Ep & Bp)];
        [reflexivity|].
      cbn [leb]. apply Qc_leb_le. rewrite Ep.
      assert (0 <= B64.nearest (- p)) by (apply Np'; lra). lra.
    + pose proof (nearest_monotone (this p) (this q) Pp H) as M.
      destruct (round64_positive_cases q Pq) as [[-> _] | (q' & -> & Eq & Bq)];
        [destruct (B64.round64 (Fin p)) eqn:E; try reflexivity;
         destruct (round64_positive_cases p Pp) as [[E' _] | (p' & E' & _)];
         congruence|].
      destruct (round64_positive_cases p Pp) as [[-> Bp] | (p' & -> & Ep & Bp)];
        [exfalso; lra|].
      cbn [leb]. apply Qc_leb_le. rewrite Ep, Eq. exact M.
    + rewrite (round64_null p Zp).
      pose proof (nearest_nonneg (this q) Pq) as Nn.
      destruct (round64_positive_cases q Pq) as [[-> _] | (q' & -> & Eq & Bq)];
        [reflexivity|].
      cbn [leb]. apply Qc_leb_le. rewrite Eq. lra.
    + rewrite (round64_null p Zp), (round64_null q Zq).
      cbn [leb]. apply Qc_leb_le. exact H.
  - intros _. change (B64.round64 PosInf) with PosInf.
    pose proof (round64_not_NaN p).
    destruct (B64.round64 (Fin p)); try reflexivity. congruence.
  - intros _. change (B64.round64 NegInf) with NegInf.
    pose proof (round64_not_NaN q).
    destruct (B64.round64 (Fin q)); try reflexivity. congruence.
Qed.

(** The rounding error of a number of magnitude at most [B]. *)
Lemma round64_near (q : Qc) (B : Q) :
  - B <= this q -> this q <= B -> B <= B64.pow2 1023 ->
  exists q' : Qc,
    B64.round64 (Fin q) = Fin q'
    /\ this q - (B * B64.pow2 (-53) + B64.pow2 (-1075)) <= this q'
    /\ this q' <= this q + (B * B64.pow2 (-53) + B64.pow2 (-1075)).
Proof.
  intros L U Hb.
  pose proof (pow2_pos (-53)) as P53. pose proof (pow2_pos (-1075)) as P1075.
  assert (Big : B64.pow2 1023 * B64.pow2 (-53) + B64.pow2 (-1075)
                < B64.pow2 1023).
  { unfold B64.pow2. vm_compute. reflexivity. }
  assert (Dbl : B64.pow2 1024 == (2 # 1) * B64.pow2 1023)
    by (change 1024%Z with (1023 + 1)%Z; apply pow2_succ).
  assert (Bu : B * B64.pow2 (-53) <= B64.pow2 1023 * B64.pow2 (-53))
    by (apply Qmult_le_compat_r; lra).
  destruct (Q_dec (this q) 0) as [[Nq | Pq] | Zq].
  - destruct (nearest_error (- this q)) as [Lo Hi]; [lra|].
    assert (- this q * B64.pow2 (-53) <= B * B64.pow2 (-53))
      by (apply Qmult_le_compat_r; lra).
    destruct (round64_negative_cases q Nq) as [[_ Ov] | (q' & E & Eq' & _)];
      [exfalso; lra|].
    exists q'. split; [exact E|]. rewrite Eq'. split; lra.
  - destruct (nearest_error (this q) Pq) as [Lo Hi].
    assert (this q * B64.pow2 (-53) <= B * B64.pow2 (-53))
      by (apply Qmult_le_compat_r; lra).
    destruct (round64_positive_cases q Pq) as [[_ Ov] | (q' & E & Eq' & _)];
      [exfalso; lra|].
    exists q'. split; [exact E|]. rewrite Eq'. split; lra.
  - exists q. split; [apply round64_null, Zq|].
    assert (0 <= B * B64.pow2 (-53)) by (apply Qmult_le_0_compat; lra).
    split; lra.
Qed.

End Round64.

(** A simpler bound: the error is at most [B * 2^-52] when [B >= 1]. *)
Lemma round64_close (q : Qc) (B : Q) :
  (1 <= B)%Q -> (B <= 10 ^ 300)%Q -> (- B <= this q)%Q -> (this q <= B)%Q ->
  exists q' : Qc,
    B64.round64 (Fin q) = Fin q'
    /\ (this q - B * (1 # 4503599627370496) <= this q')%Q
    /\ (this q' <= this q + B * (1 # 4503599627370496))%Q.
Proof.
  intros H1 Hb L U.
  assert (Hp : (10 ^ 300 <= B64.pow2 1023)%Q) by (vm_compute; discriminate).
  destruct (round64_near q B L U) as (q' & E & Lo & Hi); [lra|].
  exists q'. split; [exact E|].
  assert (T : (B64.pow2 (-1075) <= 1 * B64.pow2 (-53))%Q)
    by (vm_compute; discriminate).
  assert (M : (1 * B64.pow2 (-53) <= B * B64.pow2 (-53))%Q)
    by (apply Qmult_le_compat_r; [exact H1 | vm_compute; discriminate]).
  assert (D : (B * (1 # 4503599627370496)
               == B * B64.pow2 (-53) + B * B64.pow2 (-53))%Q).
  { change (B64.pow2 (-53)) with (1 # 9007199254740992)%Q. ring. }
  split; lra.
Qed.

(** ** Order and the operations of [round2] *)

Section OrderOfOperations.

Lemma add_finite_monotone (x y : number) (c : Qc) :
  (x <=? y) = true -> (JS.add x (Fin c) <=? JS.add y (Fin c)) = true.
Proof.
  destruct x as [p| | |], y as [q| | |]; try discriminate; try reflexivity.
  cbn [JS.add leb]. rewrite !Qc_leb_le. to_Q. intro H. lra.
Qed.

Lemma mul_positive_monotone (x y : number) (c : Qc) :
  (0 < this c)%Q ->
  (x <=? y) = true -> (JS.mul x (Fin c) <=? JS.mul y (Fin c)) = true.
Proof.
  intro Hc.
  assert (S1 : signedInf c = PosInf).
  { assert (C : (c ?= 0)%Qc = Gt) by exact (proj1 (Qgt_alt (this c) 0) Hc).
    unfold signedInf. rewrite C. reflexivity. }
  assert (S2 : signedInf (- c) = NegInf).
  { assert (N : (this (- c)%Qc < 0)%Q) by (rewrite this_opp; lra).
    assert (C : (- c ?= 0)%Qc = Lt) by exact (proj1 (Qlt_alt _ 0) N).
    unfold signedInf. rewrite C. reflexivity. }
  destruct x as [p| | |], y as [q| | |]; try discriminate;
    cbn [JS.mul]; rewrite ?S1, ?S2; try reflexivity.
  cbn [leb]. rewrite !Qc_leb_le. to_Q. intro H.
  apply Qmult_le_compat_r; [exact H | apply Qlt_le_weak, Hc].
Qed.

Lemma div_positive_monotone (x y : number) (c : Qc) :
  (0 < this c)%Q ->
  (x <=? y) = true -> (JS.div x (Fin c) <=? JS.div y (Fin c)) = true.
Proof.
  intro Hc.
  assert (Z : Qc_eqb c 0 = false).
  { destruct (Qc_eqb c 0) eqn:E; [|reflexivity].
    apply Qc_eqb_eq in E. subst c. exfalso. revert Hc. apply Qlt_irrefl. }
  assert (N : Qc_ltb c 0 = false) by (apply Qc_ltb_ge, Qlt_le_weak, Hc).
  destruct x as [p| | |], y as [q| | |]; try discriminate;
    cbn [JS.div]; rewrite ?Z, ?N; try reflexivity.
  cbn [leb]. rewrite !Qc_leb_le. to_Q. intro H.
  apply Qmult_le_compat_r; [exact H|].
  apply Qlt_le_weak, Qinv_lt_0_compat, Hc.
Qed.

Lemma round_monotone (x y : number) :
  (x <=? y) = true -> (round x <=? round y) = true.
Proof.
  destruct x as [p| | |], y as [q| | |]; try discriminate; try reflexivity.
  cbn [leb round]. unfold ofZ. cbn [leb]. rewrite !Qc_leb_le. to_Q. intro H.
  rewrite <- Zle_Qle. apply Qfloor_resp_le. lra.
Qed.

Lemma max_zero_of_nonneg (r : number) :
  (ofZ 0 <=? r) = true -> max (ofZ 0) r = r.
Proof.
  destruct r as [q| | |]; try discriminate; try reflexivity.
  unfold ofZ. cbn [leb max ltb]. rewrite Qc_leb_le. intro H.
  destruct (Qc_ltb (Q2Qc (inject_Z 0)) q) eqn:L; [reflexivity|].
  apply Qc_ltb_ge in L. apply Fin_eq. lra.
Qed.

Lemma max_zero_of_nonpos (r : number) :
  (r <=? ofZ 0) = true -> max (ofZ 0) r = ofZ 0.
Proof.
  destruct r as [q| | |]; try discriminate; try reflexivity.
  unfold ofZ. cbn [leb max ltb]. rewrite Qc_leb_le. intro H.
  destruct (Qc_ltb (Q2Qc (inject_Z 0)) q) eqn:L; [|reflexivity].
  apply Qc_ltb_lt in L. exfalso. lra.
Qed.

End OrderOfOperations.


(** On these numbers the four operations of [B64] are those of the
    hardware. *)
Lemma round64_agrees_with_primitive_floats :
  forallb (fun l =>
    B64Check.agrees l PrimFloat.add B64.add
    && B64Check.agrees l PrimFloat.sub B64.sub
    && B64Check.agrees l PrimFloat.mul B64.mul
    && B64Check.agrees l PrimFloat.div B64.div)
    [B64Check.samples; B64Check.extremes] = true.
Proof. vm_compute. reflexivity. Qed.

(** ** Table selection *)

(** C3.  [pickTableId] is the mapping of the specification for every
    marital status, every number of dependents (NaN and the infinities
    included, where "dependents >= 1" is the comparison of the code) and
    both values of the disability flag, and its value is one of the seven
    pairwise distinct ids I to VII. *)
Theorem pickTableId_total (m : MaritalStatus) (d : number) (h : bool) :
  pickTableId m d h = specTableId m (ofZ 1 <=? d) h
  /\ In (pickTableId m d h) tableIds
  /\ NoDup tableIds.
Proof.
  split; [|split].
  - destruct h, m; simpl; destruct (ofZ 1 <=? d); reflexivity.
  - unfold pickTableId, tableIds.
    destruct h, m; destruct (ofZ 1 <=? d); simpl; tauto.
  - unfold tableIds.
    repeat (constructor; [simpl; intuition discriminate|]). constructor.
Qed.

(** ** Band selection *)

Section BandSelection.

Lemma find_FirstSuch {A} (p : A -> bool) (l : list A) (b : A) :
  find p l = Some b <-> FirstSuch (fun x => p x = true) l b.
Proof.
  induction l as [|y l IH]; simpl.
  - split; [discriminate|].
    intros (l1 & l2 & E & _). destruct l1; discriminate.
  - destruct (p y) eqn:Py.
    + split.
      * intros [= <-]. exists [], l. simpl. tauto.
      * intros (l1 & l2 & E & N & Pb).
        destruct l1 as [|z l1]; simpl in E; injection E as <- E.
        -- reflexivity.
        -- exfalso. apply (N y); simpl; auto.
    + rewrite IH. split.
      * intros (l1 & l2 & -> & N & Pb). exists (y :: l1), l2.
        repeat split; trivial.
        intros x [<-|Hx]; [congruence | auto].
      * intros (l1 & l2 & E & N & Pb).
        destruct l1 as [|z l1]; simpl in E; injection E as <- E.
        -- congruence.
        -- exists l1, l2. repeat split; trivial.
           intros x Hx. apply N. simpl; auto.
Qed.

Lemma find_None_iff {A} (p : A -> bool) (l : list A) :
  find p l = None <-> forall x, In x l -> p x = false.
Proof.
  split; [apply find_none|].
  induction l as [|y l IH]; simpl; intro H; [reflexivity|].
  rewrite (H y) by auto. apply IH. auto.
Qed.

Lemma insertBy_perm {A} (cmp : A -> A -> number) (x : A) (l : list A) :
  Permutation (x :: l) (insertBy cmp x l).
Proof.
  induction l as [|y l IH]; cbn [insertBy]; [reflexivity|].
  destruct (ofZ 0 <? cmp x y); [|reflexivity].
  rewrite perm_swap. constructor. exact IH.
Qed.

Lemma sortBy_perm {A} (cmp : A -> A -> number) (l : list A) :
  Permutation l (sortBy cmp l).
Proof.
  induction l as [|x l IH]; simpl; [constructor|].
  rewrite <- insertBy_perm. constructor. exact IH.
Qed.

Lemma leb_trans (x y z : number) :
  (x <=? y) = true -> (y <=? z) = true -> (x <=? z) = true.
Proof.
  destruct x as [a| | |], y as [b| | |], z as [c| | |]; simpl;
    try discriminate; try reflexivity.
  rewrite !Qc_leb_le. apply Qle_trans.
Qed.

Lemma finiteUpTo_key (b : Band) :
  finiteUpTo b -> upToKey b = PosInf \/ exists q, upToKey b = Fin q.
Proof.
  unfold finiteUpTo, upToKey. destruct (upTo b) as [[q| | |]|]; simpl;
    intro H; try discriminate; eauto.
Qed.

(** The comparator orders two bands by their keys. *)
Lemma compareUpTo_spec (a b : Band) :
  finiteUpTo a -> finiteUpTo b ->
  if ofZ 0 <? compareUpTo a b then upToLe b a else upToLe a b.
Proof.
  intros Ha Hb. unfold compareUpTo, upToLe. fold (upToKey a) (upToKey b).
  destruct (finiteUpTo_key a Ha) as [-> | [p ->]],
           (finiteUpTo_key b Hb) as [-> | [q ->]]; simpl; try reflexivity.
  destruct (Qc_ltb (Q2Qc (inject_Z 0)) (p + - q)) eqn:E.
  - apply Qc_ltb_lt in E. apply Qc_leb_le. to_Q_in E. q_consts. lra.
  - apply Qc_ltb_ge in E. apply Qc_leb_le. to_Q_in E. q_consts. lra.
Qed.

Lemma insertBy_sorted (x : Band) (l : list Band) :
  finiteUpTo x -> Forall finiteUpTo l ->
  StronglySorted upToLe l -> StronglySorted upToLe (insertBy compareUpTo x l).
Proof.
  intros Hx Hl S. induction S as [|y l S IH F]; cbn [insertBy].
  - repeat constructor.
  - inversion Hl as [|? ? Hy Hl']; subst.
    pose proof (compareUpTo_spec x y Hx Hy) as C.
    destruct (ofZ 0 <? compareUpTo x y).
    + constructor; [auto|].
      apply (Permutation_Forall (insertBy_perm compareUpTo x l)).
      constructor; assumption.
    + constructor; [constructor; assumption|].
      constructor; [exact C|].
      eapply Forall_impl; [|exact F].
      intros z Hz. unfold upToLe in *. eapply leb_trans; eassumption.
Qed.

Lemma sortBy_sorted (l : list Band) :
  Forall finiteUpTo l -> StronglySorted upToLe (sortBy compareUpTo l).
Proof.
  induction 1 as [|x l Hx Hl IH]; simpl; [constructor|].
  apply insertBy_sorted; trivial.
  apply (Permutation_Forall (sortBy_perm compareUpTo l)). exact Hl.
Qed.

Lemma bandCovers_spec (g : number) (b : Band) :
  finiteUpTo b -> (bandCovers g b = true <-> coversSpec g b).
Proof.
  unfold finiteUpTo, bandCovers, coversSpec.
  destruct (upTo b) as [[q| | |]|]; try discriminate; intros _.
  - split; [eauto|]. intros (u & [= ->] & H). exact H.
  - split; [discriminate|]. intros (u & [=] & _).
Qed.

Lemma FirstSuch_ext {A} (P Q : A -> Prop) (l : list A) (b : A) :
  (forall x, In x l -> (P x <-> Q x)) -> FirstSuch P l b -> FirstSuch Q l b.
Proof.
  intros E (l1 & l2 & -> & N & Pb). exists l1, l2. repeat split.
  - intros x Hx Qx. apply (N x Hx). apply E; [|exact Qx].
    apply in_or_app; auto.
  - apply E; [|exact Pb]. apply in_or_app; simpl; auto.
Qed.

End BandSelection.

Lemma hasOver_iff (b : Band) : hasOver b = true <-> over b <> None.
Proof. unfold hasOver. destruct (over b); split; congruence. Qed.

(** C4.  For a table whose [upTo] values are finite numbers: the bands are
    scanned in a permutation of the table that is ascending by [upTo], a
    band without [upTo] counting as +Infinity; [pickBand] returns the
    first band of that order whose [upTo] is a finite number >= the gross
    salary, or else the first band carrying [over]; it fails, with the
    no-matching-band error only, exactly when no band of the table covers
    the gross salary and none carries [over].  In whatever order a table
    lists the bands upTo 920, upTo 1042 and over 1042, gross salary 920
    selects the first of them, 921 the second and 1500 the open one. *)
Theorem pickBand_spec (bands : list Band) (g : number) :
  Forall finiteUpTo bands ->
  let sorted := sortBy compareUpTo bands in
  Permutation bands sorted
  /\ StronglySorted upToLe sorted
  /\ (forall b, pickBand bands g = Ok b <->
        FirstSuch (coversSpec g) sorted b
        \/ ((forall x, In x bands -> ~ coversSpec g x)
            /\ FirstSuch (fun x => over x <> None) sorted b))
  /\ (forall e, pickBand bands g = Err e <->
        e = NoMatchingBand
        /\ forall x, In x bands -> ~ coversSpec g x /\ over x = None)
  /\ (forall t, In t scenarioTables ->
        pickBand t (num 920) = Ok band920
        /\ pickBand t (num 921) = Ok band1042
        /\ pickBand t (num 1500) = Ok bandOver1042).
Proof.
  intros Hfin sorted.
  assert (P : Permutation bands sorted) by apply sortBy_perm.
  assert (Fs : Forall finiteUpTo sorted)
    by (apply (Permutation_Forall P); exact Hfin).
  assert (Cov : forall x, In x sorted ->
            (bandCovers g x = true <-> coversSpec g x)).
  { intros x Hx. apply bandCovers_spec.
    rewrite Forall_forall in Fs. auto. }
  assert (NoCov : (forall x, In x sorted -> bandCovers g x = false) <->
            forall x, In x bands -> ~ coversSpec g x).
  { split; intros H x Hx.
    - assert (Hs : In x sorted) by (apply (Permutation_in x P); exact Hx).
      rewrite <- (Cov x Hs). rewrite (H x Hs). discriminate.
    - destruct (bandCovers g x) eqn:E; [|reflexivity].
      apply (Cov x Hx) in E. exfalso.
      apply (H x); [|exact E].
      apply (Permutation_in x (Permutation_sym P)). exact Hx. }
  split; [exact P|]. split; [apply sortBy_sorted; exact Hfin|].
  split; [|split].
  - intro b. unfold pickBand. fold sorted.
    destruct (find (bandCovers g) sorted) as [c|] eqn:Fc.
    + split.
      * intros [= <-]. left. apply find_FirstSuch in Fc.
        eapply FirstSuch_ext; [|exact Fc]. exact Cov.
      * intros [F | [N _]].
        -- f_equal. apply (FirstSuch_ext _ (fun x => bandCovers g x = true)) in F.
           ++ apply find_FirstSuch in F. congruence.
           ++ intros x Hx. symmetry. apply Cov. exact Hx.
        -- pose proof (proj2 (find_None_iff _ _) (proj2 NoCov N)). congruence.
    + destruct (find hasOver sorted) as [o|] eqn:Fo.
      * split.
        -- intros [= <-]. right.
           split; [exact (proj1 NoCov (proj1 (find_None_iff _ _) Fc))|].
           apply find_FirstSuch in Fo.
           eapply FirstSuch_ext; [|exact Fo]. intros; apply hasOver_iff.
        -- intros [F | [_ F]].
           ++ exfalso. destruct F as (l1 & l2 & E & _ & Cb).
              rewrite find_None_iff in Fc.
              assert (Hb : In b sorted)
                by (rewrite E; apply in_or_app; simpl; auto).
              apply (Cov b Hb) in Cb. rewrite (Fc b Hb) in Cb. discriminate.
           ++ f_equal. apply (FirstSuch_ext _ (fun x => hasOver x = true)) in F.
              ** apply find_FirstSuch in F. congruence.
              ** intros; symmetry; apply hasOver_iff.
      * split; [discriminate|].
        rewrite find_None_iff in Fc, Fo.
        intros [F | [_ F]]; destruct F as (l1 & l2 & E & _ & Cb);
          assert (Hb : In b sorted)
            by (rewrite E; apply in_or_app; simpl; auto); exfalso.
        -- apply (Cov b Hb) in Cb. rewrite (Fc b Hb) in Cb. discriminate.
        -- apply hasOver_iff in Cb. rewrite (Fo b Hb) in Cb. discriminate.
  - intro e. unfold pickBand. fold sorted.
    destruct (find (bandCovers g) sorted) as [c|] eqn:Fc.
    + split; [discriminate|]. intros [_ N]. exfalso.
      assert (N' : find (bandCovers g) sorted = None)
        by (apply find_None_iff, (proj2 NoCov); intros x Hx; apply (N x Hx)).
      congruence.
    + destruct (find hasOver sorted) as [o|] eqn:Fo.
      * split; [discriminate|]. intros [_ N]. exfalso.
        apply find_some in Fo. destruct Fo as [Ho Oo].
        apply hasOver_iff in Oo. apply Oo.
        apply (N o). apply (Permutation_in o (Permutation_sym P)). exact Ho.
      * split.
        -- intros [= <-]. split; [reflexivity|]. intros x Hx.
           split; [exact (proj1 NoCov (proj1 (find_None_iff _ _) Fc) x Hx)|].
           rewrite find_None_iff in Fo.
           assert (Hs : In x sorted) by (apply (Permutation_in x P); exact Hx).
           specialize (Fo x Hs). unfold hasOver in Fo.
           destruct (over x); [discriminate | reflexivity].
        -- intros [-> _]. reflexivity.
  - intros t Ht. simpl in Ht.
    repeat (destruct Ht as [<- | Ht];
            [repeat split; vm_compute; reflexivity|]).
    contradiction.
Qed.

(** The table of the scenario has finite [upTo] values, and is scanned in
    a permutation of itself. *)
Lemma pickBand_spec_witness :
  Forall finiteUpTo [band920; band1042; bandOver1042]
  /\ Permutation [band920; band1042; bandOver1042]
       (sortBy compareUpTo [band920; band1042; bandOver1042]).
Proof.
  assert (F : Forall finiteUpTo [band920; band1042; bandOver1042])
    by (repeat constructor).
  split; [exact F|].
  exact (proj1 (pickBand_spec [band920; band1042; bandOver1042] (num 920) F)).
Defined.

(** ** Deduction resolution *)

Section DeductionResolution.

Lemma span_inv (p : N -> bool) (s a rest : jsstring) :
  span p s = (a, rest) ->
  s = a ++ rest /\ forallb p a = true /\ stopsAt p rest.
Proof.
  revert a rest. induction s as [|c s IH]; simpl; intros a rest.
  - intros [= <- <-]. simpl. auto.
  - destruct (p c) eqn:Pc.
    + destruct (span p s) as [a' b'] eqn:E. intros [= <- <-].
      destruct (IH a' b' eq_refl) as (-> & F & St).
      simpl. rewrite Pc, F. auto.
    + intros [= <- <-]. simpl. auto.
Qed.

Lemma span_app (p : N -> bool) (a rest : jsstring) :
  forallb p a = true -> stopsAt p rest -> span p (a ++ rest) = (a, rest).
Proof.
  intros F St. induction a as [|c a IH]; simpl in *.
  - destruct rest as [|x r]; simpl in *; [reflexivity|]. rewrite St. reflexivity.
  - apply andb_true_iff in F. destruct F as [Pc F].
    rewrite Pc, (IH F). reflexivity.
Qed.

Lemma numberRun_Some (s m rest : jsstring) :
  numberRun s = Some (m, rest) <->
  s = m ++ rest /\ isRun m /\ stopsAt isDigitOrDot rest.
Proof.
  unfold numberRun, isRun. split.
  - destruct (span isDigitOrDot s) as [a b] eqn:E.
    apply span_inv in E. destruct E as (-> & F & St).
    destruct a as [|c a]; [discriminate|]. intros [= <- <-].
    repeat split; trivial. discriminate.
  - intros (-> & [Ne F] & St). rewrite (span_app _ _ _ F St).
    destruct m; [contradiction | reflexivity].
Qed.

Lemma numberRun_app (m : jsstring) (c : N) (rest : jsstring) :
  isRun m -> isDigitOrDot c = false ->
  numberRun (m ++ c :: rest) = Some (m, c :: rest).
Proof.
  intros Rm Hc. apply numberRun_Some. repeat split; try apply Rm. exact Hc.
Qed.

Lemma expect_Some (c : N) (s s' : jsstring) :
  expect c s = Some s' <-> s = c :: s'.
Proof.
  unfold expect. destruct s as [|x r]; [split; discriminate|].
  destruct (N.eqb x c) eqn:E.
  - apply N.eqb_eq in E. subst x. split; intro H; injection H as ->; reflexivity.
  - apply N.eqb_neq in E. split; [discriminate|]. intros [= -> ->]. contradiction.
Qed.

Lemma expectR_Some (s s' : jsstring) :
  expectR s = Some s' <-> exists r, (r = 82 \/ r = 114)%N /\ s = r :: s'.
Proof.
  unfold expectR. destruct s as [|x t].
  - split; [discriminate|]. intros (r & _ & [=]).
  - destruct (N.eqb x 82 || N.eqb x 114) eqn:E.
    + apply orb_true_iff in E. rewrite !N.eqb_eq in E. split.
      * intros [= <-]. exists x. auto.
      * intros (r & _ & [= -> ->]). reflexivity.
    + apply orb_false_iff in E. rewrite !N.eqb_neq in E. split; [discriminate|].
      intros (r & Hr & [= -> ->]). tauto.
Qed.

Lemma matchFormula_iff (expr m1 m2 m3 : jsstring) :
  matchFormula expr = Some (m1, m2, m3) <-> MatchesFormula expr m1 m2 m3.
Proof.
  unfold matchFormula, MatchesFormula. split.
  - destruct (numberRun expr) as [[a s1]|] eqn:E1; [|discriminate].
    destruct (expect 42 s1) as [s2|] eqn:E2; [|discriminate].
    destruct (numberRun s2) as [[b s3]|] eqn:E3; [|discriminate].
    destruct (expect 42 s3) as [s4|] eqn:E4; [|discriminate].
    destruct (expect 40 s4) as [s5|] eqn:E5; [|discriminate].
    destruct (numberRun s5) as [[c s6]|] eqn:E6; [|discriminate].
    destruct (expect 45 s6) as [s7|] eqn:E7; [|discriminate].
    destruct (expectR s7) as [s8|] eqn:E8; [|discriminate].
    destruct (expect 41 s8) as [[|? ?]|] eqn:E9; try discriminate.
    intros [= <- <- <-].
    apply numberRun_Some in E1, E3, E6. apply expect_Some in E2, E4, E5, E7, E9.
    apply expectR_Some in E8. destruct E8 as (r & Hr & ->).
    destruct E1 as (-> & R1 & _), E3 as (E3 & R2 & _), E6 as (E6 & R3 & _).
    subst. repeat split; try apply R1; try apply R2; try apply R3.
    exists r. split; [exact Hr | reflexivity].
  - intros (R1 & R2 & R3 & r & Hr & ->).
    rewrite (numberRun_app m1 42 _ R1 eq_refl). cbn [expect N.eqb Pos.eqb].
    rewrite (numberRun_app m2 42 _ R2 eq_refl). cbn [expect N.eqb Pos.eqb].
    rewrite (numberRun_app m3 45 _ R3 eq_refl). cbn [expect N.eqb Pos.eqb].
    destruct Hr as [-> | ->]; reflexivity.
Qed.

Lemma matchFormula_None (expr : jsstring) :
  matchFormula expr = None <->
  ~ exists m1 m2 m3, MatchesFormula expr m1 m2 m3.
Proof.
  split.
  - intros E (m1 & m2 & m3 & M). apply matchFormula_iff in M. congruence.
  - intro N. destruct (matchFormula expr) as [[[m1 m2] m3]|] eqn:E; [|reflexivity].
    exfalso. apply N. exists m1, m2, m3. apply matchFormula_iff. exact E.
Qed.

Lemma Number_DecimalLiteral (m : jsstring) (v : Qc) :
  DecimalLiteral m v -> Number m = Fin v.
Proof.
  intros [ip Ne D | ip fp Di Df Ne]; unfold Number.
  - rewrite <- (app_nil_r ip) at 1. rewrite (span_app isDigit ip [] D I).
    destruct ip; [contradiction | reflexivity].
  - rewrite (span_app isDigit ip (46%N :: fp) Di eq_refl).
    rewrite N.eqb_refl, Df. cbn [andb].
    replace (Nat.eqb (List.length ip + List.length fp) 0) with false;
      [reflexivity|].
    symmetry. apply Nat.eqb_neq. rewrite <- length_app.
    destruct (ip ++ fp); [contradiction | discriminate].
Qed.

Lemma isDigit_isDigitOrDot (m : jsstring) :
  forallb isDigit m = true -> forallb isDigitOrDot m = true.
Proof.
  induction m as [|c m IH]; [reflexivity|]. cbn [forallb].
  rewrite !andb_true_iff. intros [C M]. unfold isDigitOrDot.
  rewrite C. auto.
Qed.

Lemma DecimalLiteral_isRun (m : jsstring) (v : Qc) :
  DecimalLiteral m v -> isRun m.
Proof.
  intros [ip Ne D | ip fp Di Df Ne]; split.
  - exact Ne.
  - apply isDigit_isDigitOrDot. exact D.
  - destruct ip; discriminate.
  - rewrite forallb_app. cbn [forallb].
    rewrite (isDigit_isDigitOrDot ip Di), (isDigit_isDigitOrDot fp Df).
    reflexivity.
Qed.

(** The third outcome of a formula: the pattern matches, but a group such
    as [1..2] is not a numeric literal. *)
Lemma resolveDeduction_invalid_numbers (e m1 m2 m3 : jsstring) (R : number) :
  MatchesFormula (removeWhitespace e) m1 m2 m3 ->
  forallb isFinite [Number m1; Number m2; Number m3] = false ->
  resolveDeduction (DFormula e) R = Err (InvalidFormulaNumbers e).
Proof.
  intros M F. apply matchFormula_iff in M. unfold resolveDeduction.
  rewrite M, F. reflexivity.
Qed.

End DeductionResolution.

(** ** Every outcome of a deduction formula *)

Section FormulaOutcomes.

(** [Number] accepts a string only if it is a decimal literal. *)
Lemma Number_finite (m : jsstring) :
  isFinite (Number m) = true -> exists v, DecimalLiteral m v.
Proof.
  unfold Number. destruct (span isDigit m) as [ip rest] eqn:S.
  destruct (span_inv _ _ _ _ S) as (-> & Di & _).
  destruct rest as [|c fp].
  - destruct ip as [|d ip]; [discriminate|]. intros _.
    rewrite app_nil_r. eexists. apply DecInteger; [discriminate | exact Di].
  - destruct (N.eqb c 46) eqn:Ec; [|discriminate].
    destruct (forallb isDigit fp) eqn:Df; [|discriminate].
    destruct (Nat.eqb (List.length ip + List.length fp) 0) eqn:El;
      [discriminate|].
    intros _. apply N.eqb_eq in Ec. subst c.
    eexists. apply DecFraction; trivial.
    apply Nat.eqb_neq in El. rewrite <- length_app in El.
    intro H. rewrite H in El. apply El. reflexivity.
Qed.

Lemma Number_finite_iff (m : jsstring) :
  isFinite (Number m) = true <-> exists v, DecimalLiteral m v.
Proof.
  split; [apply Number_finite|].
  intros [v D]. rewrite (Number_DecimalLiteral m v D). reflexivity.
Qed.

Lemma MatchesFormula_unique (expr a b c a' b' c' : jsstring) :
  MatchesFormula expr a b c -> MatchesFormula expr a' b' c' ->
  a = a' /\ b = b' /\ c = c'.
Proof.
  intros M M'. apply matchFormula_iff in M, M'. rewrite M in M'.
  injection M' as <- <- <-. auto.
Qed.

End FormulaOutcomes.

(** ** Deduction resolution on binary64 numbers *)

Section FormulaOutcomes64.

Lemma round64_finite (x : number) :
  isFinite (B64.round64 x) = true -> isFinite x = true.
Proof. destruct x; trivial. Qed.

(** [Number] gives a finite number exactly on the decimal literals whose
    binary64 value is finite. *)
Lemma Number64_finite_iff (m : jsstring) :
  isFinite (Irs64.Number m) = true
  <-> FiniteLiteral m (Irs64.Number m).
Proof.
  unfold Irs64.Number. split.
  - intro F. destruct (Number_finite m (round64_finite _ F)) as [v D].
    exists v. rewrite (Number_DecimalLiteral m v D) in *. auto.
  - intros (v & _ & _ & F). exact F.
Qed.

Lemma FiniteLiteral_Number (m : jsstring) (a : number) :
  FiniteLiteral m a -> Irs64.Number m = a /\ isFinite a = true.
Proof.
  intros (v & D & -> & F). unfold Irs64.Number.
  rewrite (Number_DecimalLiteral m v D). auto.
Qed.

Lemma FiniteLiteral_isRun (m : jsstring) (a : number) :
  FiniteLiteral m a -> isRun m.
Proof. intros (v & D & _). exact (DecimalLiteral_isRun m v D). Qed.

Lemma resolveDeduction64_match (e m1 m2 m3 : jsstring) (R : number) :
  MatchesFormula (removeWhitespace e) m1 m2 m3 ->
  Irs64.resolveDeduction (DFormula e) R
  = if forallb isFinite [Irs64.Number m1; Irs64.Number m2; Irs64.Number m3]
    then Ok (Irs64.Number m1 *! Irs64.Number m2 *! (Irs64.Number m3 -! R))
    else Err (InvalidFormulaNumbers e).
Proof.
  intro M. apply matchFormula_iff in M. unfold Irs64.resolveDeduction.
  rewrite M. destruct (forallb _ _); reflexivity.
Qed.

Lemma all_finite_literals (m1 m2 m3 : jsstring) :
  forallb isFinite [Irs64.Number m1; Irs64.Number m2; Irs64.Number m3] = true
  <-> exists a b c,
        FiniteLiteral m1 a /\ FiniteLiteral m2 b /\ FiniteLiteral m3 c.
Proof.
  cbn [forallb]. rewrite !andb_true_iff. split.
  - intros (F1 & F2 & F3 & _).
    exists (Irs64.Number m1), (Irs64.Number m2), (Irs64.Number m3).
    rewrite <- !Number64_finite_iff. auto.
  - intros (a & b & c & La & Lb & Lc).
    apply FiniteLiteral_Number in La, Lb, Lc.
    destruct La as [-> Fa], Lb as [-> Fb], Lc as [-> Fc]. auto.
Qed.

End FormulaOutcomes64.

(** C6.  On binary64 numbers.  A literal deduction is returned unchanged.
    A formula whose expression, white space removed, is [a*b*(c-R)] with
    [a], [b], [c] decimal literals of finite binary64 values resolves to
    [a * b * (c - R)], each operation rounded.  When the pattern is matched
    by runs of digits and dots that are not all such literals (a run like
    [1..2], or a literal that overflows), resolution fails with the
    invalid-numbers error; when the pattern is not matched, as for
    [2 * R], with the unsupported-formula error.
    [0.125 * 2.60 * (1273.85 - R)] at R = 1000 gives
    0.125 * 2.60 * (1273.85 - 1000) in binary64, which is within 10^-12 of
    0.125 * 2.60 * 273.85 = 89.00125 and is not the binary64 product
    0.125 * 2.60 * 273.85. *)
Theorem resolveDeduction_spec :
  (forall n R, Irs64.resolveDeduction (DNumber n) R = Ok n)
  /\ (forall e m1 m2 m3 a b c r R,
        FiniteLiteral m1 a -> FiniteLiteral m2 b -> FiniteLiteral m3 c ->
        (r = 82 \/ r = 114)%N ->
        removeWhitespace e
        = m1 ++ 42%N :: m2 ++ 42%N :: 40%N :: m3 ++ [45; r; 41]%N ->
        Irs64.resolveDeduction (DFormula e) R = Ok (a *! b *! (c -! R)))
  /\ (forall e m1 m2 m3 R,
        MatchesFormula (removeWhitespace e) m1 m2 m3 ->
        ~ (exists a b c,
             FiniteLiteral m1 a /\ FiniteLiteral m2 b /\ FiniteLiteral m3 c) ->
        Irs64.resolveDeduction (DFormula e) R = Err (InvalidFormulaNumbers e))
  /\ (forall e R,
        ~ (exists m1 m2 m3, MatchesFormula (removeWhitespace e) m1 m2 m3) ->
        Irs64.resolveDeduction (DFormula e) R = Err (UnsupportedFormula e))
  /\ (exists v : Qc,
        Irs64.resolveDeduction
          (DFormula (utf16 "0.125 * 2.60 * (1273.85 - R)")) (ofZ 1000)
        = Ok (Fin v)
        /\ Fin v = B64.lit 0.125 *! B64.lit 2.60 *! (B64.lit 1273.85 -! ofZ 1000)
        /\ (0.125 * 2.60 * 273.85 - (1 # 10 ^ 12) <= this v)%Q
        /\ (this v <= 0.125 * 2.60 * 273.85 + (1 # 10 ^ 12))%Q
        /\ Fin v <> B64.lit 0.125 *! B64.lit 2.60 *! B64.lit 273.85)
  /\ (forall R, Irs64.resolveDeduction (DFormula (utf16 "2 * R")) R
                = Err (UnsupportedFormula (utf16 "2 * R"))).
Proof.
  split; [reflexivity|]. split; [|split; [|split; [|split]]].
  - intros e m1 m2 m3 a b c r R La Lb Lc Hr E.
    assert (M : MatchesFormula (removeWhitespace e) m1 m2 m3).
    { repeat split; try (eapply FiniteLiteral_isRun; eassumption).
      all: try (eapply FiniteLiteral_isRun; eassumption).
      exists r. split; assumption. }
    rewrite (resolveDeduction64_match e m1 m2 m3 R M).
    apply FiniteLiteral_Number in La, Lb, Lc.
    destruct La as [-> Fa], Lb as [-> Fb], Lc as [-> Fc].
    cbn [forallb]. rewrite Fa, Fb, Fc. reflexivity.
  - intros e m1 m2 m3 R M N.
    rewrite (resolveDeduction64_match e m1 m2 m3 R M).
    destruct (forallb _ _) eqn:F; [|reflexivity].
    exfalso. apply N, all_finite_literals, F.
  - intros e R N. apply matchFormula_None in N.
    unfold Irs64.resolveDeduction. rewrite N. reflexivity.
  - eexists. split; [vm_compute; reflexivity|].
    split; [vm_compute; apply Fin_eq; reflexivity|].
    cbn [this Q2Qc]. repeat split; vm_compute; discriminate.
  - intro R. reflexivity.
Qed.

(** The groups of [0.125 * 2.60 * (1273.85 - R)] are decimal literals of
    finite binary64 values. *)
Lemma resolveDeduction_spec_witness :
  FiniteLiteral (utf16 "0.125") (B64.lit 0.125)
  /\ FiniteLiteral (utf16 "2.60") (B64.lit 2.60)
  /\ FiniteLiteral (utf16 "1273.85") (B64.lit 1273.85)
  /\ Irs64.resolveDeduction (DFormula (utf16 "0.125 * 2.60 * (1273.85 - R)"))
       (ofZ 1000)
     = Ok (B64.lit 0.125 *! B64.lit 2.60 *! (B64.lit 1273.85 -! ofZ 1000)).
Proof.
  assert (La : FiniteLiteral (utf16 "0.125") (B64.lit 0.125)).
  { eexists. split; [exact (DecFraction (utf16 "0") (utf16 "125") eq_refl
                              eq_refl ltac:(discriminate))|].
    split; reflexivity. }
  assert (Lb : FiniteLiteral (utf16 "2.60") (B64.lit 2.60)).
  { eexists. split; [exact (DecFraction (utf16 "2") (utf16 "60") eq_refl
                              eq_refl ltac:(discriminate))|].
    split; reflexivity. }
  assert (Lc : FiniteLiteral (utf16 "1273.85") (B64.lit 1273.85)).
  { eexists. split; [exact (DecFraction (utf16 "1273") (utf16 "85") eq_refl
                              eq_refl ltac:(discriminate))|].
    split; reflexivity. }
  split; [exact La|]. split; [exact Lb|]. split; [exact Lc|].
  apply (proj1 (proj2 resolveDeduction_spec) _ _ _ _ _ _ _ 82%N (ofZ 1000)
           La Lb Lc (or_introl eq_refl)).
  reflexivity.
Defined.

(** Outside the grammar of the specification, and yet not the
    unsupported-formula error: the first group of [1..2*3*(4-R)] is a run
    of digits and dots, so the pattern matches, and [Number] makes NaN of
    it. *)
Lemma resolveDeduction_not_unsupported :
  let e := utf16 "1..2*3*(4-R)" in
  ~ SpecFormula e
  /\ forall R,
       Irs64.resolveDeduction (DFormula e) R = Err (InvalidFormulaNumbers e)
       /\ Irs64.resolveDeduction (DFormula e) R <> Err (UnsupportedFormula e).
Proof.
  intro e. split.
  - intros (a & b & c & va & vb & vc & r & Da & Db & Dc & Hr & E).
    assert (M : MatchesFormula (removeWhitespace e) a b c).
    { repeat split; try (eapply DecimalLiteral_isRun; eassumption).
      all: try (eapply DecimalLiteral_isRun; eassumption).
      exists r. split; assumption. }
    apply matchFormula_iff in M. vm_compute in M. injection M as <- _ _.
    apply Number_DecimalLiteral in Da. vm_compute in Da. discriminate.
  - intro R. split; [reflexivity | discriminate].
Qed.


(** ** Rounding to cents *)

Section Rounding.

Lemma num_cents (z : Z) :
  Fin (Q2Qc (inject_Z z) / Q2Qc (inject_Z 100))%Qc = num (z # 100).
Proof.
  apply Fin_eq. to_Q. q_consts.
  unfold Qdiv, Qmult, Qinv, inject_Z, Qeq. simpl. ring.
Qed.

Lemma round2_Fin (q : Qc) : round2 (Fin q) = num (cents q # 100).
Proof.
  rewrite <- num_cents.
  cbv [round2 EPSILON num ofZ add mul round div].
  replace (Qc_eqb (Q2Qc (inject_Z 100)) (Q2Qc 0)) with false
    by (vm_compute; reflexivity).
  reflexivity.
Qed.

Lemma cents_mono (p q : Qc) : this p <= this q -> (cents p <= cents q)%Z.
Proof.
  intro H. unfold cents. apply Qfloor_resp_le. to_Q. q_consts. lra.
Qed.

(** [round2] is the multiple of 0.01 nearest to [q + 2^-52], halves going
    up. *)
Lemma cents_bounds (q : Qc) :
  this q + (1 # 4503599627370496) - (1 # 200) < cents q # 100
  /\ cents q # 100 <= this q + (1 # 4503599627370496) + (1 # 200).
Proof.
  unfold cents.
  set (x := (this ((q + Q2Qc (1 # 4503599627370496))
                    * Q2Qc (inject_Z 100))%Qc + (1 # 2))%Q).
  pose proof (Qfloor_le x) as L. pose proof (Qlt_floor x) as U.
  rewrite inject_Z_plus in U.
  assert (E : Qfloor x # 100 == inject_Z (Qfloor x) / (100 # 1)).
  { unfold Qdiv, Qmult, Qinv, inject_Z, Qeq. simpl. ring. }
  rewrite E. generalize dependent (Qfloor x). intros z L U _.
  subst x. to_Q_in L. to_Q_in U. q_consts.
  split.
  - apply Qlt_shift_div_l; lra.
  - apply Qle_shift_div_r; lra.
Qed.

Lemma max_Fin (a b : Qc) : max (Fin a) (Fin b) = if Qc_ltb a b then Fin b else Fin a.
Proof. reflexivity. Qed.

Lemma cents_zero : cents (Q2Qc (inject_Z 0)) = 0%Z.
Proof. vm_compute. reflexivity. Qed.

Lemma num_cents_pos (z : Z) :
  Qc_ltb (Q2Qc (inject_Z 0)) (Q2Qc (z # 100)) = true <-> (0 < z)%Z.
Proof.
  rewrite Qc_ltb_lt. to_Q. q_consts. unfold Qlt. simpl. lia.
Qed.

(** Flooring at zero commutes with rounding to cents, on every number. *)
Lemma round2_max_zero (x : number) :
  round2 (max (ofZ 0) x) = max (ofZ 0) (round2 x).
Proof.
  destruct x as [q| | |]; try reflexivity.
  - unfold ofZ at 1. rewrite max_Fin. rewrite (round2_Fin q).
    unfold ofZ, num. rewrite max_Fin.
    destruct (Qc_ltb (Q2Qc (inject_Z 0)) q) eqn:Pq.
    + rewrite round2_Fin. unfold num.
      destruct (Qc_ltb (Q2Qc (inject_Z 0)) (Q2Qc (cents q # 100))) eqn:Pc;
        [reflexivity|].
      apply Qc_ltb_lt in Pq.
      assert (0 <= cents q)%Z.
      { rewrite <- cents_zero. apply cents_mono. lra. }
      assert (~ (0 < cents q)%Z) by (rewrite <- num_cents_pos; congruence).
      replace (cents q) with 0%Z by lia. apply Fin_eq. reflexivity.
    + rewrite round2_Fin, cents_zero. unfold num.
      apply Qc_ltb_ge in Pq.
      assert (cents q <= 0)%Z.
      { rewrite <- cents_zero. apply cents_mono. exact Pq. }
      destruct (Qc_ltb (Q2Qc (inject_Z 0)) (Q2Qc (cents q # 100))) eqn:Pc.
      * apply num_cents_pos in Pc. lia.
      * apply Fin_eq. reflexivity.
  - change (max (ofZ 0) NegInf) with (ofZ 0).
    unfold ofZ. rewrite round2_Fin, cents_zero. apply Fin_eq. reflexivity.
Qed.

(** [Math.max(0, x)] is never below zero. *)
Lemma max_zero_not_negative (x : number) : (max (ofZ 0) x <? ofZ 0) = false.
Proof.
  destruct x as [q| | |]; try reflexivity.
  unfold ofZ. rewrite max_Fin.
  destruct (Qc_ltb (Q2Qc (inject_Z 0)) q) eqn:Pq; cbn [ltb].
  - apply Qc_ltb_lt in Pq. apply Qc_ltb_ge. lra.
  - apply Qc_ltb_ge. lra.
Qed.

End Rounding.

(** ** [round2] on binary64 numbers *)

Section RoundingToCents64.

Lemma round2_64_monotone (x y : number) :
  (x <=? y) = true -> (Irs64.round2 x <=? Irs64.round2 y) = true.
Proof.
  intro H. unfold Irs64.round2, B64.div, B64.mul, B64.add, EPSILON, ofZ, num.
  apply round64_monotone.
  apply div_positive_monotone; [reflexivity|].
  apply round_monotone, round64_monotone.
  apply mul_positive_monotone; [reflexivity|].
  apply round64_monotone, add_finite_monotone, H.
Qed.

Lemma round2_64_zero : Irs64.round2 (ofZ 0) = ofZ 0.
Proof. vm_compute. apply Fin_eq. reflexivity. Qed.

(** Flooring at zero commutes with rounding to cents, on every number. *)
Lemma round2_64_max_zero (x : number) :
  Irs64.round2 (max (ofZ 0) x) = max (ofZ 0) (Irs64.round2 x).
Proof.
  destruct x as [q| | |]; try reflexivity.
  - destruct (Qc_ltb (Q2Qc (inject_Z 0)) q) eqn:L.
    + assert (H : (ofZ 0 <=? Fin q) = true).
      { apply Qc_ltb_lt in L. cbn [leb ofZ]. apply Qc_leb_le. lra. }
      rewrite (max_zero_of_nonneg _ H).
      apply round2_64_monotone in H. rewrite round2_64_zero in H.
      symmetry. apply max_zero_of_nonneg, H.
    + assert (H : (Fin q <=? ofZ 0) = true).
      { apply Qc_ltb_ge in L. cbn [leb ofZ]. apply Qc_leb_le, L. }
      rewrite (max_zero_of_nonpos _ H).
      apply round2_64_monotone in H. rewrite round2_64_zero in H.
      rewrite round2_64_zero. symmetry. apply max_zero_of_nonpos, H.
  - change (max (ofZ 0) NegInf) with (ofZ 0). rewrite round2_64_zero.
    reflexivity.
Qed.

End RoundingToCents64.

Section CentsOfBinary64.

Lemma add_Fin64 (a b : Qc) : Fin a +! Fin b = B64.round64 (Fin (a + b)).
Proof. reflexivity. Qed.

Lemma mul_Fin64 (a b : Qc) : Fin a *! Fin b = B64.round64 (Fin (a * b)).
Proof. reflexivity. Qed.

Lemma div_hundred64 (k : Z) : ofZ k /! ofZ 100 = B64.lit (k # 100).
Proof.
  unfold B64.div, B64.lit, ofZ. cbn [JS.div].
  replace (Qc_eqb (Q2Qc (inject_Z 100)) 0) with false
    by (vm_compute; reflexivity).
  rewrite num_cents. reflexivity.
Qed.

(** [round2] of a number of magnitude at most 2 000 000 000: the binary64
    number nearest to a whole number of cents [k / 100], where [k] is
    within 0.501 of a hundred times the number. *)
Lemma round2_64_value (q : Qc) :
  (- (2000000000 # 1) <= this q)%Q -> (this q <= 2000000000 # 1)%Q ->
  exists (k : Z) (w : Qc),
    Irs64.round2 (Fin q) = Fin w
    /\ Fin w = B64.lit (k # 100)
    /\ ((100 # 1) * this q - (501 # 1000) <= inject_Z k)%Q
    /\ (inject_Z k <= (100 # 1) * this q + (501 # 1000))%Q
    /\ (inject_Z k * (1 # 100) - (1 # 1000000) <= this w)%Q
    /\ (this w <= inject_Z k * (1 # 100) + (1 # 1000000))%Q.
Proof.
  intros L U. unfold Irs64.round2, EPSILON, num, ofZ.
  rewrite add_Fin64.
  destruct (round64_close (q + Q2Qc (1 # 4503599627370496))
              (4000000000 # 1)) as (q1 & -> & L1 & U1);
    [lra | vm_compute; discriminate | to_Q; lra | to_Q; lra |].
  to_Q_in L1. to_Q_in U1.
  rewrite mul_Fin64.
  destruct (round64_close (q1 * Q2Qc (inject_Z 100)) (400000000100 # 1))
    as (q2 & -> & L2 & U2);
    [lra | vm_compute; discriminate | to_Q; q_consts; lra
     | to_Q; q_consts; lra |].
  to_Q_in L2. to_Q_in U2. q_consts.
  cbn [round]. set (k := Qfloor (this q2 + (1 # 2))).
  pose proof (Qfloor_le (this q2 + (1 # 2))) as Fl.
  pose proof (Qlt_floor (this q2 + (1 # 2))) as Fu.
  fold k in Fl, Fu. rewrite inject_Z_plus in Fu.
  change (inject_Z 1) with 1%Q in Fu.
  fold (ofZ k). fold (ofZ 100). rewrite div_hundred64.
  set (K := inject_Z k) in *.
  assert (Kl : ((100 # 1) * this q - (501 # 1000) <= K)%Q) by lra.
  assert (Ku : (K <= (100 # 1) * this q + (501 # 1000))%Q) by lra.
  assert (E : (this (Q2Qc (k # 100)) == K * (1 # 100))%Q).
  { rewrite this_Q2Qc. unfold K. rewrite Qmake_Qdiv. reflexivity. }
  unfold B64.lit, num.
  assert (G1 : (- (2000000001 # 1) <= K * (1 # 100))%Q)
    by (clear E; clearbody K; lra).
  assert (G2 : (K * (1 # 100) <= 2000000001 # 1)%Q)
    by (clear E; clearbody K; lra).
  destruct (round64_close (Q2Qc (k # 100)) (2000000001 # 1))
    as (w & Ew & Lw & Uw);
    [lra | vm_compute; discriminate | rewrite E; exact G1
     | rewrite E; exact G2 |].
  rewrite E in Lw, Uw. clear E.
  exists k, w. rewrite Ew. fold K. clearbody K.
  repeat split; try assumption; try reflexivity; lra.
Qed.

End CentsOfBinary64.

(** ** calculate: validation and the withholding formula *)

Section Calculate.

Lemma gross_check (g : number) :
  (g <=? ofZ 0) || negb (isFinite g) = false
  <-> isFinite g = true /\ (ofZ 0 <? g) = true.
Proof.
  destruct g as [q| | |]; cbn [leb ltb isFinite ofZ negb];
    unfold Qc_leb, Qc_ltb;
    try destruct (Qle_bool q (Q2Qc (inject_Z 0))); simpl; intuition congruence.
Qed.

Lemma gross_check_fails (g : number) :
  (g <=? ofZ 0) || negb (isFinite g) = true
  <-> isFinite g = false \/ (g <=? ofZ 0) = true.
Proof.
  rewrite orb_true_iff, negb_true_iff. tauto.
Qed.

Lemma dependents_check (d : number) :
  (d <? ofZ 0) || negb (isInteger d) = false
  <-> isInteger d = true /\ (ofZ 0 <=? d) = true.
Proof.
  destruct d as [q| | |]; cbn [leb ltb isInteger ofZ negb];
    unfold Qc_leb, Qc_ltb;
    try destruct (Qle_bool (Q2Qc (inject_Z 0)) q);
    try destruct (Pos.eqb (Qden q) 1); simpl; intuition congruence.
Qed.

Lemma dependents_check_fails (d : number) :
  (d <? ofZ 0) || negb (isInteger d) = true
  <-> isInteger d = false \/ (d <? ofZ 0) = true.
Proof.
  rewrite orb_true_iff, negb_true_iff. tauto.
Qed.

Lemma valid_not_invalid (input : IrsInput) :
  validInput input <-> ~ invalidInput input.
Proof.
  unfold validInput, invalidInput.
  rewrite <- gross_check, <- dependents_check.
  rewrite <- gross_check_fails, <- dependents_check_fails.
  destruct (_ || _), (_ || _), (location input);
    intuition (congruence || discriminate).
Qed.

Lemma classic_invalid (input : IrsInput) :
  invalidInput input \/ validInput input.
Proof.
  unfold validInput, invalidInput.
  rewrite <- gross_check, <- dependents_check.
  rewrite <- gross_check_fails, <- dependents_check_fails.
  destruct (_ || _), (_ || _), (location input);
    first [ left; left; reflexivity
          | left; right; left; reflexivity
          | left; right; right; discriminate
          | right; repeat split; reflexivity ].
Qed.

Lemma pickBand_error (bs : list Band) (g : number) (e : error) :
  pickBand bs g = Err e -> e = NoMatchingBand.
Proof.
  unfold pickBand. destruct (find _ _); [discriminate|].
  destruct (find _ _); [discriminate|]. congruence.
Qed.

Lemma resolveDeduction_error (d : Deduction) (R : number) (e : error) :
  resolveDeduction d R = Err e -> isValidationError e = false.
Proof.
  unfold resolveDeduction. destruct d as [n|expression]; [discriminate|].
  destruct (matchFormula _) as [[[m1 m2] m3]|].
  - destruct (negb _); [|discriminate]. intros [= <-]. reflexivity.
  - intros [= <-]. reflexivity.
Qed.

Lemma calculate_valid (data : IrsDataset) (input : IrsInput) :
  validInput input -> calculate (Some data) input = withhold data input.
Proof.
  intros (G & D & L). unfold calculate, withhold.
  apply gross_check in G. apply dependents_check in D.
  rewrite G, D, L. reflexivity.
Qed.

Lemma calculate_invalid (data : IrsDataset) (input : IrsInput) :
  invalidInput input ->
  exists e, calculate (Some data) input = Err e /\ isValidationError e = true.
Proof.
  intro H. unfold calculate.
  destruct ((grossSalary input <=? ofZ 0) || negb (isFinite (grossSalary input)))
    eqn:G; [exists GrossSalaryNotPositive; auto|].
  destruct ((dependents input <? ofZ 0) || negb (isInteger (dependents input)))
    eqn:D; [exists DependentsNotNatural; auto|].
  destruct (location input) eqn:L;
    [|exists (LocationNotSupported madeira); auto
     |exists (LocationNotSupported acores); auto].
  exfalso. apply gross_check in G. apply dependents_check in D.
  apply (proj1 (valid_not_invalid input)); [|exact H].
  repeat split; try apply G; try apply D; exact L.
Qed.

Lemma withhold_error (data : IrsDataset) (input : IrsInput) (e : error) :
  withhold data input = Err e -> isValidationError e = false.
Proof.
  unfold withhold. destruct (find _ _) as [table|]; [|intros [= <-]; reflexivity].
  destruct (pickBand _ _) as [b|e'] eqn:P; cbn [bind].
  - destruct (resolveDeduction _ _) as [d|e''] eqn:R; cbn [bind]; [discriminate|].
    intros [= <-]. eapply resolveDeduction_error; eassumption.
  - intros [= <-]. apply pickBand_error in P. subst. reflexivity.
Qed.

End Calculate.

(** C7.  Without a dataset [calculate] fails for every input.  With a
    dataset it fails with a validation error if and only if the gross
    salary is non-finite or <= 0, or dependents is not a non-negative
    integer, or the location is not 'continente'; so no invalid input gets
    a result. *)
Theorem calculate_validation :
  (forall input, calculate None input = Err DatasetNotSet)
  /\ (forall data input,
        (exists e, calculate (Some data) input = Err e
                   /\ isValidationError e = true)
        <-> invalidInput input)
  /\ (forall data input r,
        invalidInput input -> calculate (Some data) input <> Ok r).
Proof.
  split; [reflexivity|]. split.
  - intros data input. split; [|apply calculate_invalid].
    intros (e & E & V).
    destruct (classic_invalid input) as [I|Vd]; [exact I|].
    rewrite (calculate_valid data input Vd) in E.
    apply withhold_error in E. congruence.
  - intros data input r I E.
    destruct (calculate_invalid data input I) as (e & E' & _). congruence.
Qed.

(** An invalid input, and a dataset to reject it. *)
Lemma calculate_validation_witness :
  invalidInput (irsInput 0 single 0)
  /\ exists e, calculate (Some mockDataset) (irsInput 0 single 0) = Err e
               /\ isValidationError e = true.
Proof.
  assert (I : invalidInput (irsInput 0 single 0))
    by (left; right; vm_compute; reflexivity).
  split; [exact I|].
  exact (proj2 (proj1 (proj2 calculate_validation)
                  mockDataset (irsInput 0 single 0)) I).
Defined.

(** C1.  On binary64 numbers, for a valid input whose table, band and
    deduction resolve, [calculate] returns a result with withheld tax
    [max(0, round2(raw))], where
    [raw = grossSalary * rate - deduction - additionalPerDependent * dependents]
    with the rate, deduction and per-dependent amount (0 when absent) of
    the selected band; social security [round2(grossSalary * ssRate)],
    [ssRate] being 0.11 when the input has none; and net salary
    [round2(grossSalary - withheld - socialSecurity)]; every operation is
    the binary64 one.  The withheld tax is never below zero.  [round2] of a
    number of magnitude up to 2 000 000 000 is the binary64 number nearest
    to a whole number of cents, which is within 0.00501 of the number. *)
Theorem calculate_formula (data : IrsDataset) (input : IrsInput)
    (table : RateTable) (b : Band) (ded : number) :
  validInput input ->
  find (fun t => String.eqb (id t)
                   (pickTableId (maritalStatus input) (dependents input)
                      (hasDisability input ?? false)))
       (tables data) = Some table ->
  Irs64.pickBand (bands table) (grossSalary input) = Ok b ->
  Irs64.resolveDeduction (deduction b) (grossSalary input) = Ok ded ->
  let g := grossSalary input in
  let raw :=
    g *! rate b -! ded
    -! (additionalPerDependent b ?? ofZ 0) *! dependents input in
  let withheld := max (ofZ 0) (Irs64.round2 raw) in
  let ss := Irs64.round2 (g *! (socialSecurityRate input ?? B64.lit 0.11)) in
  (exists r, Irs64.calculate (Some data) input = Ok r
             /\ band r = b
             /\ irsWithheld r = withheld
             /\ socialSecurity r = ss
             /\ netSalary r = Irs64.round2 (g -! withheld -! ss))
  /\ (withheld <? ofZ 0) = false
  /\ (forall q : Qc,
        (- (2000000000 # 1) <= this q)%Q -> (this q <= 2000000000 # 1)%Q ->
        exists k : Z,
          Irs64.round2 (Fin q) = B64.lit (k # 100)
          /\ (this q - (501 # 100000) <= inject_Z k * (1 # 100))%Q
          /\ (inject_Z k * (1 # 100) <= this q + (501 # 100000))%Q).
Proof.
  intros (G & D & L) T P R g raw withheld ss. split; [|split].
  - unfold Irs64.calculate.
    apply gross_check in G. apply dependents_check in D.
    rewrite G, D, L, T, P. cbn [bind]. rewrite R. cbn [bind].
    eexists. split; [reflexivity|].
    cbn [band irsWithheld socialSecurity netSalary].
    fold g. fold raw. rewrite (round2_64_max_zero raw). fold withheld. fold ss.
    repeat split; reflexivity.
  - apply max_zero_not_negative.
  - intros q Lq Uq.
    destruct (round2_64_value q Lq Uq) as (k & w & E & Ew & Kl & Ku & _).
    exists k. split; [congruence|].
    set (K := inject_Z k) in *. clearbody K. split; lra.
Qed.

(** Scenario A on the dataset of the unit tests: 900 falls in the band up
    to 920. *)
Lemma calculate_formula_witness :
  validInput (irsInput64 900 single 0)
  /\ exists r, Irs64.calculate (Some mockDataset64) (irsInput64 900 single 0)
               = Ok r
               /\ band r = toBinary64Band band920.
Proof.
  assert (V : validInput (irsInput64 900 single 0))
    by (repeat split; vm_compute; reflexivity).
  split; [exact V|].
  destruct (calculate_formula mockDataset64 (irsInput64 900 single 0)
              (toBinary64Table mockTableI) (toBinary64Band band920) (ofZ 0)
              V eq_refl eq_refl eq_refl)
    as [(r & E & B & _) _].
  exists r. split; assumption.
Defined.

(** The figures of the service's unit tests on [mockDataset64]. *)
Example calculate64_900 :
  exists r, Irs64.calculate (Some mockDataset64) (irsInput64 900 single 0) = Ok r
            /\ irsWithheld r = B64.lit 0
            /\ socialSecurity r = B64.lit 99
            /\ netSalary r = B64.lit 801.
Proof.
  eexists. split; [vm_compute; reflexivity|].
  cbn [irsWithheld socialSecurity netSalary].
  repeat split; vm_compute; apply Fin_eq; reflexivity.
Qed.

(** A gross salary on which binary64 and exact arithmetic part: 11 % of
    1234.50 is 135.795, a tie in cents; the product is the binary64 number
    just below it, and social security is 135.79, not 135.80. *)
Example calculate64_1234_50 :
  exists r, Irs64.calculate (Some mockDataset64) (irsInput64 1234.5 single 0)
            = Ok r
            /\ irsWithheld r = B64.lit 146.9
            /\ socialSecurity r = B64.lit 135.79
            /\ netSalary r = B64.lit 951.81.
Proof.
  eexists. split; [vm_compute; reflexivity|].
  cbn [irsWithheld socialSecurity netSalary].
  repeat split; vm_compute; apply Fin_eq; reflexivity.
Qed.


(** The figures of the service's unit tests on [mockDataset]. *)
Example calculate_900 :
  exists r, calculate (Some mockDataset) (irsInput 900 single 0) = Ok r
            /\ irsWithheld r = num 0
            /\ socialSecurity r = num 99
            /\ netSalary r = num 801.
Proof.
  eexists. split; [vm_compute; reflexivity|].
  cbn [irsWithheld socialSecurity netSalary].
  repeat split; apply Fin_eq; reflexivity.
Qed.

Example calculate_1000_one_dependent :
  exists r, calculate (Some mockDataset) (irsInput 1000 single 1) = Ok r
            /\ irsWithheld r = num 100
            /\ socialSecurity r = num 110
            /\ netSalary r = num 790.
Proof.
  eexists. split; [vm_compute; reflexivity|].
  cbn [irsWithheld socialSecurity netSalary].
  repeat split; apply Fin_eq; reflexivity.
Qed.

(** ** The reverse solver: bisection *)

Section Bisection.

Import Reverse.

Variable data : option IrsDataset.
Variable input : ReverseCalculationInput.
Variable flexPct : number.

Lemma solveLoop_step (i : Z) (low high : number)
    (bestResult : option CalculationProposal) :
  (i < 50)%Z ->
  solveLoop data input flexPct i low high bestResult
  = match calculateOutputs data input ((low + high) / ofZ 2) flexPct with
    | Err e => Err e
    | Ok result =>
        if totalNetMax result <? targetNetSalary input then
          solveLoop data input flexPct (i + 1) ((low + high) / ofZ 2) high
            (Some result)
        else
          solveLoop data input flexPct (i + 1) low ((low + high) / ofZ 2)
            (Some result)
    end.
Proof.
  intro H. rewrite solveLoop_equation_1.
  destruct (Z_lt_dec i 50); [reflexivity | contradiction].
Qed.

Lemma solveLoop_done (i : Z) (low high : number)
    (bestResult : option CalculationProposal) :
  (50 <= i)%Z ->
  solveLoop data input flexPct i low high bestResult = Ok bestResult.
Proof.
  intro H. rewrite solveLoop_equation_1.
  destruct (Z_lt_dec i 50); [lia | reflexivity].
Qed.

(** From iteration [i] on, the loop is [50 - i] iterations of [narrow],
    the result being the one computed by the last of them. *)
Lemma solveLoop_bisect (k : nat) :
  forall (i : Z) (low high : number) (bestResult : option CalculationProposal),
  i = (49 - Z.of_nat k)%Z ->
  solveLoop data input flexPct i low high bestResult
  = (bounds <- bisect data input flexPct k (low, high) ;;
     result <- calculateOutputs data input (midpoint bounds) flexPct ;;
     Ok (Some result)).
Proof.
  induction k as [|k IH]; intros i low high bestResult Hi.
  - rewrite solveLoop_step by lia. cbn [bisect bind]. unfold midpoint.
    cbn [fst snd].
    destruct (calculateOutputs _ _ _ _) as [result|e]; [|reflexivity].
    cbn [bind].
    destruct (totalNetMax result <? targetNetSalary input);
      apply solveLoop_done; lia.
  - rewrite solveLoop_step by lia. cbn [bisect]. unfold narrow at 1.
    unfold midpoint at 1 2 3. cbn [fst snd].
    destruct (calculateOutputs _ _ _ _) as [result|e]; [|reflexivity].
    cbn [bind].
    destruct (totalNetMax result <? targetNetSalary input);
      apply IH; lia.
Qed.

Lemma div_ofZ_2 (a : Qc) : Fin a / ofZ 2 = Fin (a / Q2Qc (inject_Z 2)).
Proof.
  cbv [ofZ div].
  replace (Qc_eqb (Q2Qc (inject_Z 2)) (Q2Qc 0)) with false
    by (vm_compute; reflexivity).
  reflexivity.
Qed.

(** An iteration halves a finite interval and stays inside it. *)
Lemma narrow_halves (a b : Qc) (bounds' : number * number) :
  narrow data input flexPct (Fin a, Fin b) = Ok bounds' ->
  this a <= this b ->
  exists a' b', bounds' = (Fin a', Fin b')
    /\ this a <= this a' /\ this a' <= this b' /\ this b' <= this b
    /\ (this b' - this a') * (2 # 1) == this b - this a.
Proof.
  unfold narrow, midpoint. cbn [fst snd add]. rewrite div_ofZ_2.
  destruct (calculateOutputs _ _ _ _) as [result|e]; [|discriminate].
  cbn [bind]. intros [= <-] Hab.
  destruct (totalNetMax result <? targetNetSalary input).
  - exists ((a + b) / Q2Qc (inject_Z 2))%Qc, b. split; [reflexivity|].
    to_Q. q_consts. unfold Qdiv. change (/ (2 # 1))%Q with (1 # 2)%Q.
    repeat split; lra.
  - exists a, ((a + b) / Q2Qc (inject_Z 2))%Qc. split; [reflexivity|].
    to_Q. q_consts. unfold Qdiv. change (/ (2 # 1))%Q with (1 # 2)%Q.
    repeat split; lra.
Qed.

Lemma bisect_halves (k : nat) :
  forall (a b : Qc) (bounds' : number * number),
  bisect data input flexPct k (Fin a, Fin b) = Ok bounds' ->
  this a <= this b ->
  exists a' b', bounds' = (Fin a', Fin b')
    /\ this a <= this a' /\ this a' <= this b' /\ this b' <= this b
    /\ (this b' - this a') * inject_Z (2 ^ Z.of_nat k) == this b - this a.
Proof.
  induction k as [|k IH]; intros a b bounds' E Hab.
  - injection E as <-. exists a, b. split; [reflexivity|].
    change (inject_Z (2 ^ Z.of_nat 0)) with 1%Q. repeat split; lra.
  - cbn [bisect] in E.
    destruct (narrow data input flexPct (Fin a, Fin b)) as [bounds1|e] eqn:N;
      [|discriminate].
    cbn [bind] in E.
    destruct (narrow_halves a b bounds1 N Hab)
      as (a1 & b1 & -> & L1 & M1 & U1 & W1).
    destruct (IH a1 b1 bounds' E M1) as (a' & b' & -> & L & M & U & W).
    exists a', b'. split; [reflexivity|]. repeat split; try lra.
    rewrite Nat2Z.inj_succ, Z.pow_succ_r by lia.
    rewrite inject_Z_mult. change (inject_Z 2) with (2 # 1)%Q.
    rewrite <- W1, <- W. ring.
Qed.

End Bisection.

(** C5.  For a benefit percentage, [solveForAnnualCost] is the bisection
    of [0, 1000000] stopped by the iteration count alone: 49 iterations
    narrow the interval as the specification says, the 50th computes the
    scenario at the midpoint of what is left, and that scenario is the
    value returned, whatever the gap to the target (an error of any
    iteration is the error of the call).  The bounds stay finite inside
    [0, 1000000] and after [k] iterations their distance is
    1000000 / 2^k. *)
Theorem solveForAnnualCost_bisection (data : option IrsDataset)
    (input : Reverse.ReverseCalculationInput) (flexPct : number) :
  Reverse.solveForAnnualCost data input flexPct
  = (bounds <- bisect data input flexPct 49 (ofZ 0, ofZ 1000000) ;;
     result <- Reverse.calculateOutputs data input (midpoint bounds) flexPct ;;
     Ok (Some result))
  /\ (forall k bounds,
        bisect data input flexPct k (ofZ 0, ofZ 1000000) = Ok bounds ->
        exists low high : Qc,
          bounds = (Fin low, Fin high)
          /\ (0 <= this low /\ this low <= this high
              /\ this high <= 1000000 # 1)%Q
          /\ ((this high - this low) * inject_Z (2 ^ Z.of_nat k)
              == 1000000 # 1)%Q).
Proof.
  split.
  - unfold Reverse.solveForAnnualCost. apply solveLoop_bisect. reflexivity.
  - intros k bounds E.
    assert (H : (this (Q2Qc (inject_Z 0)) <= this (Q2Qc (inject_Z 1000000)))%Q)
      by (vm_compute; discriminate).
    destruct (bisect_halves data input flexPct k _ _ bounds E H)
      as (a & b & -> & L & M & U & W).
    exists a, b. split; [reflexivity|].
    change (this (Q2Qc (inject_Z 0))) with 0%Q in *.
    change (this (Q2Qc (inject_Z 1000000))) with (1000000 # 1)%Q in *.
    repeat split; lra.
Qed.

(** Three iterations on the input of the unit tests leave an interval of
    length 1000000 / 8. *)
Lemma solveForAnnualCost_bisection_witness :
  exists low high : Qc,
    bisect (Some mockDataset) reverseTestInput (ofZ 0) 3 (ofZ 0, ofZ 1000000)
    = Ok (Fin low, Fin high)
    /\ ((this high - this low) * (8 # 1) == 1000000 # 1)%Q.
Proof.
  assert (E : exists bounds,
            bisect (Some mockDataset) reverseTestInput (ofZ 0) 3
              (ofZ 0, ofZ 1000000) = Ok bounds)
    by (eexists; vm_compute; reflexivity).
  destruct E as [bounds E].
  destruct (proj2 (solveForAnnualCost_bisection (Some mockDataset)
                     reverseTestInput (ofZ 0)) 3%nat bounds E)
    as (low & high & -> & _ & W).
  exists low, high. split; [exact E | exact W].
Defined.

(** ** The reverse solver: the sweep of percentages *)

Section Sweep.

Import Reverse.

Variable data : option IrsDataset.
Variable input : ReverseCalculationInput.

Lemma proposalsLoop_step (pct : Z)
    (proposals : list (option CalculationProposal)) :
  (pct <= 30)%Z ->
  proposalsLoop data input pct proposals
  = match solveForAnnualCost data input (flexPctOf pct) with
    | Err e => Err e
    | Ok proposal =>
        proposalsLoop data input (pct + 5) (proposals ++ [proposal])
    end.
Proof.
  intro H. rewrite proposalsLoop_equation_1.
  destruct (Z_le_dec pct 30); [reflexivity | contradiction].
Qed.

Lemma proposalsLoop_done (pct : Z)
    (proposals : list (option CalculationProposal)) :
  (30 < pct)%Z -> proposalsLoop data input pct proposals = Ok proposals.
Proof.
  intro H. rewrite proposalsLoop_equation_1.
  destruct (Z_le_dec pct 30); [lia | reflexivity].
Qed.

(** An iteration of the loop, when the iterations after it are calls in
    turn. *)
Lemma proposalsLoop_cons (pct next : Z) (rest : list Z) :
  (pct <= 30)%Z -> next = (pct + 5)%Z ->
  (forall acc, proposalsLoop data input next acc
               = (ps <- solveAll data input rest ;; Ok (acc ++ ps))) ->
  forall acc, proposalsLoop data input pct acc
              = (ps <- solveAll data input (pct :: rest) ;; Ok (acc ++ ps)).
Proof.
  intros H -> IH acc. rewrite (proposalsLoop_step pct acc H). cbn [solveAll].
  destruct (solveForAnnualCost data input (flexPctOf pct)) as [o|e];
    [|reflexivity].
  cbn [bind]. rewrite IH.
  destruct (solveAll data input rest) as [ps|e]; [|reflexivity].
  cbn [bind]. rewrite <- app_assoc. reflexivity.
Qed.

(** The loop runs seven times, for 0, 5, ..., 30. *)
Lemma getProposals_solveAll :
  getProposals data input = solveAll data input percentages.
Proof.
  unfold getProposals, percentages.
  rewrite (proposalsLoop_cons 0 5 [5; 10; 15; 20; 25; 30]%Z); try lia.
  - destruct (solveAll _ _ _); reflexivity.
  - apply (proposalsLoop_cons 5 10); try lia.
    apply (proposalsLoop_cons 10 15); try lia.
    apply (proposalsLoop_cons 15 20); try lia.
    apply (proposalsLoop_cons 20 25); try lia.
    apply (proposalsLoop_cons 25 30); try lia.
    apply (proposalsLoop_cons 30 35); try lia.
    intro acc. rewrite proposalsLoop_done by lia.
    cbn [solveAll bind]. rewrite app_nil_r. reflexivity.
Qed.

Lemma calculateOutputs_percentage (c p : number) (r : CalculationProposal) :
  calculateOutputs data input c p = Ok r ->
  flexBenefitsPercentage r = p * ofZ 100 /\ annualCost r = c.
Proof.
  unfold calculateOutputs.
  destruct (calculate data _) as [cmax|e]; [|discriminate]. cbn [bind].
  destruct (calculate data _) as [cmin|e]; [|discriminate]. cbn [bind].
  intros [= <-]. split; reflexivity.
Qed.

Lemma solveForAnnualCost_percentage (p : number)
    (o : option CalculationProposal) :
  solveForAnnualCost data input p = Ok o ->
  exists r, o = Some r /\ flexBenefitsPercentage r = p * ofZ 100.
Proof.
  unfold solveForAnnualCost.
  rewrite (solveLoop_bisect data input p 49) by reflexivity.
  destruct (bisect _ _ _ _ _) as [bounds|e]; [|discriminate]. cbn [bind].
  destruct (calculateOutputs _ _ _ _) as [r|e] eqn:E; [|discriminate].
  cbn [bind]. intros [= <-]. exists r. split; [reflexivity|].
  apply (calculateOutputs_percentage _ _ _ E).
Qed.

Lemma flexPctOf_times_100 (pct : Z) :
  In pct percentages -> flexPctOf pct * ofZ 100 = ofZ pct.
Proof.
  unfold percentages. simpl.
  intros H; repeat (destruct H as [<- | H]; [apply Fin_eq; reflexivity|]).
  contradiction.
Qed.

Lemma solveAll_percentages (pcts : list Z)
    (ps : list (option CalculationProposal)) :
  (forall pct, In pct pcts -> In pct percentages) ->
  solveAll data input pcts = Ok ps ->
  map (option_map flexBenefitsPercentage) ps
  = map (fun pct => Some (ofZ pct)) pcts.
Proof.
  revert ps. induction pcts as [|pct rest IH]; intros ps Sub E.
  - injection E as <-. reflexivity.
  - cbn [solveAll] in E.
    destruct (solveForAnnualCost data input (flexPctOf pct)) as [o|e] eqn:S;
      [|discriminate].
    cbn [bind] in E.
    destruct (solveAll data input rest) as [ps'|e]; [|discriminate].
    cbn [bind] in E. injection E as <-.
    destruct (solveForAnnualCost_percentage _ _ S) as (r & -> & F).
    cbn [map option_map]. rewrite F, flexPctOf_times_100 by (apply Sub; left; reflexivity).
    f_equal. apply IH; [|reflexivity].
    intros q Hq. apply Sub. right. exact Hq.
Qed.

Lemma solveAll_succeeds (pcts : list Z) :
  (forall pct, In pct pcts ->
     exists o, solveForAnnualCost data input (flexPctOf pct) = Ok o) ->
  exists ps, solveAll data input pcts = Ok ps.
Proof.
  induction pcts as [|pct rest IH]; intro H; cbn [solveAll].
  - eexists. reflexivity.
  - destruct (H pct (or_introl eq_refl)) as [o ->].
    destruct IH as [ps ->]; [intros q Hq; apply H; right; exact Hq|].
    eexists. reflexivity.
Qed.

End Sweep.

(** C8.  When each of the seven searches succeeds, [getProposals] returns
    a list; and a list returned by [getProposals] has exactly seven
    proposals, none of them null, whose [flexBenefitsPercentage] are 0, 5,
    10, 15, 20, 25, 30 in this order. *)
Theorem getProposals_percentages (data : option IrsDataset)
    (input : Reverse.ReverseCalculationInput) :
  ((forall pct, In pct percentages ->
      exists o, Reverse.solveForAnnualCost data input (flexPctOf pct) = Ok o) ->
   exists ps, Reverse.getProposals data input = Ok ps)
  /\ (forall ps, Reverse.getProposals data input = Ok ps ->
        map (option_map Reverse.flexBenefitsPercentage) ps
        = [Some (ofZ 0); Some (ofZ 5); Some (ofZ 10); Some (ofZ 15);
           Some (ofZ 20); Some (ofZ 25); Some (ofZ 30)]
        /\ List.length ps = 7%nat).
Proof.
  rewrite getProposals_solveAll. split.
  - apply solveAll_succeeds.
  - intros ps E.
    pose proof (solveAll_percentages data input percentages ps
                  (fun _ H => H) E) as M.
    split; [exact M|].
    rewrite <- (length_map (option_map Reverse.flexBenefitsPercentage)), M.
    reflexivity.
Qed.

(** In binary64 too, dividing each of the seven percentages by 100 and
    multiplying by 100 gives the percentage back. *)
Lemma percentages_exact_in_binary64 :
  map Binary64.flexBenefitsPercentage Binary64.percentages
  = Binary64.percentages.
Proof. vm_compute. reflexivity. Qed.

(** The input of the unit test 'should generate multiple proposals'. *)
Lemma getProposals_percentages_witness :
  exists ps, Reverse.getProposals (Some mockDataset) reverseTestInput = Ok ps
             /\ List.length ps = 7%nat.
Proof.
  assert (E : exists ps,
            Reverse.getProposals (Some mockDataset) reverseTestInput = Ok ps)
    by (eexists; vm_compute; reflexivity).
  destruct E as [ps E]. exists ps. split; [exact E|].
  exact (proj2 (proj2 (getProposals_percentages (Some mockDataset)
                         reverseTestInput) ps E)).
Defined.

(** ** The reverse solver: the monthly decomposition *)

(** C2.  The decomposition of [calculateOutputs] is not the one of the
    specification, which is the one of the component's own
    [calculateByAnnualCost].  On the input the component gives the solver
    (meal allowance 10.22 * 22 * 11, TSU 23.75, IHT 25 %, 14 months), at
    the candidate 500000 and 10 % of benefits, the proposal reports an
    annual cost of 500000 with monthly benefits 3350.35, IHT 6341.73 and
    base salary 19025.19, where the specification and
    [calculateByAnnualCost] have 3415.91, 5270.26 and 21081.02; and what
    that proposal costs the company, computed by the component's
    [calculateAnnualCostToCompany], is 482159.39, more than 17000 below
    the annual cost it reports, while the decomposition of
    [calculateByAnnualCost] costs 500000. *)
Theorem calculateOutputs_departs_from_decomposition :
  let c := highCostComponent in
  let input := Simulator.reverseInput c in
  let v := Simulator.forwardValues c 10 in
  let s := specDecomposition input (ofZ 500000) (flexPctOf 10) in
  exists r,
    Reverse.calculateOutputs (Some mockDataset) input (ofZ 500000) (flexPctOf 10)
    = Ok r
    /\ Reverse.annualCost r = ofZ 500000
    /\ (Reverse.monthlyBenefits r + ofZ 65 <? specBenefit s) = true
    /\ (specIHT s + ofZ 1000 <? Reverse.monthlyIHT r) = true
    /\ (Reverse.monthlyBaseSalary r + ofZ 2000 <? specBase s) = true
    /\ (Reverse.monthlyBenefits r + ofZ 65
        <? Simulator.monthlyValueToBenefits v) = true
    /\ (Simulator.IHT v + ofZ 1000 <? Reverse.monthlyIHT r) = true
    /\ (Reverse.monthlyBaseSalary r + ofZ 2000
        <? Simulator.valueWithoutIHT v) = true
    /\ (Simulator.calculateAnnualCostToCompany c
          (Reverse.monthlyBaseSalary r + Reverse.monthlyIHT r)
          (Reverse.monthlyBenefits r) + ofZ 17000
        <? Reverse.annualCost r) = true
    /\ (ofZ 500000 - num 0.001
        <? Simulator.calculateAnnualCostToCompany c
             (Simulator.monthlyGross v) (Simulator.monthlyValueToBenefits v))
       = true
    /\ (Simulator.calculateAnnualCostToCompany c
          (Simulator.monthlyGross v) (Simulator.monthlyValueToBenefits v)
        <? ofZ 500000 + num 0.001) = true.
Proof.
  intros c input v s. eexists. split; [vm_compute; reflexivity|].
  cbn [Reverse.annualCost Reverse.monthlyBenefits Reverse.monthlyIHT
       Reverse.monthlyBaseSalary].
  repeat split; vm_compute; reflexivity.
Qed.


(** ** The reverse solver: candidates below the meal allowance *)

Section ZeroBudget.

Import Reverse.

Lemma isFinite_Fin (x : number) : isFinite x = true -> exists q, x = Fin q.
Proof. destruct x; try discriminate. eauto. Qed.

Lemma div_Fin (a b : Qc) : b <> Q2Qc 0 -> Fin a / Fin b = Fin (a / b).
Proof.
  intro H. cbn [div]. destruct (Qc_eqb b (Q2Qc 0)) eqn:E; [|reflexivity].
  apply Qc_eqb_eq in E. contradiction.
Qed.

Lemma Qc_nonzero (b : Qc) : ~ this b == 0 -> b <> Q2Qc 0.
Proof. intros H ->. apply H. reflexivity. Qed.

Lemma zero_div (b : Qc) : ~ this b == 0 -> ofZ 0 / Fin b = ofZ 0.
Proof.
  intro H. unfold ofZ. rewrite div_Fin by (apply Qc_nonzero; exact H).
  apply Fin_eq. to_Q. q_consts. field. exact H.
Qed.

Lemma zero_mul (p : Qc) : ofZ 0 * Fin p = ofZ 0.
Proof. apply Fin_eq. to_Q. q_consts. ring. Qed.

Lemma max_zero_nonpositive (x : number) :
  (x <=? ofZ 0) = true -> max (ofZ 0) x = ofZ 0.
Proof.
  destruct x as [q| | |]; try discriminate; [|reflexivity].
  unfold ofZ. cbn [leb]. rewrite max_Fin. intro H.
  apply Qc_leb_le in H.
  destruct (Qc_ltb (Q2Qc (inject_Z 0)) q) eqn:E; [|reflexivity].
  apply Qc_ltb_lt in E. lra.
Qed.

Lemma sub_nonpositive (c : number) (a : Qc) :
  (c <=? Fin a) = true -> (c - Fin a <=? ofZ 0) = true.
Proof.
  destruct c as [q| | |]; try discriminate; [|reflexivity].
  cbn [leb sub neg add ofZ]. rewrite !Qc_leb_le. to_Q. q_consts. lra.
Qed.

Lemma tsu_factor (t : Qc) :
  Fin t <> ofZ (-100) ->
  exists u : Qc, ofZ 1 + Fin t / ofZ 100 = Fin u /\ ~ this u == 0.
Proof.
  intro H.
  assert (D : Fin t / ofZ 100 = Fin (t / Q2Qc (inject_Z 100)))
    by (apply (div_Fin t (Q2Qc (inject_Z 100))), Qc_nonzero;
        vm_compute; discriminate).
  rewrite D. cbn [add ofZ]. eexists. split; [reflexivity|].
  to_Q. q_consts. intro E. apply H. apply Fin_eq.
  change (this (Q2Qc (inject_Z (-100)))) with (-100 # 1)%Q.
  assert (E' : this t / (100 # 1) == -1) by lra.
  apply (Qmult_inj_r _ _ (/ (100 # 1))); [discriminate|].
  unfold Qdiv in E'. rewrite E'. reflexivity.
Qed.

Variable data : option IrsDataset.
Variable input : ReverseCalculationInput.
Hypothesis finite : finiteInput input.

(** With a candidate at or below the annual meal allowance the budget is
    0, and so is every monthly value derived from it. *)
Lemma zeroBudget_values (c p : number) :
  isFinite p = true ->
  (c <=? annualMeal input) = true ->
  monthlyValues input c p
  = {| mealAllowance := mealAllowanceDaily input * mealAllowanceDays input;
       toBenefits := ofZ 0;
       iht := ofZ 0;
       baseSalary := ofZ 0;
       gross := ofZ 0 |}.
Proof.
  destruct finite as (Fd & Fy & Fm & Fi & Ft & Nt).
  intros Fp. unfold annualMeal, monthlyValues.
  destruct (isFinite_Fin _ Fd) as [d ->], (isFinite_Fin _ Fy) as [y ->],
           (isFinite_Fin _ Fm) as [m ->], (isFinite_Fin _ Fi) as [i Ei],
           (isFinite_Fin _ Ft) as [t Et], (isFinite_Fin _ Fp) as [q ->].
  rewrite Ei, Et. rewrite Et in Nt.
  destruct (tsu_factor t Nt) as (u & -> & Hu).
  cbn [mul]. intro Hc.
  rewrite (max_zero_nonpositive _ (sub_nonpositive _ _ Hc)).
  rewrite (zero_div u Hu).
  assert (M : ofZ 0 / (if hasDuodecimos input then ofZ 12 else ofZ 14) = ofZ 0)
    by (destruct (hasDuodecimos input); apply zero_div; vm_compute; discriminate).
  rewrite M, zero_mul.
  assert (Z12 : ofZ 0 / ofZ 12 = ofZ 0)
    by (apply zero_div; vm_compute; discriminate).
  assert (Z100 : ofZ 0 / ofZ 100 = ofZ 0)
    by (apply zero_div; vm_compute; discriminate).
  assert (S0 : ofZ 0 - ofZ 0 = ofZ 0) by (apply Fin_eq; reflexivity).
  assert (A0 : ofZ 0 + ofZ 0 = ofZ 0) by (apply Fin_eq; reflexivity).
  rewrite Z12, S0, zero_mul, Z100, S0, A0. reflexivity.
Qed.

(** The first call of the withholding service then has gross salary 0 and
    fails. *)
Lemma zeroBudget_fails (c p : number) :
  isFinite p = true ->
  (c <=? annualMeal input) = true ->
  exists e, calculateOutputs data input c p = Err e
            /\ (e = GrossSalaryNotPositive \/ e = DatasetNotSet).
Proof.
  intros Fp Hc. unfold calculateOutputs.
  rewrite (zeroBudget_values c p Fp Hc). cbn [gross].
  destruct data as [d|]; cbn [calculate bind].
  - exists GrossSalaryNotPositive. split; [|left; reflexivity].
    unfold irsCall at 1. cbn [grossSalary].
    replace (ofZ 0 <=? ofZ 0) with true by reflexivity. reflexivity.
  - exists DatasetNotSet. split; [reflexivity | right; reflexivity].
Qed.

End ZeroBudget.

Section Descent.

Import Reverse.

Variable data : option IrsDataset.
Variable input : ReverseCalculationInput.
Hypothesis finite : finiteInput input.

Lemma pow2_nonzero (k : nat) : ~ inject_Z (2 ^ Z.of_nat k) == 0.
Proof.
  assert (0 < 2 ^ Z.of_nat k)%Z by (apply Z.pow_pos_nonneg; lia).
  unfold Qeq. simpl. lia.
Qed.

Lemma midpoint_probe (k : nat) : (ofZ 0 + probe k) / ofZ 2 = probe (S k).
Proof.
  unfold probe. cbn [add ofZ]. rewrite div_ofZ_2. apply Fin_eq.
  to_Q. q_consts. rewrite Nat2Z.inj_succ, Z.pow_succ_r by lia.
  rewrite inject_Z_mult. change (inject_Z 2) with (2 # 1)%Q.
  field. apply pow2_nonzero.
Qed.

Hypothesis reached : (probe 50 <=? annualMeal input) = true.
Hypothesis above : neverBelowTarget data input = true.

(** The first search goes down until it fails: at the latest at the 50th
    midpoint, which the meal allowance covers. *)
Lemma solveLoop_descends (d : nat) :
  forall (k : nat) (bestResult : option CalculationProposal),
  (k + d = 49)%nat ->
  exists e, solveLoop data input (ofZ 0) (Z.of_nat k) (ofZ 0) (probe k)
              bestResult = Err e.
Proof.
  induction d as [|d IH]; intros k bestResult Hk.
  - rewrite solveLoop_step by lia. rewrite midpoint_probe.
    replace (S k) with 50%nat by lia.
    destruct (zeroBudget_fails data input finite (probe 50) (ofZ 0)
                eq_refl reached) as (e & -> & _).
    exists e. reflexivity.
  - rewrite solveLoop_step by lia. rewrite midpoint_probe.
    destruct (calculateOutputs data input (probe (S k)) (ofZ 0))
      as [r|e] eqn:E; [|exists e; reflexivity].
    assert (B : negb (totalNetMax r <? targetNetSalary input) = true).
    { unfold neverBelowTarget in above. rewrite forallb_forall in above.
      specialize (above (S k)). rewrite E in above. apply above.
      apply in_seq. lia. }
    apply negb_true_iff in B. rewrite B.
    replace (Z.of_nat k + 1)%Z with (Z.of_nat (S k)) by lia.
    apply IH. lia.
Qed.

Lemma getProposals_descends : exists e, getProposals data input = Err e.
Proof.
  rewrite getProposals_solveAll. unfold percentages. cbn [solveAll].
  change (flexPctOf 0) with (ofZ 0). unfold solveForAnnualCost.
  replace (ofZ 1000000) with (probe 0) by (apply Fin_eq; reflexivity).
  destruct (solveLoop_descends 49 0 None eq_refl) as [e E].
  change (Z.of_nat 0) with 0%Z in E. rewrite E. exists e. reflexivity.
Qed.

(** A search that probes a candidate on which [calculateOutputs] fails
    ends in that failure, and so does the sweep. *)
Lemma bisect_app (p : number) (k m : nat) (bounds : number * number) :
  bisect data input p (k + m) bounds
  = (bounds' <- bisect data input p k bounds ;; bisect data input p m bounds').
Proof.
  revert bounds. induction k as [|k IH]; intro bounds; cbn [Nat.add bisect bind].
  - reflexivity.
  - destruct (narrow data input p bounds) as [b1|e]; cbn [bind];
      [apply IH | reflexivity].
Qed.

Lemma solve_probe_fails (p : number) (k : nat) (bounds : number * number) :
  (k < 50)%nat ->
  bisect data input p k (ofZ 0, ofZ 1000000) = Ok bounds ->
  (exists e, calculateOutputs data input (midpoint bounds) p = Err e) ->
  exists e, solveForAnnualCost data input p = Err e.
Proof.
  intros Hk B [e E]. unfold solveForAnnualCost.
  rewrite (solveLoop_bisect data input p 49) by reflexivity.
  replace 49%nat with (k + (49 - k))%nat by lia.
  rewrite bisect_app, B. cbn [bind].
  destruct (49 - k)%nat as [|m]; cbn [bisect bind].
  - rewrite E. exists e. reflexivity.
  - unfold narrow. rewrite E. exists e. reflexivity.
Qed.

Lemma solveAll_fails (pcts : list Z) (pct : Z) :
  In pct pcts ->
  (exists e, solveForAnnualCost data input (flexPctOf pct) = Err e) ->
  exists e, solveAll data input pcts = Err e.
Proof.
  induction pcts as [|q rest IH]; intros Hin F; [contradiction|].
  cbn [solveAll].
  destruct (solveForAnnualCost data input (flexPctOf q)) as [o|e] eqn:S.
  - cbn [bind]. destruct Hin as [-> | Hin].
    + destruct F as [e F]. congruence.
    + destruct (IH Hin F) as [e ->]. exists e. reflexivity.
  - exists e. reflexivity.
Qed.

Lemma flexPctOf_finite (pct : Z) :
  In pct percentages -> isFinite (flexPctOf pct) = true.
Proof.
  unfold percentages. simpl.
  intros H; repeat (destruct H as [<- | H]; [reflexivity|]). contradiction.
Qed.

End Descent.




(** ** Net salary against gross salary, inside a band *)

Section Monotonicity.

(** What a result of [calculate] was computed from. *)
Lemma calculate_Ok_inv (data : IrsDataset) (input : IrsInput) (r : IrsResult) :
  calculate (Some data) input = Ok r ->
  validInput input
  /\ exists table ded,
       pickBand (bands table) (grossSalary input) = Ok (band r)
       /\ resolveDeduction (deduction (band r)) (grossSalary input) = Ok ded
       /\ irsWithheld r
          = round2 (max (ofZ 0)
                      (grossSalary input * rate (band r) - ded
                       - (additionalPerDependent (band r) ?? ofZ 0)
                         * dependents input))
       /\ socialSecurity r
          = round2 (grossSalary input * (socialSecurityRate input ?? num 0.11))
       /\ netSalary r
          = round2 (grossSalary input - irsWithheld r - socialSecurity r).
Proof.
  intro E. destruct (classic_invalid input) as [I|V].
  - destruct (calculate_invalid data input I) as (e & E' & _). congruence.
  - split; [exact V|]. rewrite (calculate_valid data input V) in E.
    unfold withhold in E.
    destruct (find _ _) as [table|]; [|discriminate].
    destruct (pickBand _ _) as [b|] eqn:P; [|discriminate]. cbn [bind] in E.
    destruct (resolveDeduction _ _) as [ded|] eqn:D; [|discriminate].
    cbn [bind] in E. injection E as <-. cbn [band irsWithheld socialSecurity netSalary].
    exists table, ded. repeat split; assumption.
Qed.

Lemma cents_as_Q (q : Qc) : cents q # 100 == inject_Z (cents q) * (1 # 100).
Proof. unfold Qeq, Qmult, inject_Z. simpl. ring. Qed.

(** The arithmetic of the band: a raw tax of slope [k] floored at zero and
    rounded, a contribution of rate [s] rounded, and the rounded
    difference.  Each rounding moves its value by half a cent at most, so
    the net salary in cents loses at most 2. *)
Lemma net_cents_within_band (g1 g2 k K s : Qc) (y1 y2 x1 x2 : Qc) :
  this g1 < this g2 ->
  0 <= this k -> 0 <= this s -> this k + this s <= 1 ->
  this y1 == Qmax 0 (this g1 * this k - this K) ->
  this y2 == Qmax 0 (this g2 * this k - this K) ->
  this x1 == this g1 - (cents y1 # 100) - (cents (g1 * s)%Qc # 100) ->
  this x2 == this g2 - (cents y2 # 100) - (cents (g2 * s)%Qc # 100) ->
  (cents x1 - 2 <= cents x2)%Z.
Proof.
  intros Hg Hk Hs Hks Ey1 Ey2 Ex1 Ex2.
  destruct (cents_bounds y1) as [L1 U1], (cents_bounds y2) as [L2 U2].
  destruct (cents_bounds (g1 * s)%Qc) as [Ls1 Us1],
           (cents_bounds (g2 * s)%Qc) as [Ls2 Us2].
  destruct (cents_bounds x1) as [Lx1 Ux1], (cents_bounds x2) as [Lx2 Ux2].
  rewrite (cents_as_Q y1), (cents_as_Q y2), (cents_as_Q x1), (cents_as_Q x2),
    (cents_as_Q (g1 * s)%Qc), (cents_as_Q (g2 * s)%Qc) in *.
  to_Q_in Ls1. to_Q_in Us1. to_Q_in Ls2. to_Q_in Us2.
  assert (Pk : 0 <= this k * (this g2 - this g1))
    by (apply Qmult_le_0_compat; lra).
  assert (Ps : 0 <= this s * (this g2 - this g1))
    by (apply Qmult_le_0_compat; lra).
  assert (Pr : 0 <= (1 - this k - this s) * (this g2 - this g1))
    by (apply Qmult_le_0_compat; lra).
  assert (Dy : this y2 - this y1 <= this k * (this g2 - this g1)).
  { rewrite Ey1, Ey2.
    destruct (Q.max_spec 0 (this g1 * this k - this K)) as [[A1 B1]|[A1 B1]],
             (Q.max_spec 0 (this g2 * this k - this K)) as [[A2 B2]|[A2 B2]];
      rewrite B1, B2; lra. }
  assert (R : inject_Z (cents x1 + -3) < inject_Z (cents x2)).
  { rewrite inject_Z_plus. change (inject_Z (-3)) with (-3 # 1)%Q.
    rewrite Ex1 in Ux1. rewrite Ex2 in Lx2. lra. }
  rewrite <- Zlt_Qlt in R. lia.
Qed.

End Monotonicity.

Section WithinBand.

Lemma mul_Fin (a b : Qc) : Fin a * Fin b = Fin (a * b).
Proof. reflexivity. Qed.

Lemma sub_Fin (a b : Qc) : Fin a - Fin b = Fin (a - b).
Proof. reflexivity. Qed.

Lemma isInteger_Fin (x : number) : isInteger x = true -> exists q, x = Fin q.
Proof. destruct x; try discriminate. eauto. Qed.

(** The net salary of a result, in cents, when the band has a finite rate,
    a literal finite deduction and a finite amount per dependent. *)
Lemma netSalary_cents (data : IrsDataset) (input : IrsInput) (g : Qc)
    (r : IrsResult) (rt ded apd s : Qc) :
  calculate (Some data) (withGross input (Fin g)) = Ok r ->
  rate (band r) = Fin rt ->
  deduction (band r) = DNumber (Fin ded) ->
  additionalPerDependent (band r) ?? ofZ 0 = Fin apd ->
  socialSecurityRate input ?? num 0.11 = Fin s ->
  exists d y x : Qc,
    dependents input = Fin d
    /\ this y == Qmax 0 (this g * this rt - this (ded + apd * d)%Qc)
    /\ this x == this g - (cents y # 100) - (cents (g * s)%Qc # 100)
    /\ netSalary r = num (cents x # 100).
Proof.
  intros E Er Ed Ea Es.
  destruct (calculate_Ok_inv data _ r E)
    as ((_ & (Di & _) & _) & table & dd & _ & R & W & S & N).
  cbn [withGross grossSalary dependents socialSecurityRate] in *.
  destruct (isInteger_Fin _ Di) as [d Hd].
  rewrite Ed in R. cbn [resolveDeduction] in R. injection R as <-.
  rewrite Er, Ea, Hd, !mul_Fin, !sub_Fin in W.
  rewrite Es, mul_Fin, round2_Fin in S.
  unfold ofZ in W. rewrite max_Fin in W.
  set (raw := (g * rt - ded - apd * d)%Qc) in W.
  exists d.
  set (y := if Qc_ltb (Q2Qc (inject_Z 0)) raw then raw else Q2Qc (inject_Z 0)).
  exists y, (g - Q2Qc (cents y # 100) - Q2Qc (cents (g * s) # 100))%Qc.
  split; [exact Hd|]. split; [|split].
  - subst y. destruct (Qc_ltb (Q2Qc (inject_Z 0)) raw) eqn:P.
    + apply Qc_ltb_lt in P. subst raw. to_Q_in P. to_Q. q_consts.
      rewrite Q.max_r; lra.
    + apply Qc_ltb_ge in P. subst raw. to_Q_in P. to_Q. q_consts.
      rewrite Q.max_l; lra.
  - to_Q. reflexivity.
  - rewrite N, W, S.
    replace (if Qc_ltb (Q2Qc (inject_Z 0)) raw then Fin raw
             else Fin (Q2Qc (inject_Z 0)))
      with (Fin y) by (subst y; destruct (Qc_ltb _ _); reflexivity).
    rewrite round2_Fin. unfold num. rewrite !sub_Fin, round2_Fin.
    reflexivity.
Qed.

End WithinBand.

(** ** Net salary against gross salary inside a band, on binary64 numbers *)

Section WithinBand64.

Lemma sub_Fin64 (a b : Qc) : Fin a -! Fin b = B64.round64 (Fin (a - b)).
Proof. reflexivity. Qed.

(** The error of one operation on numbers of magnitude up to
    2 000 000 000. *)
Lemma op64_close (q : Qc) :
  (- (2000000000 # 1) <= this q)%Q -> (this q <= 2000000000 # 1)%Q ->
  exists q' : Qc,
    B64.round64 (Fin q) = Fin q'
    /\ (this q - (1 # 2000000) <= this q')%Q
    /\ (this q' <= this q + (1 # 2000000))%Q.
Proof.
  intros L U.
  destruct (round64_close q (2000000000 # 1)) as (q' & E & Lo & Hi);
    [lra | vm_compute; discriminate | exact L | exact U |].
  exists q'. split; [exact E|]. split; lra.
Qed.

(** Everything a result holds. *)
Lemma calculate64_Ok (data : IrsDataset) (input : IrsInput) (r : IrsResult) :
  Irs64.calculate (Some data) input = Ok r ->
  validInput input
  /\ exists ded,
       Irs64.resolveDeduction (deduction (band r)) (grossSalary input) = Ok ded
       /\ irsWithheld r
          = Irs64.round2
              (max (ofZ 0)
                 (grossSalary input *! rate (band r) -! ded
                  -! (additionalPerDependent (band r) ?? ofZ 0)
                     *! dependents input))
       /\ socialSecurity r
          = Irs64.round2
              (grossSalary input *! (socialSecurityRate input ?? B64.lit 0.11))
       /\ netSalary r
          = Irs64.round2
              (grossSalary input -! irsWithheld r -! socialSecurity r).
Proof.
  unfold Irs64.calculate. intro E.
  destruct ((grossSalary input <=? ofZ 0) || negb (isFinite (grossSalary input)))
    eqn:G; [discriminate|].
  destruct ((dependents input <? ofZ 0) || negb (isInteger (dependents input)))
    eqn:D; [discriminate|].
  destruct (location input) eqn:L; try discriminate.
  destruct (find _ _) as [table|]; [|discriminate].
  destruct (Irs64.pickBand _ _) as [b|]; [|discriminate]. cbn [bind] in E.
  destruct (Irs64.resolveDeduction _ _) as [ded|] eqn:R; [|discriminate].
  cbn [bind] in E. injection E as <-.
  cbn [band irsWithheld socialSecurity netSalary].
  split.
  - repeat split; try apply gross_check, G; try apply dependents_check, D.
    exact L.
  - exists ded. repeat split. exact R.
Qed.

(** The deduction of a band at a gross salary [g]: within a millionth of
    [d0 - A * g]. *)
Lemma deduction64_affine (d : Deduction) (A d0 g : Qc) :
  affineDeduction d A d0 ->
  (0 <= this g)%Q -> (this g <= 100000000 # 1)%Q ->
  exists ded : Qc,
    Irs64.resolveDeduction d (Fin g) = Ok (Fin ded)
    /\ (this d0 - this A * this g - (1 # 1000000) <= this ded)%Q
    /\ (this ded <= this d0 - this A * this g + (1 # 1000000))%Q
    /\ (- (300000000 # 1) <= this ded)%Q /\ (this ded <= 300000000 # 1)%Q.
Proof.
  intros H G0 G1. destruct d as [n|e]; cbn [affineDeduction] in H.
  - destruct H as (-> & -> & L & U). exists d0. split; [reflexivity|].
    rewrite this_Q2Qc. repeat split; lra.
  - destruct H as (m1 & m2 & m3 & a & b & c & M & Na & Nb & Nc & P & -> & A0
                   & A1 & L & U).
    rewrite (resolveDeduction64_match e m1 m2 m3 (Fin g) M), Na, Nb, Nc, P.
    cbn [forallb isFinite andb]. rewrite sub_Fin64.
    destruct (op64_close (c - g)) as (c' & -> & Lc & Uc);
      [to_Q; lra | to_Q; lra |].
    to_Q_in Lc. to_Q_in Uc. rewrite mul_Fin64.
    assert (X : (this A * this c'
                 == this A * (this c - this g)
                    + this A * (this c' - (this c - this g)))%Q) by ring.
    assert (X1 : (this A * (this c' - (this c - this g)) <= 1 # 2000000)%Q)
      by nra.
    assert (X2 : (- (1 # 2000000) <= this A * (this c' - (this c - this g)))%Q)
      by nra.
    assert (Y1 : (this A * (this c - this g) <= 200000000 # 1)%Q) by nra.
    assert (Y2 : (- (200000000 # 1) <= this A * (this c - this g))%Q) by nra.
    assert (Z : (this A * (this c - this g)
                 == this A * this c - this A * this g)%Q) by ring.
    destruct (op64_close (A * c')) as (ded & -> & Ld & Ud);
      [to_Q; lra | to_Q; lra |].
    to_Q_in Ld. to_Q_in Ud.
    exists ded. split; [reflexivity|]. to_Q.
    set (p1 := (this A * this c')%Q) in *.
    set (p2 := (this A * (this c - this g))%Q) in *.
    set (p3 := (this A * (this c' - (this c - this g)))%Q) in *.
    set (p4 := (this A * this c)%Q) in *.
    set (p5 := (this A * this g)%Q) in *.
    clearbody p1 p2 p3 p4 p5. repeat split; lra.
Qed.


(** The withheld tax in cents, against the exact raw tax [x]. *)
Lemma withheld64_cents (g rt ded t : Qc) (x : Q) :
  (0 <= this g)%Q -> (this g <= 100000000 # 1)%Q ->
  (0 <= this rt)%Q -> (this rt <= 1)%Q ->
  (- (300000000 # 1) <= this ded)%Q -> (this ded <= 300000000 # 1)%Q ->
  (- (100000000 # 1) <= this t)%Q -> (this t <= 100000000 # 1)%Q ->
  (x - (1 # 1000000) <= this g * this rt - this ded - this t)%Q ->
  (this g * this rt - this ded - this t <= x + (1 # 1000000))%Q ->
  exists (k : Z) (w : Qc) (mu : Q),
    Irs64.round2 (max (ofZ 0) (Fin g *! Fin rt -! Fin ded -! Fin t)) = Fin w
    /\ (inject_Z k * (1 # 100) - (1 # 1000000) <= this w)%Q
    /\ (this w <= inject_Z k * (1 # 100) + (1 # 1000000))%Q
    /\ (0 <= mu)%Q /\ (x <= mu)%Q /\ (mu == 0 \/ mu == x)%Q
    /\ ((100 # 1) * mu - (502 # 1000) <= inject_Z k)%Q
    /\ (inject_Z k <= (100 # 1) * mu + (502 # 1000))%Q.
Proof.
  intros G0 G1 R0 R1 D0 D1 T0 T1 X0 X1.
  assert (P0 : (0 <= this g * this rt)%Q) by nra.
  assert (P1 : (this g * this rt <= 100000000 # 1)%Q) by nra.
  rewrite mul_Fin64.
  destruct (op64_close (g * rt)) as (p & -> & Lp & Up);
    [to_Q; lra | to_Q; lra |].
  to_Q_in Lp. to_Q_in Up. rewrite sub_Fin64.
  destruct (op64_close (p - ded)) as (q & -> & Lq & Uq);
    [to_Q; lra | to_Q; lra |].
  to_Q_in Lq. to_Q_in Uq. rewrite sub_Fin64.
  destruct (op64_close (q - t)) as (raw & -> & Lr & Ur);
    [to_Q; lra | to_Q; lra |].
  to_Q_in Lr. to_Q_in Ur.
  set (gr := (this g * this rt)%Q) in *. clearbody gr.
  set (mu := if Qlt_le_dec 0 x then x else 0%Q).
  assert (M0 : (0 <= mu)%Q) by (subst mu; destruct (Qlt_le_dec 0 x); lra).
  assert (M1 : (x <= mu)%Q) by (subst mu; destruct (Qlt_le_dec 0 x); lra).
  assert (M2 : (mu == 0 \/ mu == x)%Q)
    by (subst mu; destruct (Qlt_le_dec 0 x); [right | left]; reflexivity).
  unfold ofZ. rewrite max_Fin.
  destruct (Qc_ltb (Q2Qc (inject_Z 0)) raw) eqn:C.
  - apply Qc_ltb_lt in C. to_Q_in C. q_consts.
    destruct (round2_64_value raw) as (k & w & E & _ & Kl & Ku & Wl & Wu);
      [lra | lra |].
    exists k, w, mu. rewrite E.
    set (K := inject_Z k) in *. clearbody K.
    assert (A1 : (raw - mu <= 3 # 1000000)%Q)
      by (subst mu; destruct (Qlt_le_dec 0 x); lra).
    assert (A2 : (mu - raw <= 3 # 1000000)%Q)
      by (subst mu; destruct (Qlt_le_dec 0 x); lra).
    clearbody mu. repeat split; try assumption; try reflexivity; lra.
  - apply Qc_ltb_ge in C. to_Q_in C. q_consts.
    destruct (round2_64_value (Q2Qc (inject_Z 0)))
      as (k & w & E & _ & Kl & Ku & Wl & Wu);
      [to_Q; q_consts; lra | to_Q; q_consts; lra |].
    to_Q_in Kl. to_Q_in Ku. q_consts.
    exists k, w, mu. rewrite E.
    set (K := inject_Z k) in *. clearbody K.
    assert (A1 : (mu <= 3 # 1000000)%Q)
      by (subst mu; destruct (Qlt_le_dec 0 x); lra).
    clearbody mu. repeat split; try assumption; try reflexivity; lra.
Qed.

(** The social security in cents. *)
Lemma social64_cents (g st : Qc) :
  (0 <= this g)%Q -> (this g <= 100000000 # 1)%Q ->
  (0 <= this st)%Q -> (this st <= 1)%Q ->
  exists (k : Z) (w : Qc),
    Irs64.round2 (Fin g *! Fin st) = Fin w
    /\ (inject_Z k * (1 # 100) - (1 # 1000000) <= this w)%Q
    /\ (this w <= inject_Z k * (1 # 100) + (1 # 1000000))%Q
    /\ ((100 # 1) * (this g * this st) - (502 # 1000) <= inject_Z k)%Q
    /\ (inject_Z k <= (100 # 1) * (this g * this st) + (502 # 1000))%Q.
Proof.
  intros G0 G1 S0 S1.
  assert (P0 : (0 <= this g * this st)%Q) by nra.
  assert (P1 : (this g * this st <= 100000000 # 1)%Q) by nra.
  rewrite mul_Fin64.
  destruct (op64_close (g * st)) as (p & -> & Lp & Up);
    [to_Q; lra | to_Q; lra |].
  to_Q_in Lp. to_Q_in Up.
  set (gs := (this g * this st)%Q) in *. clearbody gs.
  destruct (round2_64_value p) as (k & w & E & _ & Kl & Ku & Wl & Wu);
    [lra | lra |].
  exists k, w. rewrite E.
  set (K := inject_Z k) in *. clearbody K.
  repeat split; try assumption; try reflexivity; lra.
Qed.

(** The net salary in cents. *)
Lemma net64_cents (g w s : Qc) :
  (0 <= this g)%Q -> (this g <= 100000000 # 1)%Q ->
  (- (700000000 # 1) <= this w)%Q -> (this w <= 700000000 # 1)%Q ->
  (- (700000000 # 1) <= this s)%Q -> (this s <= 700000000 # 1)%Q ->
  exists (k : Z),
    Irs64.round2 (Fin g -! Fin w -! Fin s) = B64.lit (k # 100)
    /\ ((100 # 1) * (this g - this w - this s) - (502 # 1000)
        <= inject_Z k)%Q
    /\ (inject_Z k
        <= (100 # 1) * (this g - this w - this s) + (502 # 1000))%Q.
Proof.
  intros G0 G1 W0 W1 S0 S1. rewrite sub_Fin64.
  destruct (op64_close (g - w)) as (p & -> & Lp & Up);
    [to_Q; lra | to_Q; lra |].
  to_Q_in Lp. to_Q_in Up. rewrite sub_Fin64.
  destruct (op64_close (p - s)) as (y & -> & Ly & Uy);
    [to_Q; lra | to_Q; lra |].
  to_Q_in Ly. to_Q_in Uy.
  destruct (round2_64_value y) as (k & n & E & En & Kl & Ku & _);
    [lra | lra |].
  exists k. rewrite E, En.
  set (K := inject_Z k) in *. clearbody K.
  repeat split; lra.
Qed.

End WithinBand64.

Section ThreeCents.

Lemma affineDeduction_bounds (d : Deduction) (A d0 : Qc) :
  affineDeduction d A d0 ->
  (0 <= this A)%Q /\ (this A <= 1)%Q
  /\ (- (100000000 # 1) <= this d0)%Q /\ (this d0 <= 100000000 # 1)%Q.
Proof.
  destruct d as [n|e]; cbn [affineDeduction].
  - intros (_ & -> & L & U). rewrite this_Q2Qc. repeat split; lra.
  - intros (m1 & m2 & m3 & a & b & c & _ & _ & _ & _ & _ & -> & A0 & A1
            & L & U).
    to_Q. repeat split; try assumption; nra.
Qed.

(** From a product of two positive differences. *)
Lemma slope_facts (g1 g2 rt A st : Q) :
  (g1 < g2)%Q -> (0 <= rt)%Q -> (0 <= A)%Q -> (0 <= st)%Q ->
  (rt + A + st <= 1)%Q ->
  (0 <= g2 * rt - g1 * rt + (A * g2 - A * g1))%Q
  /\ (0 <= g2 * st - g1 * st)%Q
  /\ (g2 * rt - g1 * rt + (A * g2 - A * g1) + (g2 * st - g1 * st)
      <= g2 - g1)%Q.
Proof. intros. repeat split; nra. Qed.

Lemma share_bounds (g x M : Q) :
  (0 <= g)%Q -> (g <= M)%Q -> (0 <= x)%Q -> (x <= 1)%Q ->
  (0 <= g * x)%Q /\ (g * x <= M)%Q.
Proof. intros. split; nra. Qed.

End ThreeCents.

(** C9, as binary64 arithmetic has it.  For a fixed dataset, marital
    status, dependents, disability flag and social-security rate [s], and
    two valid gross salaries [g1 < g2] up to 100 000 000 that select the
    same band: when the band has a rate [r >= 0] and a deduction that is a
    literal (then [A = 0]) or a formula [a*b*(c-R)] with [A = a*b]
    between 0 and 1, the amounts being bounded by 100 000 000, and
    [r + A + s <= 1] with [s >= 0], the two net salaries are whole numbers
    of cents and the one at [g2] is at most three cents below the one at
    [g1]. *)
Theorem net_salary_within_band (data : IrsDataset) (input : IrsInput)
    (g1 g2 : Qc) (r1 r2 : IrsResult) (rt st A d0 t : Qc) :
  Irs64.calculate (Some data) (withGross input (Fin g1)) = Ok r1 ->
  Irs64.calculate (Some data) (withGross input (Fin g2)) = Ok r2 ->
  band r1 = band r2 ->
  (this g1 < this g2)%Q -> (this g2 <= 100000000 # 1)%Q ->
  rate (band r1) = Fin rt -> (0 <= this rt)%Q ->
  affineDeduction (deduction (band r1)) A d0 ->
  (additionalPerDependent (band r1) ?? ofZ 0) *! dependents input = Fin t ->
  (- (100000000 # 1) <= this t)%Q -> (this t <= 100000000 # 1)%Q ->
  socialSecurityRate input ?? B64.lit 0.11 = Fin st -> (0 <= this st)%Q ->
  (this rt + this A + this st <= 1)%Q ->
  exists k1 k2 : Z,
    netSalary r1 = B64.lit (k1 # 100)
    /\ netSalary r2 = B64.lit (k2 # 100)
    /\ (k1 - 3 <= k2)%Z.
Proof.
  intros E1 E2 Hb Hg G2 Hr R0 Hd Ht T0 T1 Hs S0 Sum.
  destruct (affineDeduction_bounds _ _ _ Hd) as (A0 & A1 & D0 & D1).
  destruct (calculate64_Ok _ _ _ E1)
    as (((_ & P1) & _) & ded1 & Rd1 & W1 & Ss1 & N1).
  destruct (calculate64_Ok _ _ _ E2) as (_ & ded2 & Rd2 & W2 & Ss2 & N2).
  rewrite <- Hb in Rd2, W2.
  cbn [withGross grossSalary dependents socialSecurityRate] in *.
  assert (G0 : (0 < this g1)%Q).
  { cbn [ltb ofZ] in P1. apply Qc_ltb_lt in P1. to_Q_in P1. exact P1. }
  destruct (deduction64_affine _ A d0 g1 Hd) as (q1 & Q1 & Lq1 & Uq1 & Bl1 & Bu1);
    [lra | lra |].
  destruct (deduction64_affine _ A d0 g2 Hd) as (q2 & Q2 & Lq2 & Uq2 & Bl2 & Bu2);
    [lra | lra |].
  rewrite Q1 in Rd1. injection Rd1 as <-.
  rewrite Q2 in Rd2. injection Rd2 as <-.
  rewrite Hr, Ht in W1, W2. rewrite Hs in Ss1, Ss2.
  destruct (slope_facts (this g1) (this g2) (this rt) (this A) (this st))
    as (F1 & F2 & F3); try assumption.
  destruct (share_bounds (this g1) (this rt + this A) (100000000 # 1))
    as (Xa1 & Xb1); [lra | lra | lra | lra |].
  destruct (share_bounds (this g2) (this rt + this A) (100000000 # 1))
    as (Xa2 & Xb2); [lra | lra | lra | lra |].
  destruct (share_bounds (this g1) (this rt) (100000000 # 1))
    as (Ra1 & Rb1); [lra | lra | lra | lra |].
  destruct (share_bounds (this g2) (this rt) (100000000 # 1))
    as (Ra2 & Rb2); [lra | lra | lra | lra |].
  destruct (share_bounds (this g1) (this st) (100000000 # 1))
    as (Ya1 & Yb1); [lra | lra | lra | lra |].
  destruct (share_bounds (this g2) (this st) (100000000 # 1))
    as (Ya2 & Yb2); [lra | lra | lra | lra |].
  assert (Z1 : (this g1 * (this rt + this A)
                == this g1 * this rt + this A * this g1)%Q) by ring.
  assert (Z2 : (this g2 * (this rt + this A)
                == this g2 * this rt + this A * this g2)%Q) by ring.
  rewrite Z1 in Xa1, Xb1. rewrite Z2 in Xa2, Xb2. clear Z1 Z2.
  destruct (withheld64_cents g1 rt q1 t
              (this g1 * this rt + this A * this g1 - this d0 - this t))
    as (kw1 & w1 & mu1 & Ew1 & Wl1 & Wu1 & M01 & Mx1 & Mc1 & Kl1 & Ku1);
    [lra | lra | lra | lra | lra | lra | lra | lra | lra | lra |].
  destruct (withheld64_cents g2 rt q2 t
              (this g2 * this rt + this A * this g2 - this d0 - this t))
    as (kw2 & w2 & mu2 & Ew2 & Wl2 & Wu2 & M02 & Mx2 & Mc2 & Kl2 & Ku2);
    [lra | lra | lra | lra | lra | lra | lra | lra | lra | lra |].
  destruct (social64_cents g1 st) as (ks1 & s1 & Es1 & Sl1 & Su1 & Cl1 & Cu1);
    [lra | lra | lra | lra |].
  destruct (social64_cents g2 st) as (ks2 & s2 & Es2 & Sl2 & Su2 & Cl2 & Cu2);
    [lra | lra | lra | lra |].
  rewrite Ew1 in W1. rewrite Ew2 in W2. rewrite Es1 in Ss1. rewrite Es2 in Ss2.
  rewrite W1, Ss1 in N1. rewrite W2, Ss2 in N2.
  set (a1 := (this g1 * this rt)%Q) in *. set (a2 := (this g2 * this rt)%Q) in *.
  set (b1 := (this A * this g1)%Q) in *. set (b2 := (this A * this g2)%Q) in *.
  set (c1 := (this g1 * this st)%Q) in *. set (c2 := (this g2 * this st)%Q) in *.
  set (Kw1 := inject_Z kw1) in *. set (Kw2 := inject_Z kw2) in *.
  set (Ks1 := inject_Z ks1) in *. set (Ks2 := inject_Z ks2) in *.
  clearbody a1 a2 b1 b2 c1 c2 Kw1 Kw2 Ks1 Ks2.
  assert (Mu : (mu2 - mu1 <= a2 - a1 + (b2 - b1))%Q)
    by (destruct Mc2 as [Z2 | Z2]; rewrite Z2 in *; lra).
  assert (Mb1 : (mu1 <= 300000000 # 1)%Q)
    by (destruct Mc1 as [Z1 | Z1]; rewrite Z1; lra).
  assert (Mb2 : (mu2 <= 300000000 # 1)%Q)
    by (destruct Mc2 as [Z2 | Z2]; rewrite Z2; lra).
  destruct (net64_cents g1 w1 s1) as (k1 & En1 & Nl1 & Nu1);
    [lra | lra | lra | lra | lra | lra |].
  destruct (net64_cents g2 w2 s2) as (k2 & En2 & Nl2 & Nu2);
    [lra | lra | lra | lra | lra | lra |].
  exists k1, k2. split; [congruence|]. split; [congruence|].
  assert (H : (inject_Z (k1 - 4) < inject_Z k2)%Q).
  { replace (k1 - 4)%Z with (k1 + -4)%Z by lia. rewrite inject_Z_plus.
    change (inject_Z (-4)) with (-4 # 1)%Q.
    set (K1 := inject_Z k1) in *. set (K2 := inject_Z k2) in *.
    clearbody K1 K2. lra. }
  rewrite <- Zlt_Qlt in H. lia.
Qed.

(** On the dataset of the unit tests: 1100.22 and 1100.23 in the band of
    rate 0.2 and literal deduction 100, and 921.405 and 921.414 in the
    band of rate 0.125 and deduction [0.125 * 2.60 * (1273.85 - R)]; social
    security 0.11. *)
Lemma net_salary_within_band_witness :
  (exists r1 r2 k1 k2,
     Irs64.calculate (Some mockDataset64) (irsInput64 1100.22 single 0) = Ok r1
     /\ Irs64.calculate (Some mockDataset64) (irsInput64 1100.23 single 0)
        = Ok r2
     /\ netSalary r1 = B64.lit (k1 # 100)
     /\ netSalary r2 = B64.lit (k2 # 100)
     /\ (k1 - 3 <= k2)%Z)
  /\ (exists r1 r2 k1 k2,
        Irs64.calculate (Some mockDataset64) (irsInput64 921.405 single 0)
        = Ok r1
        /\ Irs64.calculate (Some mockDataset64) (irsInput64 921.414 single 0)
           = Ok r2
        /\ deduction (band r1)
           = DFormula (utf16 "0.125 * 2.60 * (1273.85 - R)")
        /\ netSalary r1 = B64.lit (k1 # 100)
        /\ netSalary r2 = B64.lit (k2 # 100)
        /\ (k1 - 3 <= k2)%Z).
Proof.
  split.
  - destruct (Irs64.calculate (Some mockDataset64)
                (irsInput64 1100.22 single 0))
      as [r1|e] eqn:E1; [|vm_compute in E1; discriminate].
    destruct (Irs64.calculate (Some mockDataset64)
                (irsInput64 1100.23 single 0))
      as [r2|e] eqn:E2; [|vm_compute in E2; discriminate].
    pose proof E1 as V1. pose proof E2 as V2.
    vm_compute in V1, V2. injection V1 as V1. injection V2 as V2.
    destruct (net_salary_within_band mockDataset64
                (irsInput64 1100.22 single 0)
                (valueOf (B64.lit 1100.22)) (valueOf (B64.lit 1100.23)) r1 r2
                (valueOf (B64.lit 0.2)) (valueOf (B64.lit 0.11))
                (Q2Qc 0) (Q2Qc 100) (Q2Qc 0)) as (k1 & k2 & H).
    + exact E1.
    + exact E2.
    + rewrite <- V1, <- V2. reflexivity.
    + vm_compute. reflexivity.
    + vm_compute. discriminate.
    + rewrite <- V1. vm_compute. apply Fin_eq. reflexivity.
    + vm_compute. discriminate.
    + rewrite <- V1. cbn [band deduction affineDeduction].
      split; [apply Fin_eq; reflexivity|]. split; [reflexivity|].
      split; vm_compute; discriminate.
    + rewrite <- V1. vm_compute. apply Fin_eq. reflexivity.
    + vm_compute. discriminate.
    + vm_compute. discriminate.
    + vm_compute. apply Fin_eq. reflexivity.
    + vm_compute. discriminate.
    + vm_compute. discriminate.
    + exists r1, r2, k1, k2.
      split; [reflexivity|]. split; [reflexivity|]. exact H.
  - destruct (Irs64.calculate (Some mockDataset64)
                (irsInput64 921.405 single 0))
      as [r1|e] eqn:E1; [|vm_compute in E1; discriminate].
    destruct (Irs64.calculate (Some mockDataset64)
                (irsInput64 921.414 single 0))
      as [r2|e] eqn:E2; [|vm_compute in E2; discriminate].
    pose proof E1 as V1. pose proof E2 as V2.
    vm_compute in V1, V2. injection V1 as V1. injection V2 as V2.
    set (A := valueOf (B64.lit 0.125 *! B64.lit 2.60)).
    set (c := valueOf (B64.lit 1273.85)).
    destruct (net_salary_within_band mockDataset64
                (irsInput64 921.405 single 0)
                (valueOf (B64.lit 921.405)) (valueOf (B64.lit 921.414)) r1 r2
                (valueOf (B64.lit 0.125)) (valueOf (B64.lit 0.11))
                A (A * c)%Qc (Q2Qc 0)) as (k1 & k2 & H).
    + exact E1.
    + exact E2.
    + rewrite <- V1, <- V2. reflexivity.
    + vm_compute. reflexivity.
    + vm_compute. discriminate.
    + rewrite <- V1. vm_compute. apply Fin_eq. reflexivity.
    + vm_compute. discriminate.
    + rewrite <- V1. cbn [band deduction affineDeduction].
      exists (utf16 "0.125"), (utf16 "2.60"), (utf16 "1273.85"),
        (valueOf (B64.lit 0.125)), (valueOf (B64.lit 2.60)), c.
      split; [apply matchFormula_iff; vm_compute; reflexivity|].
      split; [vm_compute; apply Fin_eq; reflexivity|].
      split; [vm_compute; apply Fin_eq; reflexivity|].
      split; [vm_compute; apply Fin_eq; reflexivity|].
      split; [vm_compute; apply Fin_eq; reflexivity|].
      split; [reflexivity|].
      repeat split; vm_compute; discriminate.
    + rewrite <- V1. vm_compute. apply Fin_eq. reflexivity.
    + vm_compute. discriminate.
    + vm_compute. discriminate.
    + vm_compute. apply Fin_eq. reflexivity.
    + vm_compute. discriminate.
    + vm_compute. discriminate.
    + exists r1, r2, k1, k2.
      split; [reflexivity|]. split; [reflexivity|].
      split; [rewrite <- V1; reflexivity | exact H].
Defined.

(** Inside one band a higher gross salary can have a lower net salary.
    On the dataset of the unit tests 1100.22 gives 859.16 and 1100.23
    gives 859.15: the withheld tax and the social security each rise by a
    cent while the gross salary rises by one.  And the bound of three
    cents is reached: with a rate of 20 %, no deduction and a
    social-security rate of 20 %, the binary64 number just below 40.625
    gives 24.39 and 40.625 gives 24.36. *)
Lemma net_salary_decreases_within_band :
  (exists r1 r2,
     Irs64.calculate (Some mockDataset64) (irsInput64 1100.22 single 0) = Ok r1
     /\ Irs64.calculate (Some mockDataset64) (irsInput64 1100.23 single 0)
        = Ok r2
     /\ tableId r1 = tableId r2
     /\ band r1 = band r2
     /\ netSalary r1 = B64.lit 859.16
     /\ netSalary r2 = B64.lit 859.15
     /\ (netSalary r2 <? netSalary r1) = true)
  /\ (exists r1 r2,
        (B64.lit 40.62499999999999 <? B64.lit 40.625) = true
        /\ Irs64.calculate (Some flatDataset)
             (flatInput (B64.lit 40.62499999999999)) = Ok r1
        /\ Irs64.calculate (Some flatDataset) (flatInput (B64.lit 40.625))
           = Ok r2
        /\ tableId r1 = tableId r2
        /\ band r1 = band r2
        /\ netSalary r1 = B64.lit 24.39
        /\ netSalary r2 = B64.lit 24.36).
Proof.
  split.
  - eexists. eexists.
    split; [vm_compute; reflexivity|]. split; [vm_compute; reflexivity|].
    cbn [tableId band netSalary].
    split; [reflexivity|]. split; [reflexivity|].
    split; [vm_compute; apply Fin_eq; reflexivity|].
    split; [vm_compute; apply Fin_eq; reflexivity|].
    vm_compute. reflexivity.
  - eexists. eexists. split; [vm_compute; reflexivity|].
    split; [vm_compute; reflexivity|]. split; [vm_compute; reflexivity|].
    cbn [tableId band netSalary].
    split; [reflexivity|]. split; [reflexivity|].
    split; vm_compute; apply Fin_eq; reflexivity.
Qed.

(** * Further properties *)

(** ** Rounding *)

Section RoundingFacts.

Lemma Qfloor_unique (x : Q) (k : Z) :
  (inject_Z k <= x)%Q -> (x < inject_Z (k + 1))%Q -> Qfloor x = k.
Proof.
  intros L U.
  pose proof (Qfloor_le x) as Fl. pose proof (Qlt_floor x) as Fu.
  assert (A : (inject_Z (Qfloor x) < inject_Z (k + 1))%Q) by lra.
  assert (B : (inject_Z k < inject_Z (Qfloor x + 1))%Q) by lra.
  rewrite <- Zlt_Qlt in A, B. lia.
Qed.

(** A whole number of cents rounds to itself. *)
Lemma cents_of_cents (k : Z) : cents (Q2Qc (k # 100)) = k.
Proof.
  unfold cents. apply Qfloor_unique.
  - to_Q. q_consts.
    assert (E : (k # 100) * (100 # 1) == inject_Z k)
      by (unfold Qeq, Qmult, inject_Z; simpl; ring).
    lra.
  - to_Q. q_consts. rewrite inject_Z_plus. change (inject_Z 1) with 1%Q.
    assert (E : (k # 100) * (100 # 1) == inject_Z k)
      by (unfold Qeq, Qmult, inject_Z; simpl; ring).
    lra.
Qed.

Lemma round2_idempotent (x : number) : round2 (round2 x) = round2 x.
Proof.
  destruct x as [q| | |]; try reflexivity.
  rewrite round2_Fin. unfold num. rewrite round2_Fin, cents_of_cents.
  reflexivity.
Qed.

Lemma round2_monotone (x y : number) :
  (x <=? y) = true -> (round2 x <=? round2 y) = true.
Proof.
  destruct x as [p| | |], y as [q| | |]; try discriminate;
    try rewrite !round2_Fin; try reflexivity.
  cbn [leb]. unfold num. cbn [leb]. rewrite !Qc_leb_le. intro H.
  apply cents_mono in H. to_Q. unfold Qle. simpl. lia.
Qed.

End RoundingFacts.

(** ** Rounding twice *)

Section RoundingTwice64.

Lemma round2_64_idempotent (q : Qc) :
  (- (1000000000 # 1) <= this q)%Q -> (this q <= 1000000000 # 1)%Q ->
  Irs64.round2 (Irs64.round2 (Fin q)) = Irs64.round2 (Fin q).
Proof.
  intros L U.
  destruct (round2_64_value q) as (k & w & E & Ew & Kl & Ku & Wl & Wu);
    [lra | lra |].
  rewrite E.
  destruct (round2_64_value w) as (k' & w' & E' & Ew' & Kl' & Ku' & _).
  { set (K := inject_Z k) in *. clearbody K. lra. }
  { set (K := inject_Z k) in *. clearbody K. lra. }
  rewrite E', Ew', Ew.
  assert (H : k' = k).
  { assert (A : (inject_Z k' < inject_Z (k + 1))%Q).
    { rewrite inject_Z_plus. change (inject_Z 1) with 1%Q.
      set (K := inject_Z k) in *. set (K' := inject_Z k') in *.
      clearbody K K'. lra. }
    assert (B : (inject_Z k < inject_Z (k' + 1))%Q).
    { rewrite inject_Z_plus. change (inject_Z 1) with 1%Q.
      set (K := inject_Z k) in *. set (K' := inject_Z k') in *.
      clearbody K K'. lra. }
    rewrite <- Zlt_Qlt in A, B. lia. }
  rewrite H. reflexivity.
Qed.

End RoundingTwice64.

(** X1.  On binary64 numbers [round2] never reverses the order of two
    numbers, whatever they are; and rounding twice is rounding once for a
    number of magnitude up to 1 000 000 000, but not for every number:
    36995810098358.516 rounds to 36995810098358.52 and that to
    36995810098358.53. *)
Theorem round2_idempotent_monotone :
  (forall x y, (x <=? y) = true -> (Irs64.round2 x <=? Irs64.round2 y) = true)
  /\ (forall q : Qc,
        (- (1000000000 # 1) <= this q)%Q -> (this q <= 1000000000 # 1)%Q ->
        Irs64.round2 (Irs64.round2 (Fin q)) = Irs64.round2 (Fin q))
  /\ (let x := B64.lit 36995810098358.516 in
      Irs64.round2 x = B64.lit 36995810098358.52
      /\ Irs64.round2 (Irs64.round2 x) = B64.lit 36995810098358.53
      /\ Irs64.round2 (Irs64.round2 x) <> Irs64.round2 x).
Proof.
  split; [exact round2_64_monotone|]. split; [exact round2_64_idempotent|].
  intro x. repeat split; vm_compute; try discriminate; apply Fin_eq; reflexivity.
Qed.

Lemma round2_idempotent_monotone_witness :
  (B64.lit 4.015 <=? B64.lit 135.795) = true
  /\ (Irs64.round2 (B64.lit 4.015) <=? Irs64.round2 (B64.lit 135.795)) = true.
Proof.
  assert (H : (B64.lit 4.015 <=? B64.lit 135.795) = true)
    by (vm_compute; reflexivity).
  split; [exact H|].
  exact (proj1 round2_idempotent_monotone _ _ H).
Defined.

(** ** Band selection: the tightest band, whatever the order of the table *)

Section BandOrder.

Lemma leb_antisym (x y : number) :
  (x <=? y) = true -> (y <=? x) = true -> x = y.
Proof.
  destruct x as [a| | |], y as [b| | |]; simpl; try discriminate;
    try reflexivity.
  rewrite !Qc_leb_le. intros H1 H2. f_equal. apply Qcle_antisym; assumption.
Qed.

Lemma sorted_after {A} (R : A -> A -> Prop) (l1 l2 : list A) (b : A) :
  StronglySorted R (l1 ++ b :: l2) -> Forall (R b) l2.
Proof.
  induction l1 as [|x l1 IH]; simpl; intro S.
  - apply StronglySorted_inv in S. tauto.
  - apply StronglySorted_inv in S. tauto.
Qed.

(** Two ascending arrangements of the same bands are the same list, when
    no two bands share a key. *)
Lemma sorted_perm_unique (l1 : list Band) :
  forall l2, StronglySorted upToLe l1 -> StronglySorted upToLe l2 ->
  Permutation l1 l2 -> NoDup (map upToKey l1) -> l1 = l2.
Proof.
  induction l1 as [|a l1 IH]; intros l2 S1 S2 P N.
  - apply Permutation_nil in P. congruence.
  - destruct l2 as [|b l2].
    { apply Permutation_sym, Permutation_nil in P. discriminate. }
    apply StronglySorted_inv in S1. destruct S1 as [S1 F1].
    apply StronglySorted_inv in S2. destruct S2 as [S2 F2].
    rewrite Forall_forall in F1, F2.
    simpl in N. apply NoDup_cons_iff in N. destruct N as [Na N].
    assert (E : a = b).
    { assert (Ia : In a (b :: l2))
        by (apply (Permutation_in a P); simpl; auto).
      assert (Ib : In b (a :: l1))
        by (apply (Permutation_in b (Permutation_sym P)); simpl; auto).
      destruct Ia as [Ia | Ia]; [congruence|].
      destruct Ib as [Ib | Ib]; [congruence|].
      exfalso. apply Na.
      rewrite (leb_antisym _ _ (F1 b Ib) (F2 a Ia)).
      apply in_map. exact Ib. }
    subst b. f_equal. apply Permutation_cons_inv in P. auto.
Qed.

Lemma bandCovers_key (g : number) (b : Band) :
  bandCovers g b = true -> (g <=? upToKey b) = true /\ upToLe b b.
Proof.
  unfold bandCovers, upToLe, upToKey.
  destruct (upTo b) as [[q| | |]|]; try discriminate; simpl;
    intro H; (split; [exact H|]); try reflexivity.
  - apply Qc_leb_le. apply Qle_refl.
  - destruct g; discriminate.
Qed.

End BandOrder.

(** X2.  For a table whose [upTo] values are finite numbers, the band
    [pickBand] returns is a band of the table; if it covers the gross
    salary, no covering band of the table has a smaller [upTo]; if it does
    not, it carries [over] and no band of the table covers the gross
    salary. *)
Theorem pickBand_tightest (bands : list Band) (g : number) (b : Band) :
  Forall finiteUpTo bands ->
  pickBand bands g = Ok b ->
  In b bands
  /\ (bandCovers g b = true ->
      forall b', In b' bands -> bandCovers g b' = true -> upToLe b b')
  /\ (bandCovers g b = false ->
      over b <> None /\ forall b', In b' bands -> bandCovers g b' = false).
Proof.
  intros Hfin. unfold pickBand.
  pose proof (sortBy_perm compareUpTo bands) as P.
  pose proof (sortBy_sorted bands Hfin) as S.
  destruct (find (bandCovers g) (sortBy compareUpTo bands)) as [c|] eqn:Fc.
  - intros [= <-]. pose proof (find_some _ _ Fc) as [Ic Cc].
    split; [apply (Permutation_in c (Permutation_sym P)); exact Ic|].
    split; [|congruence].
    intros _ b' Ib' Cb'.
    apply find_FirstSuch in Fc. destruct Fc as (l1 & l2 & E & N & _).
    rewrite E in S. pose proof (sorted_after _ _ _ _ S) as A.
    rewrite Forall_forall in A.
    apply (Permutation_in b' P) in Ib'. rewrite E in Ib'.
    apply in_app_or in Ib'. destruct Ib' as [I1 | [<- | I2]].
    + exfalso. exact (N b' I1 Cb').
    + apply (bandCovers_key g c Cc).
    + exact (A b' I2).
  - destruct (find hasOver (sortBy compareUpTo bands)) as [o|] eqn:Fo;
      [|discriminate].
    intros [= <-]. pose proof (find_some _ _ Fo) as [Io Oo].
    split; [apply (Permutation_in o (Permutation_sym P)); exact Io|].
    rewrite find_None_iff in Fc.
    split.
    + intro Co. rewrite (Fc o Io) in Co. discriminate.
    + intros _. split; [apply hasOver_iff; exact Oo|].
      intros b' Ib'. apply Fc. apply (Permutation_in b' P). exact Ib'.
Qed.

Lemma pickBand_tightest_witness :
  In band1042 [bandOver1042; band1042; band920]
  /\ (bandCovers (num 1000) band1042 = true ->
      forall b', In b' [bandOver1042; band1042; band920] ->
      bandCovers (num 1000) b' = true -> upToLe band1042 b').
Proof.
  assert (F : Forall finiteUpTo [bandOver1042; band1042; band920])
    by (repeat constructor).
  assert (E : pickBand [bandOver1042; band1042; band920] (num 1000)
              = Ok band1042) by (vm_compute; reflexivity).
  destruct (pickBand_tightest _ _ _ F E) as (I & T & _).
  split; [exact I | exact T].
Defined.

(** X3.  The order in which a table lists its bands does not matter: two
    tables with the same bands in a different order select the same band,
    or both fail, for every gross salary, provided the [upTo] values are
    finite numbers and no two bands have the same one (a band without
    [upTo] counting as +Infinity). *)
Theorem pickBand_order_independent (bands bands' : list Band) (g : number) :
  Forall finiteUpTo bands ->
  NoDup (map upToKey bands) ->
  Permutation bands bands' ->
  pickBand bands g = pickBand bands' g.
Proof.
  intros Hfin N P.
  assert (Hfin' : Forall finiteUpTo bands')
    by (apply (Permutation_Forall P); exact Hfin).
  assert (E : sortBy compareUpTo bands = sortBy compareUpTo bands').
  { apply sorted_perm_unique.
    - apply sortBy_sorted; exact Hfin.
    - apply sortBy_sorted; exact Hfin'.
    - rewrite <- (sortBy_perm compareUpTo bands).
      rewrite <- (sortBy_perm compareUpTo bands'). exact P.
    - apply (Permutation_NoDup (l := map upToKey bands)); [|exact N].
      apply Permutation_map. apply sortBy_perm. }
  unfold pickBand. rewrite E. reflexivity.
Qed.

Lemma pickBand_order_independent_witness :
  pickBand [band920; band1042; bandOver1042] (num 921)
  = pickBand [bandOver1042; band920; band1042] (num 921).
Proof.
  apply pickBand_order_independent.
  - repeat constructor.
  - repeat constructor; simpl; intros H;
      repeat (destruct H as [H | H];
              [apply (f_equal toQ) in H; vm_compute in H; discriminate|]);
      try contradiction.
  - apply Permutation_sym.
    apply (perm_trans (perm_swap _ _ _)). apply perm_skip. apply perm_swap.
Defined.

(** ** The three amounts of a result add up *)

Section Conservation.

Lemma round2_finite_cents (x : number) :
  isFinite (round2 x) = true -> exists k : Z, round2 x = num (k # 100).
Proof.
  destruct x as [q| | |]; try discriminate. intros _.
  exists (cents q). apply round2_Fin.
Qed.

Lemma cents_sub (k a b : Z) :
  num (k # 100) - num (a # 100) - num (b # 100) = num ((k - a - b) # 100).
Proof.
  unfold num. rewrite !sub_Fin. apply Fin_eq. to_Q.
  unfold Qeq, Qminus, Qplus, Qopp. simpl. lia.
Qed.

Lemma cents_add (n a b : Z) :
  num (n # 100) + num (a # 100) + num (b # 100) = num ((n + a + b) # 100).
Proof.
  unfold num. cbn [add]. apply Fin_eq. to_Q.
  unfold Qeq, Qplus. simpl. lia.
Qed.

End Conservation.

(*@@X4@@*)


(** X5.  The three outcomes of a formula deduction on binary64 numbers,
    and no other.  With white space removed: it resolves to [v] exactly
    when the expression has the shape [a*b*(c-R)] with [a], [b], [c]
    decimal literals ([digits], [digits.digits], [digits.] or [.digits])
    of finite binary64 values and [v = a * b * (c - R)], each operation
    rounded; it fails with the invalid-numbers error exactly when the shape
    is matched by runs of digits and dots that are not all such literals;
    it fails with the unsupported-formula error exactly when the shape is
    not matched.  A literal of 310 digits overflows and is of the second
    kind. *)
Theorem resolveDeduction_outcomes (e : jsstring) (R : number) :
  (forall v, Irs64.resolveDeduction (DFormula e) R = Ok v <->
     exists m1 m2 m3 a b c,
       MatchesFormula (removeWhitespace e) m1 m2 m3
       /\ FiniteLiteral m1 a /\ FiniteLiteral m2 b /\ FiniteLiteral m3 c
       /\ v = a *! b *! (c -! R))
  /\ (forall err, Irs64.resolveDeduction (DFormula e) R = Err err <->
        (err = UnsupportedFormula e
         /\ ~ exists m1 m2 m3, MatchesFormula (removeWhitespace e) m1 m2 m3)
        \/ (err = InvalidFormulaNumbers e
            /\ exists m1 m2 m3,
                 MatchesFormula (removeWhitespace e) m1 m2 m3
                 /\ ~ (exists a b c, FiniteLiteral m1 a
                         /\ FiniteLiteral m2 b /\ FiniteLiteral m3 c)))
  /\ (let big := utf16 "1" ++ repeat 48%N 309 in
      (exists v, DecimalLiteral big v)
      /\ Irs64.Number big = PosInf
      /\ Irs64.resolveDeduction
           (DFormula (big ++ utf16 "*1*(1-R)")) R
         = Err (InvalidFormulaNumbers (big ++ utf16 "*1*(1-R)"))).
Proof.
  split; [|split].
  - intro v. split.
    + unfold Irs64.resolveDeduction.
      destruct (matchFormula (removeWhitespace e)) as [[[m1 m2] m3]|] eqn:M;
        [|discriminate].
      apply matchFormula_iff in M.
      destruct (forallb isFinite _) eqn:F; cbn [negb]; [|discriminate].
      intros [= <-]. apply all_finite_literals in F.
      destruct F as (a & b & c & La & Lb & Lc).
      exists m1, m2, m3, a, b, c.
      destruct (FiniteLiteral_Number _ _ La) as [-> _].
      destruct (FiniteLiteral_Number _ _ Lb) as [-> _].
      destruct (FiniteLiteral_Number _ _ Lc) as [-> _]. auto 6.
    + intros (m1 & m2 & m3 & a & b & c & M & La & Lb & Lc & ->).
      rewrite (resolveDeduction64_match e m1 m2 m3 R M).
      apply FiniteLiteral_Number in La, Lb, Lc.
      destruct La as [-> Fa], Lb as [-> Fb], Lc as [-> Fc].
      cbn [forallb]. rewrite Fa, Fb, Fc. reflexivity.
  - intro err. split.
    + unfold Irs64.resolveDeduction.
      destruct (matchFormula (removeWhitespace e)) as [[[m1 m2] m3]|] eqn:M.
      * apply matchFormula_iff in M.
        destruct (forallb isFinite _) eqn:F; cbn [negb]; [discriminate|].
        intros [= <-]. right. split; [reflexivity|].
        exists m1, m2, m3. split; [exact M|]. intro L.
        apply all_finite_literals in L. congruence.
      * intros [= <-]. left. split; [reflexivity|].
        apply matchFormula_None, M.
    + intros [[-> N] | [-> (m1 & m2 & m3 & M & N)]].
      * apply matchFormula_None in N. unfold Irs64.resolveDeduction.
        rewrite N. reflexivity.
      * rewrite (resolveDeduction64_match e m1 m2 m3 R M).
        destruct (forallb _ _) eqn:F; [|reflexivity].
        exfalso. apply N, all_finite_literals, F.
  - intro big. split; [|split].
    + eexists. apply DecInteger; [discriminate | reflexivity].
    + vm_compute. reflexivity.
    + unfold Irs64.resolveDeduction.
      replace (matchFormula (removeWhitespace (big ++ utf16 "*1*(1-R)")))
        with (Some (big, utf16 "1", utf16 "1")) by (vm_compute; reflexivity).
      replace (Irs64.Number big) with PosInf by (vm_compute; reflexivity).
      reflexivity.
Qed.

(** ** The reverse solver: where a proposal comes from *)

Section Provenance.

Import Reverse.

Variable data : option IrsDataset.
Variable input : ReverseCalculationInput.

(** A proposal a search returns is the scenario at the midpoint of the
    bounds that 49 iterations leave. *)
Lemma solve_provenance (p : number) (o : option CalculationProposal) :
  solveForAnnualCost data input p = Ok o ->
  exists r bounds,
    o = Some r
    /\ bisect data input p 49 (ofZ 0, ofZ 1000000) = Ok bounds
    /\ calculateOutputs data input (midpoint bounds) p = Ok r.
Proof.
  unfold solveForAnnualCost.
  rewrite (solveLoop_bisect data input p 49 0 (ofZ 0) (ofZ 1000000) None)
    by reflexivity.
  destruct (bisect data input p 49 (ofZ 0, ofZ 1000000)) as [bounds|e];
    [|discriminate].
  cbn [bind].
  destruct (calculateOutputs data input (midpoint bounds) p) as [r|e] eqn:E;
    [|discriminate].
  cbn [bind]. intros [= <-]. exists r, bounds. auto.
Qed.

Lemma solveAll_Forall (P : option CalculationProposal -> Prop)
    (pcts : list Z) :
  forall ps,
  (forall pct o, In pct pcts ->
     solveForAnnualCost data input (flexPctOf pct) = Ok o -> P o) ->
  solveAll data input pcts = Ok ps -> Forall P ps.
Proof.
  induction pcts as [|pct pcts IH]; intros ps H; cbn [solveAll].
  - intros [= <-]. constructor.
  - destruct (solveForAnnualCost data input (flexPctOf pct)) as [o|e] eqn:E;
      [|discriminate].
    cbn [bind].
    destruct (solveAll data input pcts) as [qs|e]; [|discriminate].
    cbn [bind]. intros [= <-]. constructor.
    + apply (H pct); [left; reflexivity | exact E].
    + apply IH; [|reflexivity]. intros q o' Hq. apply H. right. exact Hq.
Qed.

Lemma narrow_bracket (p : number) (bounds bounds' : number * number) :
  narrow data input p bounds = Ok bounds' ->
  bracket data input p bounds -> bracket data input p bounds'.
Proof.
  unfold narrow, bracket.
  destruct (calculateOutputs data input (midpoint bounds) p) as [r|e] eqn:E;
    [|discriminate].
  cbn [bind].
  destruct (totalNetMax r <? targetNetSalary input) eqn:L;
    intros [= <-] [A B]; cbn [fst snd]; split; trivial; right; exists r; auto.
Qed.

Lemma bisect_bracket (p : number) (k : nat) :
  forall bounds bounds',
  bisect data input p k bounds = Ok bounds' ->
  bracket data input p bounds -> bracket data input p bounds'.
Proof.
  induction k as [|k IH]; intros bounds bounds'; cbn [bisect].
  - intros [= <-]. auto.
  - destruct (narrow data input p bounds) as [b1|e] eqn:E; [|discriminate].
    cbn [bind]. intros B I. apply (IH b1); [exact B|].
    apply (narrow_bracket p bounds); assumption.
Qed.

Lemma midpoint_Fin (a b : Qc) :
  midpoint (Fin a, Fin b) = Fin ((a + b) / Q2Qc (2 # 1)).
Proof. unfold midpoint. cbn [fst snd add]. apply div_ofZ_2. Qed.

End Provenance.

(** X6.  In every proposal [getProposals] returns, the social security of
    the scenario in which the benefits are taxed equals that of the
    scenario in which they are exempt: both are computed on the gross
    salary without the benefits, at the same rate. *)
Theorem getProposals_same_social_security (data : option IrsDataset)
    (input : Reverse.ReverseCalculationInput)
    (ps : list (option Reverse.CalculationProposal)) :
  Reverse.getProposals data input = Ok ps ->
  Forall (fun o => exists r, o = Some r
            /\ Reverse.socialSecurityMin r = Reverse.socialSecurityMax r) ps.
Proof.
  rewrite getProposals_solveAll. apply solveAll_Forall.
  intros pct o _ S.
  destruct (solve_provenance data input _ o S) as (r & bounds & -> & _ & E).
  exists r. split; [reflexivity|].
  unfold Reverse.calculateOutputs in E.
  destruct (calculate data _) as [cmax|e]; [|discriminate]. cbn [bind] in E.
  destruct (calculate data _) as [cmin|e]; [|discriminate]. cbn [bind] in E.
  injection E as <-. reflexivity.
Qed.

Lemma getProposals_same_social_security_witness :
  exists ps, Reverse.getProposals (Some mockDataset) reverseTestInput = Ok ps
    /\ Forall (fun o => exists r, o = Some r
            /\ Reverse.socialSecurityMin r = Reverse.socialSecurityMax r) ps.
Proof.
  assert (E : exists ps,
             Reverse.getProposals (Some mockDataset) reverseTestInput = Ok ps)
    by (eexists; vm_compute; reflexivity).
  destruct E as [ps E]. exists ps. split; [exact E|].
  exact (getProposals_same_social_security _ _ ps E).
Defined.

(*@@X7@@*)

(** X8.  The annual cost of a proposal of [getProposals] is always
    strictly between 0 and 1000000: a target that would need a cost of
    1000000 or more gets a proposal all the same, below that cost. *)
Theorem getProposals_cost_range (data : option IrsDataset)
    (input : Reverse.ReverseCalculationInput)
    (ps : list (option Reverse.CalculationProposal)) :
  Reverse.getProposals data input = Ok ps ->
  Forall (fun o => exists r (c : Qc), o = Some r
            /\ Reverse.annualCost r = Fin c
            /\ 0 < this c /\ this c < 1000000 # 1) ps.
Proof.
  rewrite getProposals_solveAll. apply solveAll_Forall.
  intros pct o _ S.
  destruct (solve_provenance data input _ o S) as (r & bounds & -> & B & E).
  destruct (bisect_halves data input _ 49
              (Q2Qc (inject_Z 0)) (Q2Qc (inject_Z 1000000)) bounds B)
    as (lo & hi & -> & L1 & L2 & L3 & W).
  { to_Q. unfold Qle. simpl. lia. }
  to_Q_in L1. to_Q_in L3. to_Q_in W.
  change (inject_Z 0) with 0%Q in *.
  change (inject_Z 1000000) with (1000000 # 1)%Q in *.
  change (Z.of_nat 49) with 49%Z in W.
  assert (P : 0 < inject_Z (2 ^ 49)) by (vm_compute; reflexivity).
  assert (D : 0 < (this hi - this lo) * inject_Z (2 ^ 49)) by lra.
  assert (L : this lo < this hi) by nra.
  exists r, ((lo + hi) / Q2Qc (2 # 1))%Qc. split; [reflexivity|].
  split.
  { rewrite <- midpoint_Fin.
    apply (calculateOutputs_percentage data input _ _ _ E). }
  to_Q. unfold Qdiv. change (/ (2 # 1))%Q with (1 # 2)%Q. split; lra.
Qed.

Lemma getProposals_cost_range_witness :
  exists ps, Reverse.getProposals (Some mockDataset) reverseTestInput = Ok ps
    /\ Forall (fun o => exists r (c : Qc), o = Some r
            /\ Reverse.annualCost r = Fin c
            /\ 0 < this c /\ this c < 1000000 # 1) ps.
Proof.
  assert (E : exists ps,
             Reverse.getProposals (Some mockDataset) reverseTestInput = Ok ps)
    by (eexists; vm_compute; reflexivity).
  destruct E as [ps E]. exists ps. split; [exact E|].
  exact (getProposals_cost_range _ _ ps E).
Defined.

(** ** The reverse solver: a target out of reach *)

Section Ascent.

Import Reverse.

Variable data : option IrsDataset.
Variable input : ReverseCalculationInput.
Variable p : number.

Lemma midpoint_probeUp (k : nat) :
  (probeUp k + ofZ 1000000) / ofZ 2 = probeUp (S k).
Proof.
  unfold probeUp. cbn [add ofZ]. rewrite div_ofZ_2. apply Fin_eq.
  to_Q. q_consts. rewrite Nat2Z.inj_succ, Z.pow_succ_r by lia.
  rewrite inject_Z_mult. change (inject_Z 2) with (2 # 1)%Q.
  change (inject_Z 1000000) with (1000000 # 1)%Q.
  field. apply pow2_nonzero.
Qed.

Hypothesis below : alwaysBelowTarget data input p = true.

Lemma probeUp_below (k : nat) :
  (1 <= k <= 50)%nat ->
  exists r, calculateOutputs data input (probeUp k) p = Ok r
            /\ (totalNetMax r <? targetNetSalary input) = true.
Proof.
  intro Hk. unfold alwaysBelowTarget in below.
  rewrite forallb_forall in below. specialize (below k).
  destruct (calculateOutputs data input (probeUp k) p) as [r|e].
  - exists r. split; [reflexivity|]. apply below. apply in_seq. lia.
  - discriminate below. apply in_seq. lia.
Qed.

(** The search raises its lower bound at every iteration, and ends with
    the scenario of the last midpoint. *)
Lemma solveLoop_ascends (d : nat) :
  forall (k : nat) (bestResult : option CalculationProposal),
  (k + d = 49)%nat ->
  exists r, calculateOutputs data input (probeUp 50) p = Ok r
    /\ solveLoop data input p (Z.of_nat k) (probeUp k) (ofZ 1000000)
         bestResult = Ok (Some r).
Proof.
  induction d as [|d IH]; intros k bestResult Hk.
  - rewrite solveLoop_step by lia. rewrite midpoint_probeUp.
    replace (S k) with 50%nat by lia.
    destruct (probeUp_below 50) as (r & E & B); [lia|].
    exists r. split; [exact E|]. rewrite E, B.
    apply solveLoop_done. lia.
  - rewrite solveLoop_step by lia. rewrite midpoint_probeUp.
    destruct (probeUp_below (S k)) as (r & E & B); [lia|].
    rewrite E, B.
    replace (Z.of_nat k + 1)%Z with (Z.of_nat (S k)) by lia.
    apply IH. lia.
Qed.

End Ascent.

(*@@X9@@*)

(** ** The reverse solver: inputs it always rejects *)

Section Rejection.

Import Reverse.

Variable data : option IrsDataset.
Variable input : ReverseCalculationInput.

(** The error of the first withholding call of the first candidate of the
    first search is the outcome of the whole sweep. *)
Lemma first_call_fails (e : error) :
  (forall g, calculate data (irsCall input g (ssRate input)) = Err e) ->
  getProposals data input = Err e.
Proof.
  intro H. rewrite getProposals_solveAll. unfold percentages.
  cbn [solveAll]. unfold solveForAnnualCost.
  rewrite solveLoop_step by lia.
  unfold calculateOutputs. rewrite H. reflexivity.
Qed.

End Rejection.

(** X10.  Inputs for which [getProposals] never returns proposals.  With
    no dataset set in the withholding service every call fails with the
    dataset error; with a dataset, every call for a location other than
    'continente', or with a number of dependents that is negative or not
    an integer, fails with a validation error of the withholding service,
    whatever the target and the other fields. *)
Theorem getProposals_rejects :
  (forall input, Reverse.getProposals None input = Err DatasetNotSet)
  /\ (forall d input,
        Reverse.location input <> continente
        \/ isInteger (Reverse.dependents input) = false
        \/ (Reverse.dependents input <? ofZ 0) = true ->
        exists e, Reverse.getProposals (Some d) input = Err e
                  /\ isValidationError e = true).
Proof.
  split.
  - intro input. apply first_call_fails. reflexivity.
  - intros d input H.
    set (c := Reverse.gross
                (Reverse.monthlyValues input ((ofZ 0 + ofZ 1000000) / ofZ 2)
                   (flexPctOf 0))).
    assert (I : invalidInput
                  (Reverse.irsCall input c (Reverse.ssRate input))).
    { unfold invalidInput. cbn [Reverse.irsCall location dependents].
      tauto. }
    destruct (calculate_invalid d _ I) as (e & E & V).
    exists e. split; [|exact V].
    rewrite getProposals_solveAll. unfold percentages.
    cbn [solveAll]. unfold Reverse.solveForAnnualCost.
    rewrite solveLoop_step by lia.
    unfold Reverse.calculateOutputs. fold c. rewrite E. reflexivity.
Qed.

Lemma getProposals_rejects_witness :
  Reverse.location madeiraInput <> continente
  /\ exists e, Reverse.getProposals (Some mockDataset) madeiraInput = Err e
               /\ isValidationError e = true.
Proof.
  assert (H : Reverse.location madeiraInput <> continente) by discriminate.
  split; [exact H|].
  exact (proj2 getProposals_rejects mockDataset madeiraInput (or_introl H)).
Defined.

(** ** The simulator component: the sweep from an annual cost *)

Section ForwardPath.

Lemma share_Fin (pct : Z) :
  exists P : Qc, ofZ pct / ofZ 100 = Fin P /\ this P == shareOf pct.
Proof.
  unfold ofZ. rewrite div_Fin by (apply Qc_nonzero; vm_compute; discriminate).
  eexists. split; [reflexivity|]. to_Q. reflexivity.
Qed.

Lemma tsuRate_Fin :
  exists T : Qc, Simulator.tsu / ofZ 100 = Fin T /\ this T == tsuRate.
Proof.
  unfold Simulator.tsu, num, ofZ.
  rewrite div_Fin by (apply Qc_nonzero; vm_compute; discriminate).
  eexists. split; [reflexivity|]. to_Q. vm_compute. reflexivity.
Qed.

(** No whole percentage makes the factor zero. *)
Lemma factor_nonzero (pct : Z) :
  ~ ((1 - shareOf pct) * (1 + tsuRate) + shareOf pct == 0)%Q.
Proof.
  unfold shareOf, tsuRate, Qdiv. change (/ (100 # 1))%Q with (1 # 100)%Q.
  intro H.
  assert (E : (inject_Z pct * (19 # 1) == 9900 # 1)%Q) by lra.
  unfold Qeq, Qmult, inject_Z in E. simpl in E. lia.
Qed.

Lemma months_Fin (c : Simulator.SimulatorComponent) :
  exists m : Qc, Simulator.getMonthsMultiplier c = Fin m
    /\ this m == monthsOf (Simulator.hasDuodecimos c) /\ ~ this m == 0.
Proof.
  unfold Simulator.getMonthsMultiplier, monthsOf.
  destruct (Simulator.hasDuodecimos c); eexists;
    (split; [reflexivity|]); split; try (to_Q; reflexivity); discriminate.
Qed.

Lemma forwardValues_Fin (c : Simulator.SimulatorComponent) (pct : Z)
    (x A : Qc) :
  Simulator.annualCost c = Fin x ->
  Simulator.annualDailyMealAllowance c = Fin A ->
  let v := Simulator.forwardValues c pct in
  let P := shareOf pct in
  let f := ((1 - P) * (1 + tsuRate) + P)%Q in
  exists g b : Qc,
    Simulator.monthlyGross v = Fin g
    /\ Simulator.monthlyValueToBenefits v = Fin b
    /\ (this g == (this x - this A) / f * (1 - P)
                  / monthsOf (Simulator.hasDuodecimos c))%Q
    /\ (this b == (this x - this A) / f * P / (12 # 1))%Q.
Proof.
  intros Hx HA v P f. subst v.
  unfold Simulator.forwardValues.
  cbn [Simulator.monthlyGross Simulator.monthlyValueToBenefits].
  rewrite Hx, HA.
  destruct (share_Fin pct) as (P' & -> & EP).
  destruct (tsuRate_Fin) as (T' & -> & ET).
  destruct (months_Fin c) as (m & -> & Em & Nm).
  cbn [add sub neg mul ofZ].
  assert (Nf : ~ (this ((Q2Qc (inject_Z 1) + - P') * (Q2Qc (inject_Z 1) + T')
                        + P')%Qc == 0)%Q).
  { to_Q. q_consts. rewrite EP, ET. apply factor_nonzero. }
  rewrite (div_Fin (x + - A)) by (apply Qc_nonzero; exact Nf).
  cbn [mul].
  rewrite !div_Fin
    by (apply Qc_nonzero; first [exact Nm | vm_compute; discriminate]).
  eexists. eexists. split; [reflexivity|]. split; [reflexivity|].
  to_Q_in Nf. q_consts. rewrite EP, ET in Nf.
  rewrite Em in Nm.
  split; to_Q; q_consts; rewrite ?EP, ?ET, ?Em; subst f P; field;
    repeat split; try exact Nm; intro H; apply Nf; rewrite <- H; ring.
Qed.

End ForwardPath.

(*@@X11@@*)

(*@@X12@@*)

Section ForwardSweep.

Variable data : option IrsDataset.
Variable c : Simulator.SimulatorComponent.

Lemma annualCostLoop_step (pct : Z) (proposals : list Simulator.ProposalData) :
  (pct <= 30)%Z ->
  Simulator.annualCostLoop data c pct proposals
  = match Simulator.proposalAt data c pct with
    | Err e => Err e
    | Ok proposal =>
        Simulator.annualCostLoop data c (pct + 5) (proposals ++ [proposal])
    end.
Proof.
  intro H. rewrite Simulator.annualCostLoop_equation_1.
  unfold Simulator.maxFlexBenefitsPercentage, Simulator.flexBenefitsStep.
  destruct (Z_le_dec pct 30); [reflexivity | lia].
Qed.

Lemma annualCostLoop_done (pct : Z) (proposals : list Simulator.ProposalData) :
  (30 < pct)%Z ->
  Simulator.annualCostLoop data c pct proposals = Ok proposals.
Proof.
  intro H. rewrite Simulator.annualCostLoop_equation_1.
  unfold Simulator.maxFlexBenefitsPercentage.
  destruct (Z_le_dec pct 30); [lia | reflexivity].
Qed.

Lemma annualCostLoop_cons (pct : Z) (pcts : list Z)
    (acc : list Simulator.ProposalData) :
  (pct <= 30)%Z ->
  (forall acc',
     Simulator.annualCostLoop data c (pct + 5) acc'
     = (ps <- proposalsAt data c pcts ;; Ok (acc' ++ ps))) ->
  Simulator.annualCostLoop data c pct acc
  = (ps <- proposalsAt data c (pct :: pcts) ;; Ok (acc ++ ps)).
Proof.
  intros H IH. rewrite annualCostLoop_step by exact H. cbn [proposalsAt].
  destruct (Simulator.proposalAt data c pct) as [p|e]; [|reflexivity].
  cbn [bind]. rewrite IH.
  destruct (proposalsAt data c pcts) as [ps|e]; [|reflexivity].
  cbn [bind]. rewrite <- app_assoc. reflexivity.
Qed.

Lemma calculateByAnnualCost_proposalsAt :
  Simulator.calculateByAnnualCost data c = proposalsAt data c percentages.
Proof.
  unfold Simulator.calculateByAnnualCost, percentages.
  rewrite (annualCostLoop_cons 0 [5; 10; 15; 20; 25; 30]%Z []);
    [destruct (proposalsAt _ _ _); reflexivity | lia |].
  intro a1. apply annualCostLoop_cons; [lia|].
  intro a2. apply annualCostLoop_cons; [lia|].
  intro a3. apply annualCostLoop_cons; [lia|].
  intro a4. apply annualCostLoop_cons; [lia|].
  intro a5. apply annualCostLoop_cons; [lia|].
  intro a6. apply annualCostLoop_cons; [lia|].
  intro a7. rewrite annualCostLoop_done by lia. cbn [proposalsAt bind].
  rewrite app_nil_r. reflexivity.
Qed.

Lemma proposalAt_fields (pct : Z) (p : Simulator.ProposalData) :
  Simulator.proposalAt data c pct = Ok p ->
  Reverse.flexBenefitsPercentage p = ofZ pct
  /\ Reverse.monthlyMealAllowance p = Simulator.monthlyMealAllowance c.
Proof.
  unfold Simulator.proposalAt.
  destruct (calculate data _) as [cmax|e]; [|discriminate]. cbn [bind].
  destruct (calculate data _) as [cmin|e]; [|discriminate]. cbn [bind].
  intros [= <-]. split; reflexivity.
Qed.

Lemma proposalsAt_fields (pcts : list Z) :
  forall ps, proposalsAt data c pcts = Ok ps ->
  map Reverse.flexBenefitsPercentage ps = map ofZ pcts
  /\ Forall (fun p => Reverse.monthlyMealAllowance p
                      = Simulator.monthlyMealAllowance c) ps.
Proof.
  induction pcts as [|pct pcts IH]; intro ps; cbn [proposalsAt].
  - intros [= <-]. split; constructor.
  - destruct (Simulator.proposalAt data c pct) as [p|e] eqn:E; [|discriminate].
    cbn [bind]. destruct (proposalsAt data c pcts) as [qs|e]; [|discriminate].
    cbn [bind]. intros [= <-].
    destruct (proposalAt_fields pct p E) as [F M].
    destruct (IH qs eq_refl) as [IF IM].
    split; [cbn [map]; congruence | constructor; assumption].
Qed.

Lemma proposalsAt_succeeds (pcts : list Z) :
  (forall pct, In pct pcts -> exists p, Simulator.proposalAt data c pct = Ok p) ->
  exists ps, proposalsAt data c pcts = Ok ps.
Proof.
  induction pcts as [|pct pcts IH]; intro H; cbn [proposalsAt].
  - eexists. reflexivity.
  - destruct (H pct (or_introl eq_refl)) as [p ->].
    destruct IH as [ps ->]; [intros q Hq; apply H; right; exact Hq|].
    eexists. reflexivity.
Qed.

Lemma proposalsAt_fails (pcts : list Z) (pct : Z) :
  In pct pcts ->
  (exists e, Simulator.proposalAt data c pct = Err e) ->
  exists e, proposalsAt data c pcts = Err e.
Proof.
  induction pcts as [|q pcts IH]; intros I F; [contradiction|].
  cbn [proposalsAt].
  destruct (Simulator.proposalAt data c q) as [p|e] eqn:E;
    [|exists e; reflexivity].
  cbn [bind]. destruct I as [-> | I].
  - destruct F as [e F]. congruence.
  - destruct (IH I F) as [e ->]. exists e. reflexivity.
Qed.

End ForwardSweep.

(** X16.  The sweep from an annual cost returns a list exactly when each
    of the seven iterations 0, 5, ..., 30 gets its three results from the
    withholding service; the list then has seven proposals, with these
    percentages in this order, each carrying the monthly meal allowance
    of the component. *)
Theorem calculateByAnnualCost_sweep (data : option IrsDataset)
    (c : Simulator.SimulatorComponent) :
  ((forall pct, In pct percentages ->
      exists p, Simulator.proposalAt data c pct = Ok p) <->
   exists ps, Simulator.calculateByAnnualCost data c = Ok ps)
  /\ (forall ps, Simulator.calculateByAnnualCost data c = Ok ps ->
        map Reverse.flexBenefitsPercentage ps = map ofZ percentages
        /\ Forall (fun p => Reverse.monthlyMealAllowance p
                            = Simulator.monthlyMealAllowance c) ps).
Proof.
  rewrite calculateByAnnualCost_proposalsAt. split; [split|].
  - apply proposalsAt_succeeds.
  - intros [ps E] pct I.
    destruct (Simulator.proposalAt data c pct) as [p|e] eqn:F; [eauto|].
    destruct (proposalsAt_fails data c percentages pct I (ex_intro _ e F))
      as [e' E'].
    congruence.
  - apply proposalsAt_fields.
Qed.

Lemma calculateByAnnualCost_sweep_witness :
  exists ps,
    Simulator.calculateByAnnualCost (Some mockDataset)
      (Simulator.withMealAllowances defaultComponent) = Ok ps
    /\ map Reverse.flexBenefitsPercentage ps = map ofZ percentages.
Proof.
  assert (E : exists ps,
             Simulator.calculateByAnnualCost (Some mockDataset)
               (Simulator.withMealAllowances defaultComponent) = Ok ps)
    by (eexists; vm_compute; reflexivity).
  destruct E as [ps E]. exists ps. split; [exact E|].
  exact (proj1 (proj2 (calculateByAnnualCost_sweep _ _) ps E)).
Defined.

(** ** The simulator component: inputs without proposals, and the tables *)

Lemma calculate_gross_rejected (d : IrsDataset) (input : IrsInput) :
  (grossSalary input <=? ofZ 0) = true ->
  calculate (Some d) input = Err GrossSalaryNotPositive.
Proof. intro H. unfold calculate. rewrite H. reflexivity. Qed.

(** X15.  An annual cost that does not exceed the annual meal allowance
    gets no proposal: the sweep from the annual cost fails in its first
    iteration, with the gross-salary error of the withholding service
    (the dataset error when no dataset is set). *)
Theorem annual_cost_within_meal_allowance (data : option IrsDataset)
    (c : Simulator.SimulatorComponent) :
  isFinite (Simulator.annualCost c) = true ->
  isFinite (Simulator.annualDailyMealAllowance c) = true ->
  (Simulator.annualCost c <=? Simulator.annualDailyMealAllowance c) = true ->
  Simulator.calculateByAnnualCost data c
  = Err (match data with
         | Some _ => GrossSalaryNotPositive
         | None => DatasetNotSet
         end).
Proof.
  intros Fx FA L.
  rewrite calculateByAnnualCost_proposalsAt. unfold percentages.
  cbn [proposalsAt]. unfold Simulator.proposalAt.
  destruct data as [d|]; [|reflexivity].
  destruct (isFinite_Fin _ Fx) as [x Hx], (isFinite_Fin _ FA) as [A HA].
  destruct (forwardValues_Fin c 0 x A Hx HA) as (g & b & Eg & _ & Hg & _).
  rewrite Eg. rewrite calculate_gross_rejected; [reflexivity|].
  cbn [Simulator.irsCall grossSalary]. cbn [leb ofZ]. apply Qc_leb_le.
  rewrite Hx, HA in L. cbn [leb] in L. apply Qc_leb_le in L.
  to_Q. q_consts. rewrite Hg.
  assert (S0 : (shareOf 0 == 0)%Q) by reflexivity.
  rewrite S0.
  setoid_replace ((1 - 0) * (1 + tsuRate) + 0)%Q with (12375 # 10000)%Q
    by reflexivity.
  unfold Qdiv. change (/ (12375 # 10000))%Q with (10000 # 12375)%Q.
  unfold monthsOf. destruct (Simulator.hasDuodecimos c).
  - change (/ (12 # 1))%Q with (1 # 12)%Q. lra.
  - change (/ (14 # 1))%Q with (1 # 14)%Q. lra.
Qed.

Lemma annual_cost_within_meal_allowance_witness :
  (Simulator.annualCost lowCostComponent
   <=? Simulator.annualDailyMealAllowance lowCostComponent) = true
  /\ Simulator.calculateByAnnualCost (Some mockDataset) lowCostComponent
     = Err GrossSalaryNotPositive.
Proof.
  assert (L : (Simulator.annualCost lowCostComponent
               <=? Simulator.annualDailyMealAllowance lowCostComponent) = true)
    by (vm_compute; reflexivity).
  split; [exact L|].
  exact (annual_cost_within_meal_allowance (Some mockDataset) lowCostComponent
           eq_refl eq_refl L).
Defined.

Lemma calculate_tableId (d : IrsDataset) (input : IrsInput) (r : IrsResult) :
  calculate (Some d) input = Ok r ->
  tableId r = pickTableId (maritalStatus input) (dependents input)
                (hasDisability input ?? false).
Proof.
  intro E. destruct (classic_invalid input) as [I|V].
  - destruct (calculate_invalid d input I) as (e & E' & _). congruence.
  - rewrite (calculate_valid d input V) in E. unfold withhold in E.
    destruct (find _ _) as [table|]; [|discriminate].
    destruct (pickBand _ _) as [b|]; [|discriminate]. cbn [bind] in E.
    destruct (resolveDeduction _ _) as [ded|]; [|discriminate].
    cbn [bind] in E. injection E as <-. reflexivity.
Qed.

Lemma orZero_ge_1 (x : number) :
  (ofZ 1 <=? Simulator.orZero x) = (ofZ 1 <=? x).
Proof.
  destruct x as [q| | |]; try reflexivity. cbn [Simulator.orZero].
  destruct (Qc_eqb q (Q2Qc 0)) eqn:E; [|reflexivity].
  apply Qc_eqb_eq in E. subst q. reflexivity.
Qed.

(** X13.  The tax table behind every result that the withholding service
    computes for the component, called by the component itself or by the
    reverse solver on the input the component builds: table III exactly
    for a married taxpayer with exactly one dependent; otherwise table II
    with one dependent or more and table I with none.  The component
    never selects the tables IV to VII, and takes a married taxpayer with
    no dependent, or with two or more, for a two-holder household. *)
Theorem component_table (d : IrsDataset) (c : Simulator.SimulatorComponent)
    (g rate : number) (r : IrsResult) :
  calculate (Some d) (Simulator.irsCall c g rate) = Ok r
  \/ calculate (Some d) (Reverse.irsCall (Simulator.reverseInput c) g rate)
     = Ok r ->
  (Simulator.maritalStatus c = Simulator.married
   /\ Simulator.dependents c = ofZ 1 -> tableId r = "III"%string)
  /\ (~ (Simulator.maritalStatus c = Simulator.married
         /\ Simulator.dependents c = ofZ 1) ->
      tableId r = if ofZ 1 <=? Simulator.dependents c
                  then "II"%string else "I"%string).
Proof.
  intro E.
  assert (E' : calculate (Some d) (Simulator.irsCall c g rate) = Ok r)
    by (destruct E as [E|E]; exact E).
  rewrite (calculate_tableId d _ r E').
  cbn [Simulator.irsCall maritalStatus dependents hasDisability orElse].
  unfold pickTableId. rewrite orZero_ge_1.
  unfold Simulator.getMappedMaritalStatus.
  split.
  - intros [-> ->]. reflexivity.
  - intro N. destruct (Simulator.maritalStatus c); [reflexivity|].
    destruct (Simulator.dependents c) as [q| | |] eqn:D; try reflexivity.
    destruct (Qc_eqb q (Q2Qc (inject_Z 1))) eqn:Q; [|reflexivity].
    exfalso. apply N. split; [reflexivity|].
    apply Qc_eqb_eq in Q. subst q. reflexivity.
Qed.

Lemma component_table_witness :
  exists r,
    calculate (Some mockDataset)
      (Simulator.irsCall marriedOneDependent (ofZ 1000) (num 0.11)) = Ok r
    /\ tableId r = "III"%string.
Proof.
  assert (E : exists r,
             calculate (Some mockDataset)
               (Simulator.irsCall marriedOneDependent (ofZ 1000) (num 0.11))
             = Ok r) by (eexists; vm_compute; reflexivity).
  destruct E as [r E]. exists r. split; [exact E|].
  apply (proj1 (component_table mockDataset marriedOneDependent _ _ r
                  (or_introl E))).
  split; reflexivity.
Defined.

(** ** The simulator component: the annual cost of the solver's proposals *)

Section Recalculation.

Variable data : option IrsDataset.
Variable c : Simulator.SimulatorComponent.
Variable i : Qc.

Hypothesis prepared :
  Simulator.annualDailyMealAllowance c = Simulator.calculateAnnualMealAllowance.
Hypothesis finiteIht : Simulator.IhtPercentage c = Fin i.

Lemma annualMeal_Fin :
  exists A : Qc, Simulator.calculateAnnualMealAllowance = Fin A
                 /\ (this A == annualMealAllowance)%Q.
Proof. eexists. split; [reflexivity|]. vm_compute. reflexivity. Qed.

Lemma reverseInput_finite : finiteInput (Simulator.reverseInput c).
Proof.
  unfold finiteInput. cbn [Simulator.reverseInput Reverse.mealAllowanceDaily
    Reverse.mealAllowanceDays Reverse.mealAllowanceMonths
    Reverse.ihtPercentage Reverse.tsu].
  rewrite finiteIht. repeat split; try reflexivity.
  intro H. apply (f_equal toQ) in H. vm_compute in H. discriminate.
Qed.

Lemma calculateOutputs_fields (input : Reverse.ReverseCalculationInput)
    (x p : number) (r : Reverse.CalculationProposal) :
  Reverse.calculateOutputs data input x p = Ok r ->
  let v := Reverse.monthlyValues input x p in
  Reverse.monthlyBaseSalary r = Reverse.baseSalary v
  /\ Reverse.monthlyIHT r = Reverse.iht v
  /\ Reverse.monthlyBenefits r = Reverse.toBenefits v.
Proof.
  unfold Reverse.calculateOutputs.
  destruct (calculate data _) as [cmax|e]; [|discriminate]. cbn [bind].
  destruct (calculate data _) as [cmin|e]; [|discriminate]. cbn [bind].
  intros [= <-]. repeat split.
Qed.

Lemma recalculated_candidate (x p : Qc) (r : Reverse.CalculationProposal) :
  Reverse.calculateOutputs data (Simulator.reverseInput c) (Fin x) (Fin p)
  = Ok r ->
  exists y : Qc,
    Reverse.annualCost (Simulator.recalculateAnnualCost c r) = Fin y
    /\ (this y == this x
                  - (this x - annualMealAllowance) * this p
                    * costCorrection (Simulator.hasDuodecimos c))%Q
    /\ (annualMealAllowance < this x)%Q.
Proof.
  intro E.
  assert (G : (Fin x <=? annualMeal (Simulator.reverseInput c)) = false).
  { destruct (Fin x <=? annualMeal (Simulator.reverseInput c)) eqn:L;
      [|reflexivity].
    destruct (zeroBudget_fails data _ reverseInput_finite (Fin x) (Fin p)
                eq_refl L) as (e & E' & _).
    congruence. }
  destruct (calculateOutputs_fields _ _ _ r E) as (Eb & Ei & Et).
  unfold Simulator.recalculateAnnualCost. cbn [Reverse.annualCost].
  rewrite Eb, Ei, Et.
  unfold Simulator.calculateAnnualCostToCompany. rewrite prepared.
  unfold Reverse.monthlyValues.
  cbn [Reverse.baseSalary Reverse.iht Reverse.toBenefits].
  cbn [Simulator.reverseInput Reverse.mealAllowanceDaily
    Reverse.mealAllowanceDays Reverse.mealAllowanceMonths
    Reverse.ihtPercentage Reverse.tsu Reverse.hasDuodecimos].
  change (annualMeal (Simulator.reverseInput c))
    with Simulator.calculateAnnualMealAllowance in G.
  fold Simulator.calculateAnnualMealAllowance.
  fold (Simulator.getMonthsMultiplier c).
  destruct annualMeal_Fin as (A & EA' & EA). rewrite EA' in *.
  destruct tsuRate_Fin as (T' & -> & ET).
  destruct (months_Fin c) as (m & -> & Em & Nm).
  rewrite finiteIht.
  cbn [leb] in G. apply Qc_leb_gt in G.
  unfold ofZ. cbn [sub neg add]. rewrite max_Fin.
  replace (Qc_ltb (Q2Qc (inject_Z 0)) (x + - A)) with true
    by (symmetry; apply Qc_ltb_lt; to_Q; q_consts; lra).
  assert (N1 : ~ (this (Q2Qc (inject_Z 1) + T')%Qc == 0)%Q).
  { to_Q. q_consts. rewrite ET. vm_compute. discriminate. }
  rewrite (div_Fin (x + - A)) by (apply Qc_nonzero; exact N1).
  cbn [mul].
  rewrite !div_Fin
    by (apply Qc_nonzero; first [exact Nm | vm_compute; discriminate]).
  cbn [sub neg add mul].
  rewrite !div_Fin by (apply Qc_nonzero; vm_compute; discriminate).
  cbn [sub neg add mul].
  eexists. split; [reflexivity|]. split; [|rewrite <- EA; exact G].
  to_Q_in N1. revert N1. to_Q. q_consts. intro N1.
  unfold costCorrection. rewrite EA, ET, Em in *.
  field. repeat split;
    first [exact Nm | exact N1 | discriminate
          | intro H; apply N1; rewrite <- H; ring].
Qed.

End Recalculation.

Lemma flexPctOf_share (pct : Z) :
  exists P : Qc, flexPctOf pct = Fin P /\ (this P == shareOf pct)%Q.
Proof.
  unfold flexPctOf. destruct (Z.eqb pct 0) eqn:E.
  - apply Z.eqb_eq in E. subst pct. eexists. split; reflexivity.
  - apply share_Fin.
Qed.

Lemma costCorrection_pos (duodecimos : bool) :
  (0 < costCorrection duodecimos)%Q.
Proof. destruct duodecimos; reflexivity. Qed.

(*@@X14@@*)

(** ** What a result depends on *)

Section Dependence.

(** Everything a result holds, from the table and the band it was computed
    with. *)
Lemma calculate_Ok_all (data : IrsDataset) (input : IrsInput) (r : IrsResult) :
  calculate (Some data) input = Ok r ->
  validInput input
  /\ exists table ded,
       find (fun t => String.eqb (id t) (tableId r)) (tables data) = Some table
       /\ tableId r = pickTableId (maritalStatus input) (dependents input)
                        (hasDisability input ?? false)
       /\ pickBand (bands table) (grossSalary input) = Ok (band r)
       /\ resolveDeduction (deduction (band r)) (grossSalary input) = Ok ded
       /\ resRate r = rate (band r)
       /\ resDeduction r = round2 ded
       /\ resAdditionalPerDependent r
          = round2 (additionalPerDependent (band r) ?? ofZ 0)
       /\ irsWithheld r
          = round2 (max (ofZ 0)
                      (grossSalary input * rate (band r) - ded
                       - (additionalPerDependent (band r) ?? ofZ 0)
                         * dependents input))
       /\ socialSecurity r
          = round2 (grossSalary input * (socialSecurityRate input ?? num 0.11))
       /\ netSalary r
          = round2 (grossSalary input - irsWithheld r - socialSecurity r).
Proof.
  intro E. destruct (classic_invalid input) as [I|V].
  - destruct (calculate_invalid data input I) as (e & E' & _). congruence.
  - split; [exact V|]. rewrite (calculate_valid data input V) in E.
    unfold withhold in E.
    destruct (find _ _) as [table|] eqn:F; [|discriminate].
    destruct (pickBand _ _) as [b|] eqn:P; [|discriminate]. cbn [bind] in E.
    destruct (resolveDeduction _ _) as [ded|] eqn:D; [|discriminate].
    cbn [bind] in E. injection E as <-.
    cbn [tableId band resRate resDeduction resAdditionalPerDependent
         irsWithheld socialSecurity netSalary].
    exists table, ded. repeat split; assumption.
Qed.

End Dependence.

(** X17.  The social-security rate of the input reaches the social
    security and the net salary of the result only: with any two rates, and
    everything else the same, [calculate] fails with the same error or
    returns results with the same table, band, rate, deduction, amount
    per dependent and withheld tax. *)
Theorem social_security_rate_only (data : option IrsDataset)
    (input : IrsInput) (s1 s2 : option number) :
  match calculate data (withRate input s1),
        calculate data (withRate input s2) with
  | Ok r1, Ok r2 =>
      tableId r1 = tableId r2 /\ band r1 = band r2
      /\ resRate r1 = resRate r2 /\ resDeduction r1 = resDeduction r2
      /\ resAdditionalPerDependent r1 = resAdditionalPerDependent r2
      /\ irsWithheld r1 = irsWithheld r2
  | Err e1, Err e2 => e1 = e2
  | _, _ => False
  end.
Proof.
  unfold calculate. destruct data as [d|]; [|reflexivity].
  cbn [withRate grossSalary maritalStatus location dependents hasDisability].
  destruct (_ || _); [reflexivity|].
  destruct (_ || _); [reflexivity|].
  destruct (location input); try reflexivity.
  destruct (find _ _) as [table|]; [|reflexivity].
  destruct (pickBand _ _) as [b|e]; [|reflexivity]. cbn [bind].
  destruct (resolveDeduction _ _) as [ded|e]; [|reflexivity]. cbn [bind].
  cbn [tableId band resRate resDeduction resAdditionalPerDependent irsWithheld].
  repeat split.
Qed.

(** ** Dependents, and the bounds of a result *)

Section Orders.

Lemma max_zero_monotone (x y : Qc) :
  (this x <= this y)%Q ->
  (max (ofZ 0) (Fin x) <=? max (ofZ 0) (Fin y)) = true.
Proof.
  intro H. unfold ofZ. rewrite !max_Fin.
  destruct (Qc_ltb (Q2Qc (inject_Z 0)) x) eqn:X,
           (Qc_ltb (Q2Qc (inject_Z 0)) y) eqn:Y; cbn [leb];
    apply Qc_leb_le;
    try apply Qc_ltb_lt in X; try apply Qc_ltb_ge in X;
    try apply Qc_ltb_lt in Y; try apply Qc_ltb_ge in Y;
    revert X Y; to_Q; q_consts; intros; lra.
Qed.

Lemma round2_finite (x : number) :
  isFinite (round2 x) = true -> exists q, x = Fin q.
Proof. destruct x; try discriminate. eauto. Qed.

Lemma leb_Fin (a b : Qc) : (Fin a <=? Fin b) = true <-> (this a <= this b)%Q.
Proof. cbn [leb]. apply Qc_leb_le. Qed.

End Orders.



Lemma round2_zero : round2 (ofZ 0) = ofZ 0.
Proof. unfold ofZ. rewrite round2_Fin, cents_zero. apply Fin_eq. reflexivity. Qed.

(** X19.  With a social-security rate >= 0 (the default 0.11 included)
    and a finite withheld tax, the social security and the withheld tax of
    a result are >= 0 and the net salary is at most the gross salary
    rounded to cents. *)
Theorem result_bounds (data : IrsDataset) (input : IrsInput) (r : IrsResult)
    (s : Qc) :
  calculate (Some data) input = Ok r ->
  socialSecurityRate input ?? num 0.11 = Fin s ->
  (0 <= this s)%Q ->
  isFinite (irsWithheld r) = true ->
  (ofZ 0 <=? socialSecurity r) = true
  /\ (ofZ 0 <=? irsWithheld r) = true
  /\ (netSalary r <=? round2 (grossSalary input)) = true.
Proof.
  intros E Es Ps Fw.
  destruct (calculate_Ok_all _ _ _ E)
    as (((Fg & Pg) & _) & t & ded & _ & _ & _ & _ & _ & _ & _ & W & S & N).
  destruct (isFinite_Fin _ Fg) as [g Eg]. rewrite Eg, Es in *.
  cbn [ltb ofZ] in Pg. apply Qc_ltb_lt in Pg. revert Pg. to_Q. q_consts.
  intro Pg.
  assert (S0 : (ofZ 0 <=? socialSecurity r) = true).
  { rewrite S, <- round2_zero. apply round2_monotone. cbn [mul ofZ].
    apply leb_Fin. to_Q. q_consts. nra. }
  assert (W0 : (ofZ 0 <=? irsWithheld r) = true).
  { rewrite W in Fw |- *. destruct (round2_finite _ Fw) as [m Em].
    rewrite Em, <- round2_zero. apply round2_monotone.
    pose proof (max_zero_not_negative
                  (Fin g * rate (band r) - ded
                   - (additionalPerDependent (band r) ?? ofZ 0)
                     * dependents input)) as M.
    rewrite Em in M. cbn [ltb ofZ] in M. apply Qc_ltb_ge in M.
    apply leb_Fin. exact M. }
  split; [exact S0|]. split; [exact W0|].
  rewrite N. apply round2_monotone.
  destruct (isFinite_Fin _ Fw) as [w Ew]. rewrite Ew in *.
  destruct (socialSecurity r) as [ss| | |]; try discriminate S0;
    [|reflexivity].
  apply leb_Fin in S0, W0. revert S0 W0. cbn [sub neg add]. to_Q. q_consts.
  intros S0 W0. apply leb_Fin. to_Q. lra.
Qed.

Lemma result_bounds_witness :
  exists r, calculate (Some mockDataset) (irsInput 1000 single 0) = Ok r
    /\ (netSalary r <=? round2 (num 1000)) = true.
Proof.
  assert (E : exists r,
             calculate (Some mockDataset) (irsInput 1000 single 0) = Ok r)
    by (eexists; vm_compute; reflexivity).
  destruct E as [r E]. exists r. split; [exact E|].
  assert (Fw : isFinite (irsWithheld r) = true).
  { pose proof E as C. vm_compute in C. injection C as <-. reflexivity. }
  assert (Ps : (0 <= this (Q2Qc 0.11))%Q) by (vm_compute; discriminate).
  exact (proj2 (proj2 (result_bounds mockDataset _ r (Q2Qc 0.11) E eq_refl
                         Ps Fw))).
Defined.

(** ** The reverse solver without benefits *)

Section NoBenefits.

Variable data : option IrsDataset.
Variable input : Reverse.ReverseCalculationInput.
Hypothesis finite : finiteInput input.

(** With no benefits and finite fields, the monthly values are finite and
    the benefits are 0. *)
Lemma monthlyValues_no_benefits (x : Qc) :
  exists g m : Qc,
    Reverse.gross (Reverse.monthlyValues input (Fin x) (ofZ 0)) = Fin g
    /\ Reverse.mealAllowance (Reverse.monthlyValues input (Fin x) (ofZ 0))
       = Fin m
    /\ Reverse.toBenefits (Reverse.monthlyValues input (Fin x) (ofZ 0))
       = ofZ 0.
Proof.
  destruct finite as (Fd & Fy & Fm & Fi & Ft & Nt).
  unfold Reverse.monthlyValues.
  cbn [Reverse.gross Reverse.mealAllowance Reverse.toBenefits].
  destruct (isFinite_Fin _ Fd) as [d ->], (isFinite_Fin _ Fy) as [y ->],
           (isFinite_Fin _ Fm) as [mo ->], (isFinite_Fin _ Fi) as [i ->],
           (isFinite_Fin _ Ft) as [t Et].
  rewrite Et in *.
  destruct (tsu_factor t Nt) as (u & -> & Hu).
  unfold ofZ. cbn [mul sub neg add]. rewrite !max_Fin.
  assert (B : exists b, (if Qc_ltb (Q2Qc (inject_Z 0)) (x + - (d * y * mo))
                         then Fin (x + - (d * y * mo))
                         else Fin (Q2Qc (inject_Z 0))) = Fin b)
    by (destruct (Qc_ltb _ _); eauto).
  destruct B as [b ->].
  rewrite (div_Fin b u) by (apply Qc_nonzero; exact Hu).
  assert (M : exists mm : Qc,
            (if Reverse.hasDuodecimos input
             then Fin (Q2Qc (inject_Z 12)) else Fin (Q2Qc (inject_Z 14)))
            = Fin mm
            /\ ~ (this mm == 0)%Q)
    by (destruct (Reverse.hasDuodecimos input); eexists;
        (split; [reflexivity | discriminate])).
  destruct M as (mm & -> & Nm).
  cbn [mul].
  rewrite !div_Fin
    by (apply Qc_nonzero; first [exact Nm | vm_compute; discriminate]).
  cbn [sub neg add mul].
  repeat (rewrite !div_Fin by (apply Qc_nonzero; vm_compute; discriminate);
          cbn [sub neg add mul]).
  eexists. eexists. split; [reflexivity|]. split; [reflexivity|].
  apply Fin_eq. to_Q. q_consts. field. exact Hu.
Qed.

End NoBenefits.

Lemma withheld_rate_independent (data : option IrsDataset)
    (input : IrsInput) (s1 s2 : option number) (r1 r2 : IrsResult) :
  calculate data (withRate input s1) = Ok r1 ->
  calculate data (withRate input s2) = Ok r2 ->
  irsWithheld r1 = irsWithheld r2.
Proof.
  destruct data as [d|]; [|discriminate]. intros E1 E2.
  destruct (calculate_Ok_all _ _ _ E1)
    as (_ & t1 & ded1 & F1 & T1 & P1 & D1 & _ & _ & _ & W1 & _).
  destruct (calculate_Ok_all _ _ _ E2)
    as (_ & t2 & ded2 & F2 & T2 & P2 & D2 & _ & _ & _ & W2 & _).
  cbn [withRate grossSalary maritalStatus dependents hasDisability] in *.
  rewrite T2, <- T1, F1 in F2. injection F2 as <-.
  rewrite P1 in P2. injection P2 as B. rewrite <- B in *.
  rewrite D1 in D2. injection D2 as <-. congruence.
Qed.

(*@@X20@@*)

(** ** The currency mask directive *)

Section Grouping.

Import CurrencyMask.

Lemma isDigit_isWord (c : N) : isDigit c = true -> isWord c = true.
Proof. intro H. unfold isWord. rewrite H. reflexivity. Qed.

Lemma span_digits (s : jsstring) :
  forallb isDigit s = true -> span isDigit s = (s, []).
Proof.
  intro H. rewrite <- (app_nil_r s) at 1. apply span_app; [exact H | exact I].
Qed.

Lemma lookahead_digits (s : jsstring) :
  forallb isDigit s = true ->
  lookahead s = negb (Nat.eqb (List.length s) 0)
                && Nat.eqb (List.length s mod 3) 0.
Proof. intro H. unfold lookahead. rewrite (span_digits s H). reflexivity. Qed.

Lemma separate_digits (s : jsstring) :
  forallb isDigit s = true ->
  forall prev,
  match prev with Some p => isWord p = true | None => True end ->
  separate prev s
  = groupFromRight (match prev with Some _ => false | None => true end) s.
Proof.
  induction s as [|c r IH]; intros D prev W.
  - cbn [separate groupFromRight]. rewrite andb_false_r. reflexivity.
  - cbn [separate groupFromRight]. rewrite (lookahead_digits _ D).
    cbn [forallb] in D. apply andb_true_iff in D. destruct D as [Dc Dr].
    rewrite (IH Dr (Some c) (isDigit_isWord c Dc)).
    unfold nonBoundary. rewrite (isDigit_isWord c Dc).
    destruct prev as [p|]; [rewrite W|]; reflexivity.
Qed.

Lemma filter_separate (f : N -> bool) (s : jsstring) :
  f 32%N = false ->
  forall prev, filter f (separate prev s) = filter f s.
Proof.
  intro F. induction s as [|c r IH]; intro prev; cbn [separate].
  - destruct (_ && _); cbn [filter]; rewrite ?F; reflexivity.
  - rewrite filter_app. cbn [filter]. rewrite IH.
    destruct (_ && _); cbn [filter]; rewrite ?F; reflexivity.
Qed.

Lemma filter_all (f : N -> bool) (s : jsstring) :
  forallb f s = true -> filter f s = s.
Proof.
  induction s as [|c r IH]; [reflexivity|]. cbn [forallb filter].
  intro H. apply andb_true_iff in H. destruct H as [-> H].
  rewrite (IH H). reflexivity.
Qed.

Lemma digits_no_space (s : jsstring) :
  forallb isDigit s = true ->
  forallb (fun c => negb (N.eqb c 32)) s = true.
Proof.
  induction s as [|c r IH]; [reflexivity|]. cbn [forallb].
  intro H. apply andb_true_iff in H. destruct H as [Dc Dr].
  rewrite (IH Dr), andb_true_r.
  destruct (N.eqb c 32) eqn:E; [|reflexivity].
  apply N.eqb_eq in E. subst c. discriminate.
Qed.

End Grouping.

(** X21.  The thousands separator on a string of digits: the regular
    expression puts a space exactly before each digit, the first apart,
    from which the number of digits to the end is a multiple of three; and
    taking the spaces out gives the digits back. *)
Theorem thousands_grouping (ds : jsstring) :
  forallb isDigit ds = true ->
  CurrencyMask.separate None ds = groupFromRight true ds
  /\ filter (fun c => negb (N.eqb c 32)) (CurrencyMask.separate None ds) = ds.
Proof.
  intro D. split.
  - apply (separate_digits ds D None). exact I.
  - rewrite filter_separate by reflexivity.
    apply filter_all, digits_no_space, D.
Qed.

Lemma thousands_grouping_witness :
  CurrencyMask.separate None (utf16 "1234567") = utf16 "1 234 567".
Proof.
  rewrite (proj1 (thousands_grouping (utf16 "1234567") eq_refl)).
  reflexivity.
Defined.

Section Splitting.

Import CurrencyMask.

Lemma split_none (sep : N) (s : jsstring) :
  ~ In sep s -> split sep s = [s].
Proof.
  induction s as [|c r IH]; intro H; [reflexivity|]. cbn [split].
  destruct (N.eqb c sep) eqn:E.
  - apply N.eqb_eq in E. exfalso. apply H. left. exact E.
  - rewrite IH; [reflexivity|]. intro I. apply H. right. exact I.
Qed.

Lemma split_app (sep : N) (a b : jsstring) :
  ~ In sep a -> split sep (a ++ sep :: b) = a :: split sep b.
Proof.
  induction a as [|c r IH]; intro H; cbn [app split].
  - rewrite N.eqb_refl. reflexivity.
  - destruct (N.eqb c sep) eqn:E.
    + apply N.eqb_eq in E. exfalso. apply H. left. exact E.
    + rewrite IH; [reflexivity|]. intro I. apply H. right. exact I.
Qed.

Lemma split_parts (sep : N) (s : jsstring) :
  split sep s <> [] /\ Forall (fun p => ~ In sep p) (split sep s).
Proof.
  induction s as [|c r [N F]]; cbn [split].
  - split; [discriminate|]. repeat constructor. intros [].
  - destruct (N.eqb c sep) eqn:E.
    + split; [discriminate|]. constructor; [intros []|exact F].
    + destruct (split sep r) as [|p ps]; [contradiction|].
      split; [discriminate|]. inversion F as [|? ? Hp Hps]; subst.
      constructor; [|exact Hps].
      intros [I|I]; [|exact (Hp I)].
      subst c. rewrite N.eqb_refl in E. discriminate.
Qed.

Lemma separate_In (prev : option N) (s : jsstring) (x : N) :
  In x (separate prev s) -> x = 32%N \/ In x s.
Proof.
  revert prev. induction s as [|c r IH]; intro prev; cbn [separate].
  - destruct (_ && _); [intros [<-|[]]; auto | intros []].
  - intro H. apply in_app_or in H. destruct H as [H|[<-|H]].
    + destruct (_ && _); [destruct H as [<-|[]]; auto | destruct H].
    + right. left. reflexivity.
    + destruct (IH _ H); [auto | right; right; assumption].
Qed.

Lemma grouped_no_comma (s : jsstring) :
  ~ In 44%N (separate None (filter isDigit s)).
Proof.
  intro H. apply separate_In in H. destruct H as [H|H]; [discriminate|].
  apply filter_In in H. destruct H as [_ H]. discriminate.
Qed.

Lemma firstn_no_sep (sep : N) (n : nat) (p : jsstring) :
  ~ In sep p -> ~ In sep (firstn n p).
Proof.
  intros H I. apply H. rewrite <- (firstn_skipn n p). apply in_or_app. auto.
Qed.

End Splitting.

(** X22.  Formatting is idempotent: [formatDisplay] leaves its own
    results unchanged, for every string. *)
Theorem formatDisplay_idempotent (value : jsstring) :
  CurrencyMask.formatDisplay (CurrencyMask.formatDisplay value)
  = CurrencyMask.formatDisplay value.
Proof.
  destruct value as [|c v]; [reflexivity|].
  unfold CurrencyMask.formatDisplay at 2 3.
  destruct (split_parts 44 (c :: v)) as [Ne F].
  destruct (CurrencyMask.split 44 (c :: v)) as [|p0 ps]; [contradiction|].
  cbn [hd].
  set (G := CurrencyMask.separate None (filter isDigit p0)).
  assert (NG : ~ In 44%N G) by apply grouped_no_comma.
  assert (DG : filter isDigit G = filter isDigit p0).
  { unfold G. rewrite filter_separate by reflexivity.
    apply filter_all. apply forallb_forall. intros x Hx.
    apply filter_In in Hx. tauto. }
  destruct ps as [|p1 ps].
  - rewrite app_nil_r. unfold CurrencyMask.formatDisplay.
    destruct G as [|g G'] eqn:EG; [reflexivity|].
    rewrite (split_none 44 (g :: G') NG). cbn [hd].
    rewrite DG. fold G. rewrite EG, app_nil_r. reflexivity.
  - inversion F as [|? ? _ F1]; subst. inversion F1 as [|? ? N1 _]; subst.
    unfold CurrencyMask.formatDisplay.
    destruct (G ++ 44%N :: firstn 2 p1) as [|x xs] eqn:EO.
    { destruct G; discriminate. }
    rewrite <- EO. rewrite (split_app 44 G _ NG).
    rewrite (split_none 44 _ (firstn_no_sep 44 2 p1 N1)). cbn [hd].
    rewrite DG. fold G. rewrite firstn_firstn. reflexivity.
Qed.

Section Typing.

Import CurrencyMask.

Lemma digits_no_comma (s : jsstring) :
  forallb isDigit s = true -> ~ In 44%N s.
Proof.
  intros D I. rewrite forallb_forall in D. specialize (D _ I). discriminate.
Qed.

Lemma digits_kept (s : jsstring) :
  forallb isDigit s = true ->
  forallb (fun c => isDigit c || N.eqb c 44) s = true.
Proof.
  intro D. rewrite forallb_forall in *. intros x Hx. rewrite (D x Hx).
  reflexivity.
Qed.

Lemma digits_not_comma (s : jsstring) :
  forallb isDigit s = true ->
  forallb (fun c => negb (N.eqb c 44)) s = true.
Proof.
  intro D. rewrite forallb_forall in *. intros x Hx. specialize (D x Hx).
  destruct (N.eqb x 44) eqn:E; [|reflexivity].
  apply N.eqb_eq in E. subst x. discriminate.
Qed.

Lemma replaceFirstComma_app (a b : jsstring) :
  forallb isDigit a = true ->
  replaceFirstComma (a ++ 44%N :: b) = a ++ 46%N :: b.
Proof.
  induction a as [|c r IH]; intro D; [reflexivity|].
  cbn [forallb] in D. apply andb_true_iff in D. destruct D as [Dc Dr].
  cbn [app replaceFirstComma]. rewrite (IH Dr).
  destruct (N.eqb c 44) eqn:E; [|reflexivity].
  apply N.eqb_eq in E. subst c. discriminate.
Qed.

Lemma replaceFirstComma_digits (a : jsstring) :
  forallb isDigit a = true -> replaceFirstComma a = a.
Proof.
  induction a as [|c r IH]; intro D; [reflexivity|].
  cbn [forallb] in D. apply andb_true_iff in D. destruct D as [Dc Dr].
  cbn [replaceFirstComma]. rewrite (IH Dr).
  destruct (N.eqb c 44) eqn:E; [|reflexivity].
  apply N.eqb_eq in E. subst c. discriminate.
Qed.

End Typing.

(** X23.  What typing leaves.  For digits [a], a comma and digits [b],
    the element shows [a] grouped in threes, the comma and the first two
    digits of [b], while the value passed on is the number [a.b] with all
    the digits of [b] (none when there is no digit at all); for digits
    [a] alone, the element shows [a] grouped and the value is [a] (none
    for the empty string). *)
Theorem onInput_typed (a b : jsstring) :
  forallb isDigit a = true ->
  forallb isDigit b = true ->
  CurrencyMask.onInput (a ++ 44%N :: b)
  = {| CurrencyMask.elementValue := groupFromRight true a ++ 44%N :: firstn 2 b;
       CurrencyMask.innerValue :=
         if Nat.eqb (List.length a + List.length b) 0 then None
         else Some (num (inject_Z (digitsValue a)
                         + inject_Z (digitsValue b)
                           / inject_Z (10 ^ Z.of_nat (List.length b)))) |}
  /\ CurrencyMask.onInput a
     = {| CurrencyMask.elementValue := groupFromRight true a;
          CurrencyMask.innerValue :=
            match a with
            | [] => None
            | _ => Some (ofZ (digitsValue a))
            end |}.
Proof.
  intros Da Db. split.
  - unfold CurrencyMask.onInput.
    assert (K : forallb (fun c => isDigit c || N.eqb c 44) (a ++ 44%N :: b)
                = true).
    { rewrite forallb_app. cbn [forallb].
      rewrite (digits_kept a Da), (digits_kept b Db). reflexivity. }
    rewrite (filter_all _ _ K).
    rewrite (split_app 44 a b (digits_no_comma a Da)).
    rewrite (split_none 44 b (digits_no_comma b Db)).
    rewrite (replaceFirstComma_app a b Da).
    assert (C : forallb (fun c => negb (N.eqb c 44)) (a ++ 46%N :: b) = true).
    { rewrite forallb_app. cbn [forallb].
      rewrite (digits_not_comma a Da), (digits_not_comma b Db). reflexivity. }
    rewrite (filter_all _ _ C).
    f_equal.
    + unfold CurrencyMask.formatDisplay.
      destruct (a ++ 44%N :: b) as [|x xs] eqn:E; [destruct a; discriminate|].
      rewrite <- E. rewrite (split_app 44 a b (digits_no_comma a Da)).
      rewrite (split_none 44 b (digits_no_comma b Db)). cbn [hd].
      rewrite (filter_all _ _ Da).
      rewrite (separate_digits a Da None I). reflexivity.
    + unfold CurrencyMask.parseFloat.
      rewrite (span_app isDigit a (46%N :: b) Da eq_refl).
      rewrite (span_digits b Db). cbn [fst].
      destruct (Nat.eqb (List.length a + List.length b) 0); reflexivity.
  - unfold CurrencyMask.onInput.
    rewrite (filter_all _ _ (digits_kept a Da)).
    rewrite (split_none 44 a (digits_no_comma a Da)).
    rewrite (replaceFirstComma_digits a Da).
    rewrite (filter_all _ _ (digits_not_comma a Da)).
    f_equal.
    + unfold CurrencyMask.formatDisplay. destruct a as [|x xs]; [reflexivity|].
      rewrite (split_none 44 _ (digits_no_comma _ Da)). cbn [hd].
      rewrite (filter_all _ _ Da), app_nil_r.
      apply (separate_digits _ Da None I).
    + unfold CurrencyMask.parseFloat. rewrite (span_digits a Da).
      destruct a; reflexivity.
Qed.

Lemma onInput_typed_witness :
  CurrencyMask.onInput (utf16 "1000,507")
  = {| CurrencyMask.elementValue := utf16 "1 000,50";
       CurrencyMask.innerValue := Some (num 1000.507) |}.
Proof.
  refine (eq_trans
            (proj1 (onInput_typed (utf16 "1000") (utf16 "507") eq_refl eq_refl))
            _).
  reflexivity.
Defined.

(** X24.  A second comma ends the input: whatever follows it, digits
    or not, changes neither the text shown nor the value passed on. *)
Theorem onInput_second_comma (a b rest : jsstring) :
  forallb isDigit a = true ->
  forallb isDigit b = true ->
  CurrencyMask.onInput (a ++ 44%N :: b ++ 44%N :: rest)
  = CurrencyMask.onInput (a ++ 44%N :: b).
Proof.
  intros Da Db. unfold CurrencyMask.onInput.
  set (keep := fun c : N => isDigit c || N.eqb c 44).
  assert (L : filter keep (a ++ 44%N :: b ++ 44%N :: rest)
              = a ++ 44%N :: b ++ 44%N :: filter keep rest).
  { rewrite filter_app. cbn [filter]. change (keep 44%N) with true. cbn iota.
    rewrite filter_app. cbn [filter]. change (keep 44%N) with true. cbn iota.
    rewrite (filter_all keep a (digits_kept a Da)).
    rewrite (filter_all keep b (digits_kept b Db)). reflexivity. }
  assert (R : filter keep (a ++ 44%N :: b) = a ++ 44%N :: b).
  { rewrite filter_app. cbn [filter]. change (keep 44%N) with true. cbn iota.
    rewrite (filter_all keep a (digits_kept a Da)).
    rewrite (filter_all keep b (digits_kept b Db)). reflexivity. }
  rewrite L, R.
  rewrite !(split_app 44 a _ (digits_no_comma a Da)).
  rewrite (split_app 44 b _ (digits_no_comma b Db)).
  rewrite (split_none 44 b (digits_no_comma b Db)).
  destruct (split_parts 44 (filter keep rest)) as [Ne _].
  destruct (CurrencyMask.split 44 (filter keep rest)) as [|p ps];
    [contradiction|].
  reflexivity.
Qed.

Lemma onInput_second_comma_witness :
  CurrencyMask.onInput (utf16 "1000,50,70")
  = CurrencyMask.onInput (utf16 "1000,50").
Proof.
  exact (onInput_second_comma (utf16 "1000") (utf16 "50") (utf16 "70")
           eq_refl eq_refl).
Defined.

(** ** The simulator component: the rows it shows *)

Section ToFixed.

Lemma Qle_bool_false (x y : Q) : Qle_bool x y = false -> (y < x)%Q.
Proof.
  intro H. apply Qnot_le_lt. intro L. apply Qle_bool_iff in L. congruence.
Qed.

Lemma hundredths (n : Z) : (n # 100 == inject_Z n * (1 # 100))%Q.
Proof. unfold Qeq, Qmult, inject_Z. simpl. ring. Qed.

(** [toFixed(2)] moves a finite number by half a cent at most. *)
Lemma toFixed2_Fin (q : Qc) :
  exists q' : Qc,
    Simulator.toFixed2 (Fin q) = Fin q'
    /\ (this q - (1 # 200) <= this q')%Q
    /\ (this q' <= this q + (1 # 200))%Q.
Proof.
  unfold Simulator.toFixed2.
  destruct (Qle_bool (inject_Z (10 ^ 21)) (Qabs (this q))).
  { exists q. split; [reflexivity|]. split; lra. }
  set (x := (Qabs (this q) * (100 # 1) + (1 # 2))%Q).
  pose proof (Qfloor_le x) as L. pose proof (Qlt_floor x) as U.
  rewrite inject_Z_plus in U. change (inject_Z 1) with 1%Q in U.
  set (n := Qfloor x) in *. clearbody n.
  destruct (Qle_bool 0 (this q)) eqn:S; eexists;
    (split; [reflexivity|]); unfold num; to_Q; rewrite hundredths.
  - apply Qle_bool_iff in S. pose proof (Qabs_pos _ S) as A.
    subst x. rewrite A in L, U. split; lra.
  - apply Qle_bool_false in S.
    assert (S' : (this q <= 0)%Q) by lra.
    pose proof (Qabs_neg _ S') as A.
    subst x. rewrite A in L, U. rewrite inject_Z_opp. split; lra.
Qed.

End ToFixed.

Section Rows.

Variable data : option IrsDataset.
Variable c : Simulator.SimulatorComponent.
Variable proposal : Simulator.ProposalData.
Variable row : Display.SimulationResult.

Hypothesis duodecimos : Simulator.hasDuodecimos c = true.
Hypothesis mapped : Display.mapToSimulationResult data c proposal = Ok row.

(** With duodecimos the row is built from the result of one more call of
    the withholding service. *)
Lemma duodecimos_row :
  let b14 := Reverse.monthlyBaseSalary proposal * ofZ 12 / ofZ 14 in
  let i14 := Reverse.monthlyIHT proposal * ofZ 12 / ofZ 14 in
  exists base : IrsResult,
    calculate data
      (Simulator.irsCall c (b14 + i14)
         (Simulator.segSocialRegimeGeral / ofZ 100)) = Ok base
    /\ Display.salaryBase row = Simulator.toFixed2 b14
    /\ Display.IHT row = Simulator.toFixed2 i14
    /\ Display.duodecimoSF row = Simulator.toFixed2 (b14 / ofZ 12)
    /\ Display.duodecimoSN row = Simulator.toFixed2 (b14 / ofZ 12)
    /\ Display.irs row = Simulator.toFixed2 (irsWithheld base)
    /\ Display.irsSF row
       = Simulator.toFixed2
           (max (ofZ 0)
              (Simulator.toFixed2 (Reverse.irs proposal) - Display.irs row)
            / ofZ 2)
    /\ Display.irsSN row = Display.irsSF row.
Proof.
  intros b14 i14. revert mapped. unfold Display.mapToSimulationResult.
  rewrite duodecimos. fold b14 i14.
  destruct (calculate data _) as [base|e]; [|discriminate].
  cbn [bind]. intros [= <-]. exists base.
  cbn [Display.salaryBase Display.IHT Display.duodecimoSF Display.duodecimoSN
       Display.irs Display.irsSF Display.irsSN Display.baseSalary Display.iht
       Display.duodecimoSFRaw Display.duodecimoSNRaw Display.irsSFShown
       Display.irsSNShown Display.irsBase].
  repeat split.
Qed.

End Rows.





Section Cents.

Lemma toFixed2_hundredths (z : Z) :
  Simulator.toFixed2 (num (z # 100)) = num (z # 100).
Proof.
  unfold num at 1. unfold Simulator.toFixed2.
  destruct (Qle_bool (inject_Z (10 ^ 21)) (Qabs (this (Q2Qc (z # 100)))));
    [reflexivity|].
  assert (W : (this (Q2Qc (z # 100)) == inject_Z z * (1 # 100))%Q)
    by (to_Q; apply hundredths).
  set (w := this (Q2Qc (z # 100))) in *. clearbody w.
  destruct (Z_le_gt_dec 0 z) as [P|N].
  - assert (Pw : (0 <= w)%Q).
    { rewrite W. assert (0 <= inject_Z z)%Q by (unfold Qle; simpl; lia). lra. }
    pose proof (Qabs_pos _ Pw) as A.
    replace (Qle_bool 0 w) with true by (symmetry; apply Qle_bool_iff; exact Pw).
    rewrite (Qfloor_unique _ z); [reflexivity | |].
    + rewrite A, W. lra.
    + rewrite A, W, inject_Z_plus. change (inject_Z 1) with 1%Q. lra.
  - assert (Nw : (w < 0)%Q).
    { rewrite W. assert (inject_Z z < 0)%Q by (unfold Qlt; simpl; lia). lra. }
    assert (Nw' : (w <= 0)%Q) by lra.
    pose proof (Qabs_neg _ Nw') as A.
    destruct (Qle_bool 0 w) eqn:S; [apply Qle_bool_iff in S; lra|].
    rewrite (Qfloor_unique _ (- z)); [rewrite Z.opp_involutive; reflexivity | |].
    + rewrite A, W, inject_Z_opp. lra.
    + rewrite A, W, inject_Z_plus, inject_Z_opp. change (inject_Z 1) with 1%Q.
      lra.
Qed.

(** Writing a number with two decimals twice is writing it once. *)
Lemma toFixed2_idempotent (x : number) :
  Simulator.toFixed2 (Simulator.toFixed2 x) = Simulator.toFixed2 x.
Proof.
  destruct x as [q| | |]; try reflexivity.
  assert (H : (Simulator.toFixed2 (Fin q) = Fin q
               /\ Qle_bool (inject_Z (10 ^ 21)) (Qabs (this q)) = true)
              \/ exists z, Simulator.toFixed2 (Fin q) = num (z # 100)).
  { unfold Simulator.toFixed2.
    destruct (Qle_bool (inject_Z (10 ^ 21)) (Qabs (this q)));
      [left; split; reflexivity | right; eexists; reflexivity]. }
  destruct H as [[E B] | [z E]]; rewrite E.
  - unfold Simulator.toFixed2. rewrite B. reflexivity.
  - apply toFixed2_hundredths.
Qed.

Lemma roundToCents_fixed (x : number) :
  Simulator.toFixed2 (Simulator.roundToCents x) = Simulator.roundToCents x.
Proof. unfold Simulator.roundToCents. apply toFixed2_idempotent. Qed.

End Cents.

(** X27.  Without duodecimos the conversion for display succeeds on every
    proposal of the sweep from an annual cost and shows its amounts as
    they are: writing with two decimals an amount that [roundToCents] has
    produced changes nothing; the duodecimos and their taxes are 0. *)
Theorem annual_cost_rows (data : option IrsDataset)
    (c : Simulator.SimulatorComponent) (pct : Z)
    (proposal : Simulator.ProposalData) :
  Simulator.hasDuodecimos c = false ->
  Simulator.proposalAt data c pct = Ok proposal ->
  exists row,
    Display.mapToSimulationResult data c proposal = Ok row
    /\ Display.salaryBase row = Reverse.monthlyBaseSalary proposal
    /\ Display.IHT row = Reverse.monthlyIHT proposal
    /\ Display.irs row = Reverse.irs proposal
    /\ Display.monthlyValueToBenefits row = Reverse.monthlyBenefits proposal
    /\ Display.totalMax row = Reverse.totalNetMax proposal
    /\ Display.totalMin row = Reverse.totalNetMin proposal
    /\ Display.custoAnualParaEmpresa row = Reverse.annualCost proposal
    /\ Display.duodecimoSF row = ofZ 0 /\ Display.duodecimoSN row = ofZ 0
    /\ Display.irsSF row = ofZ 0 /\ Display.irsSN row = ofZ 0.
Proof.
  intros D E. unfold Display.mapToSimulationResult. rewrite D. cbn [bind].
  eexists. split; [reflexivity|].
  cbn [Display.salaryBase Display.IHT Display.duodecimoSF Display.duodecimoSN
       Display.irs Display.irsSF Display.irsSN Display.baseSalary Display.iht
       Display.duodecimoSFRaw Display.duodecimoSNRaw Display.irsSFShown
       Display.irsSNShown Display.irsBase Display.monthlyValueToBenefits
       Display.totalMax Display.totalMin Display.custoAnualParaEmpresa].
  unfold Simulator.proposalAt in E.
  destruct (calculate data _) as [cmax|e]; [|discriminate]. cbn [bind] in E.
  destruct (calculate data _) as [cmin|e]; [|discriminate]. cbn [bind] in E.
  injection E as <-.
  cbn [Reverse.monthlyBaseSalary Reverse.monthlyIHT Reverse.irs
       Reverse.monthlyBenefits Reverse.totalNetMax Reverse.totalNetMin
       Reverse.annualCost].
  rewrite !roundToCents_fixed.
  repeat split; apply Fin_eq; reflexivity.
Qed.

Lemma annual_cost_rows_witness :
  exists proposal row,
    Simulator.proposalAt (Some mockDataset)
      (Simulator.withMealAllowances defaultComponent) 10 = Ok proposal
    /\ Display.mapToSimulationResult (Some mockDataset)
         (Simulator.withMealAllowances defaultComponent) proposal = Ok row
    /\ Display.salaryBase row = Reverse.monthlyBaseSalary proposal.
Proof.
  assert (E : exists proposal,
             Simulator.proposalAt (Some mockDataset)
               (Simulator.withMealAllowances defaultComponent) 10
             = Ok proposal) by (eexists; vm_compute; reflexivity).
  destruct E as [proposal E].
  destruct (annual_cost_rows (Some mockDataset)
              (Simulator.withMealAllowances defaultComponent) 10 proposal
              eq_refl E) as (row & M & H & _).
  exists proposal, row. auto.
Defined.
